(** * Crazy Pong: the simulation core, embedded and verified

    The development follows the modules of the program: the utility
    functions (field geometry, colour conversion), the chaos controller, the
    paddle, the ball and the game that owns them.

    Numbers.  A JavaScript number is modelled by an exact rational ([Q]); the
    comparisons, [Math.abs], [Math.min], [Math.max], [Math.sign] and
    [Math.floor] are the rational ones.  Every [Math.random()] call and every
    [performance.now()] call reads the next value of a stream carried by the
    [World], so that a statement quantified over worlds covers every run.
    [Math.PI], [Math.cos] and [Math.sin] are functions of the host and are
    taken as parameters ([MathHost]); the module [BallReal] instantiates the
    velocity computed by [Ball.reset] over the real numbers, where the
    trigonometric functions exist.  The width and the height of the canvas
    are attributes of the canvas element of the page, which keeps whole
    numbers ([Canvas.resize]). *)

From Stdlib Require Import ZArith QArith Qround Qminmax Qabs Qpower Lia List String Ascii Bool.
From Stdlib Require Import Psatz.
From Stdlib Require Import Reals.
Import ListNotations.

Local Open Scope Q_scope.

(** ** JavaScript numbers and operators *)

Module Js.

  (** [a < b], [a <= b], [a > b], [a >= b] and [a === b] on numbers. *)
Definition ltb (a b : Q) : bool := negb (Qle_bool b a).
Definition leb (a b : Q) : bool := Qle_bool a b.
Definition gtb (a b : Q) : bool := ltb b a.
Definition geb (a b : Q) : bool := leb b a.
Definition eqb (a b : Q) : bool := Qeq_bool a b.

  (** [Math.sign]. *)
Definition sign (a : Q) : Q :=
    if ltb 0 a then 1 else if ltb a 0 then -1 else 0.

  (** [v || d] for a number [v]: zero is falsy. *)
Definition orNum (v d : Q) : Q := if eqb v 0 then d else v.

  (** [o || d] for a property that may be [undefined]. *)
Definition orOpt (o : option Q) (d : Q) : Q :=
    match o with
    | Some v => orNum v d
    | None => d
    end.

  (** [s || d] for a string [s]: the empty string is falsy. *)
Definition orStr (s d : string) : string :=
    match s with
    | EmptyString => d
    | _ => s
    end.

  (** [Math.min] of four arguments. *)
Definition min4 (a b c d : Q) : Q := Qmin (Qmin (Qmin a b) c) d.

End Js.

Declare Scope js_scope.
Delimit Scope js_scope with js.
Infix "<?" := Js.ltb (at level 70, no associativity) : js_scope.
Infix "<=?" := Js.leb (at level 70, no associativity) : js_scope.
Infix ">?" := Js.gtb (at level 70, no associativity) : js_scope.
Infix ">=?" := Js.geb (at level 70, no associativity) : js_scope.
Infix "===" := Js.eqb (at level 70, no associativity) : js_scope.
Local Open Scope js_scope.

(** ** The world: random draws and the clock *)

Record World := mkWorld {
  rand : nat -> Q;       (* the values [Math.random()] returns, in order *)
  randPos : nat;         (* how many have been consumed *)
  clock : nat -> Q;      (* the values [performance.now()] returns, in order *)
  clockPos : nat
}.

(** [Math.random()]. *)
Definition random (w : World) : Q * World :=
  (rand w (randPos w),
   {| rand := rand w; randPos := S (randPos w);
      clock := clock w; clockPos := clockPos w |}).

(** [performance.now()]. *)
Definition performanceNow (w : World) : Q * World :=
  (clock w (clockPos w),
   {| rand := rand w; randPos := randPos w;
      clock := clock w; clockPos := S (clockPos w) |}).

(** [Math.random()] returns a number in [0, 1). *)
Definition fair (w : World) : Prop :=
  forall n, 0 <= rand w n /\ rand w n < 1.

(** The host's [Math.PI], [Math.cos] and [Math.sin]. *)
Class MathHost := {
  PI : Q;
  cos : Q -> Q;
  sin : Q -> Q
}.

(** ** Game parameters *)

Module Params.

Record t := mk {
    ballSpeed : Q;
    ballSize : Q;
    paddleSize : Q;
    paddleWidth : Q;
    paddleSpeed : Q;
    paddleColor : string;
    fieldWidth : Q;
    fieldHeight : Q;
    ballColor : string;
    backgroundColor : string;
    fieldBorderColor : string;
    trailEffect : bool;
    paddlePulse : bool;
    screenShake : bool;
    invertControls : bool;
    ballGravityX : Q;
    ballGravityY : Q;
    multiball : bool;
    transitionSpeed : Q;
    useNeonEffects : bool;
    useParticles : bool
  }.

  (** [Game.constructor]: [this.defaultParams]. *)
Definition defaultParams : t := {|
    ballSpeed := 3.5;
    ballSize := 10;
    paddleSize := 100;
    paddleWidth := 15;
    paddleSpeed := 8;
    paddleColor := "#00ffff";
    fieldWidth := 0.9;
    fieldHeight := 0.9;
    ballColor := "#ff00ff";
    backgroundColor := "#0a0a12";
    fieldBorderColor := "#1c1c35";
    trailEffect := true;
    paddlePulse := false;
    screenShake := true;
    invertControls := false;
    ballGravityX := 0;
    ballGravityY := 0;
    multiball := false;
    transitionSpeed := 0.05;
    useNeonEffects := true;
    useParticles := true
  |}.

(** The names of the numeric chaos parameters: the keys the chaos controller
    writes through [gameParams[param.name]]. *)
Inductive name :=
| BallSpeed | BallSize | PaddleSize | PaddleWidth | PaddleSpeed
| BallGravityX | BallGravityY | FieldWidth | FieldHeight | Multiball.

(** The names of the colour parameters. *)
Inductive colorName :=
| BallColor | PaddleColor | BackgroundColor | FieldBorderColor.

(** [params[n]] read as a number; a boolean reads as 1 or 0. *)
Definition get (n : name) (p : t) : Q :=
  match n with
  | BallSpeed => ballSpeed p
  | BallSize => ballSize p
  | PaddleSize => paddleSize p
  | PaddleWidth => paddleWidth p
  | PaddleSpeed => paddleSpeed p
  | BallGravityX => ballGravityX p
  | BallGravityY => ballGravityY p
  | FieldWidth => fieldWidth p
  | FieldHeight => fieldHeight p
  | Multiball => if multiball p then 1 else 0
  end.

(** [params[n] = v] for a number [v]; the boolean property keeps the truth
    value of the number. *)
Definition setNumber (n : name) (v : Q) (p : t) : t :=
  {| ballSpeed := match n with BallSpeed => v | _ => ballSpeed p end;
     ballSize := match n with BallSize => v | _ => ballSize p end;
     paddleSize := match n with PaddleSize => v | _ => paddleSize p end;
     paddleWidth := match n with PaddleWidth => v | _ => paddleWidth p end;
     paddleSpeed := match n with PaddleSpeed => v | _ => paddleSpeed p end;
     paddleColor := paddleColor p;
     fieldWidth := match n with FieldWidth => v | _ => fieldWidth p end;
     fieldHeight := match n with FieldHeight => v | _ => fieldHeight p end;
     ballColor := ballColor p;
     backgroundColor := backgroundColor p;
     fieldBorderColor := fieldBorderColor p;
     trailEffect := trailEffect p;
     paddlePulse := paddlePulse p;
     screenShake := screenShake p;
     invertControls := invertControls p;
     ballGravityX := match n with BallGravityX => v | _ => ballGravityX p end;
     ballGravityY := match n with BallGravityY => v | _ => ballGravityY p end;
     multiball := match n with
                  | Multiball => negb (Js.eqb v 0)
                  | _ => multiball p
                  end;
     transitionSpeed := transitionSpeed p;
     useNeonEffects := useNeonEffects p;
     useParticles := useParticles p |}.

(** [params[n] = v] for a boolean [v]. *)
Definition setBool (n : name) (v : bool) (p : t) : t :=
  match n with
  | Multiball =>
      {| ballSpeed := ballSpeed p; ballSize := ballSize p;
         paddleSize := paddleSize p; paddleWidth := paddleWidth p;
         paddleSpeed := paddleSpeed p; paddleColor := paddleColor p;
         fieldWidth := fieldWidth p; fieldHeight := fieldHeight p;
         ballColor := ballColor p; backgroundColor := backgroundColor p;
         fieldBorderColor := fieldBorderColor p;
         trailEffect := trailEffect p; paddlePulse := paddlePulse p;
         screenShake := screenShake p; invertControls := invertControls p;
         ballGravityX := ballGravityX p; ballGravityY := ballGravityY p;
         multiball := v;
         transitionSpeed := transitionSpeed p;
         useNeonEffects := useNeonEffects p; useParticles := useParticles p |}
  | _ => setNumber n (if v then 1 else 0) p
  end.

(** [params[n]] for a colour name. *)
Definition getColor (n : colorName) (p : t) : string :=
  match n with
  | BallColor => ballColor p
  | PaddleColor => paddleColor p
  | BackgroundColor => backgroundColor p
  | FieldBorderColor => fieldBorderColor p
  end.

(** [params[n] = c] for a colour name. *)
Definition setColor (n : colorName) (c : string) (p : t) : t :=
  {| ballSpeed := ballSpeed p; ballSize := ballSize p;
     paddleSize := paddleSize p; paddleWidth := paddleWidth p;
     paddleSpeed := paddleSpeed p;
     paddleColor := match n with PaddleColor => c | _ => paddleColor p end;
     fieldWidth := fieldWidth p; fieldHeight := fieldHeight p;
     ballColor := match n with BallColor => c | _ => ballColor p end;
     backgroundColor := match n with BackgroundColor => c | _ => backgroundColor p end;
     fieldBorderColor := match n with FieldBorderColor => c | _ => fieldBorderColor p end;
     trailEffect := trailEffect p; paddlePulse := paddlePulse p;
     screenShake := screenShake p; invertControls := invertControls p;
     ballGravityX := ballGravityX p; ballGravityY := ballGravityY p;
     multiball := multiball p;
     transitionSpeed := transitionSpeed p;
     useNeonEffects := useNeonEffects p; useParticles := useParticles p |}.

(** [params.invertControls = v]. *)
Definition setInvertControls (v : bool) (p : t) : t :=
  {| ballSpeed := ballSpeed p; ballSize := ballSize p;
     paddleSize := paddleSize p; paddleWidth := paddleWidth p;
     paddleSpeed := paddleSpeed p; paddleColor := paddleColor p;
     fieldWidth := fieldWidth p; fieldHeight := fieldHeight p;
     ballColor := ballColor p; backgroundColor := backgroundColor p;
     fieldBorderColor := fieldBorderColor p;
     trailEffect := trailEffect p; paddlePulse := paddlePulse p;
     screenShake := screenShake p; invertControls := v;
     ballGravityX := ballGravityX p; ballGravityY := ballGravityY p;
     multiball := multiball p;
     transitionSpeed := transitionSpeed p;
     useNeonEffects := useNeonEffects p; useParticles := useParticles p |}.

End Params.

Module Canvas.
Record t := mk { width : Q; height : Q }.

(** [canvas.width = v] and [canvas.height = v] on the canvas element of the
    page.  The two attributes are of the type [unsigned long]: the number is
    cut to its integer part (towards zero) and taken modulo [2 ^ 32], and
    the attribute keeps it when it is at most [2 ^ 31 - 1] and takes its
    default otherwise, 300 for the width and 150 for the height.  Reading
    the attribute gives this integer back. *)
Definition toUnsignedLong (v : Q) : Z :=
  ((if Qle_bool 0 v then Qfloor v else Qceiling v) mod 4294967296)%Z.

Definition reflect (default : Z) (v : Q) : Q :=
  let n := toUnsignedLong v in
  inject_Z (if (n <=? 2147483647)%Z then n else default).

(** [canvas.width = width; canvas.height = height]. *)
Definition resize (width0 height0 : Q) : t :=
  {| width := reflect 300 width0; height := reflect 150 height0 |}.
End Canvas.

Module Field.
Record t := mk { x : Q; y : Q; width : Q; height : Q }.
End Field.

(** ** utils.js *)

Module Rgb.
Record t := mk { r : Z; g : Z; b : Z }.
End Rgb.

Module Utils.

(** [getFieldOffset(canvas, gameParams)]. *)
Definition getFieldOffset (canvas : Canvas.t) (gameParams : Params.t) : Field.t :=
  let fieldWidth := Canvas.width canvas * Params.fieldWidth gameParams in
  let fieldHeight := Canvas.height canvas * Params.fieldHeight gameParams in
  let offsetX := (Canvas.width canvas - fieldWidth) / 2 in
  let offsetY := (Canvas.height canvas - fieldHeight) / 2 in
  {| Field.x := offsetX; Field.y := offsetY;
     Field.width := fieldWidth; Field.height := fieldHeight |}.

(** [lerp(start, end, t)]. *)
Definition lerp (start end_ t : Q) : Q := start + (end_ - start) * t.

(** The character class [[a-f\d]] under the flag [i]. *)
Definition isHexDigit (c : ascii) : bool :=
  let n := nat_of_ascii c in
  ((48 <=? n) && (n <=? 57) || (97 <=? n) && (n <=? 102) ||
   (65 <=? n) && (n <=? 70))%nat.

(** The value of a hexadecimal digit, as [parseInt] reads it. *)
Definition hexDigitValue (c : ascii) : Z :=
  let n := Z.of_nat (nat_of_ascii c) in
  (if n <=? 57 then n - 48 else if n <=? 70 then n - 55 else n - 87)%Z.

(** [parseInt(s, 16)] for a string [s] of two hexadecimal digits. *)
Definition parseInt16 (a b : ascii) : Z :=
  (16 * hexDigitValue a + hexDigitValue b)%Z.

(** The regular expression [/^#?([a-f\d]{2})([a-f\d]{2})([a-f\d]{2})$/i]:
    the six digits it captures, or [None] when the string does not match. *)
Definition execHex (hex : string)
    : option (ascii * ascii * ascii * ascii * ascii * ascii) :=
  let body := match hex with
              | String "#" rest => rest
              | _ => hex
              end in
  match body with
  | String a (String b (String c (String d (String e (String f EmptyString))))) =>
      if isHexDigit a && isHexDigit b && isHexDigit c &&
         isHexDigit d && isHexDigit e && isHexDigit f
      then Some (a, b, c, d, e, f)
      else None
  | _ => None
  end.

(** [hexToRgb(hex)]. *)
Definition hexToRgb (hex : string) : Rgb.t :=
  match execHex hex with
  | Some (a, b, c, d, e, f) =>
      {| Rgb.r := parseInt16 a b; Rgb.g := parseInt16 c d; Rgb.b := parseInt16 e f |}
  | None => {| Rgb.r := 255; Rgb.g := 255; Rgb.b := 255 |}
  end.

(** [ToInt32]: an integer wrapped to 32 bits, signed. *)
Definition toInt32 (z : Z) : Z := ((z + 2 ^ 31) mod 2 ^ 32 - 2 ^ 31)%Z.

(** [a << n] on 32-bit integers. *)
Definition shl (a n : Z) : Z := toInt32 (Z.shiftl (toInt32 a) (n mod 32)).

(** The lowercase character of a hexadecimal digit. *)
Definition hexChar (d : Z) : ascii :=
  if (d <? 10)%Z then ascii_of_nat (Z.to_nat (48 + d))
  else ascii_of_nat (Z.to_nat (87 + d)).

(** The hexadecimal digits of a non-negative integer, most significant
    first, in front of [acc]; [fuel] bounds the number of digits. *)
Fixpoint hexDigits (fuel : nat) (n : Z) (acc : string) : string :=
  match fuel with
  | O => acc
  | S fuel' =>
      let acc' := String (hexChar (n mod 16)) acc in
      if (n / 16 =? 0)%Z then acc' else hexDigits fuel' (n / 16) acc'
  end.

(** [n.toString(16)] for an integer [n]; a number below [2 ^ k] has at most
    [k] digits. *)
Definition toString16 (n : Z) : string :=
  let digits m := hexDigits (S (Z.to_nat (Z.log2 m))) m EmptyString in
  if (n <? 0)%Z then String "-" (digits (- n)%Z) else digits n.

(** [s.slice(1)]. *)
Definition slice1 (s : string) : string :=
  match s with
  | String _ rest => rest
  | EmptyString => EmptyString
  end.

(** [rgbToHex(r, g, b)]. *)
Definition rgbToHex (r g b : Q) : string :=
  String "#"
    (slice1 (toString16 (shl 1 24 + shl (Qfloor r) 16 + shl (Qfloor g) 8
                         + Qfloor b)%Z)).

(** [transitionColor(currentColor, targetColor, speed)]. *)
Definition transitionColor (currentColor targetColor : string) (speed : Q) : string :=
  let currentRgb := hexToRgb currentColor in
  let targetRgb := hexToRgb targetColor in
  let newR := inject_Z (Rgb.r currentRgb)
              + (inject_Z (Rgb.r targetRgb) - inject_Z (Rgb.r currentRgb)) * speed in
  let newG := inject_Z (Rgb.g currentRgb)
              + (inject_Z (Rgb.g targetRgb) - inject_Z (Rgb.g currentRgb)) * speed in
  let newB := inject_Z (Rgb.b currentRgb)
              + (inject_Z (Rgb.b targetRgb) - inject_Z (Rgb.b currentRgb)) * speed in
  rgbToHex newR newG newB.

(** [getRandomColor()]: [letters[i]] is [undefined] outside the string, and
    [color += undefined] appends the text [undefined]. *)
Definition letters : string := "0123456789ABCDEF".

Definition letterAt (i : Z) : string :=
  if (i <? 0)%Z then "undefined"
  else match String.get (Z.to_nat i) letters with
       | Some c => String c EmptyString
       | None => "undefined"
       end.

Definition getRandomColor (w : World) : string * World :=
  (fix loop (n : nat) (color : string) (w : World) : string * World :=
     match n with
     | O => (color, w)
     | S n' =>
         let (r, w) := random w in
         loop n' (color ++ letterAt (Qfloor (r * 16)))%string w
     end) 6%nat "#"%string w.

End Utils.

(** ** chaos.js *)

Module ChaosParam.
(** An entry of [chaosParams].  [transitionStart] is [undefined] ([None])
    until the first change; a comparison with [undefined] is false. *)
Record t := mk {
  name : Params.name;
  min : Q;
  max : Q;
  current : Q;
  target : Q;
  nextChange : Q;
  transitionDuration : Q;
  transitionStart : option Q;
  isBoolean : bool
}.
End ChaosParam.

Module ColorParam.
(** An entry of [colorParams].  [range] is the factor of [Math.random()] in
    the entry's [getRandomColor]. *)
Record t := mk {
  name : Params.colorName;
  current : string;
  nextChange : Q;
  range : Z
}.
End ColorParam.

Module Chaos.

Record t := mk {
  defaultParams : Params.t;
  targetParams : Params.t;
  chaosParams : list ChaosParam.t;
  colorParams : list ColorParam.t;
  gameParams : Params.t;
  startTime : Q;
  chaosStartDelay : Q;
  invertControls : bool;
  invertControlsNextChange : Q
}.

Definition entry (n : Params.name) (lo hi cur : Q) (boolean : bool) : ChaosParam.t :=
  {| ChaosParam.name := n; ChaosParam.min := lo; ChaosParam.max := hi;
     ChaosParam.current := cur; ChaosParam.target := cur;
     ChaosParam.nextChange := 0; ChaosParam.transitionDuration := 0;
     ChaosParam.transitionStart := None; ChaosParam.isBoolean := boolean |}.

Definition colorEntry (n : Params.colorName) (cur : string) (range : Z) : ColorParam.t :=
  {| ColorParam.name := n; ColorParam.current := cur;
     ColorParam.nextChange := 0; ColorParam.range := range |}.

(** [constructor(defaultParams)]. *)
Definition constructor (defaultParams0 : Params.t) : t :=
  {| defaultParams := defaultParams0;
     targetParams := defaultParams0;
     chaosParams :=
       [ entry Params.BallSpeed 2 7 (Params.ballSpeed defaultParams0) false;
         entry Params.BallSize 5 15 (Params.ballSize defaultParams0) false;
         entry Params.PaddleSize 60 130 (Params.paddleSize defaultParams0) false;
         entry Params.PaddleWidth 10 25 (Params.paddleWidth defaultParams0) false;
         entry Params.PaddleSpeed 5 12 (Params.paddleSpeed defaultParams0) false;
         entry Params.BallGravityX (-0.02) 0.02 0 false;
         entry Params.BallGravityY (-0.1) 0.1 0 false;
         entry Params.FieldWidth 0.7 0.95 (Params.fieldWidth defaultParams0) false;
         entry Params.FieldHeight 0.7 0.95 (Params.fieldHeight defaultParams0) false;
         entry Params.Multiball 0 1
           (if Params.multiball defaultParams0 then 1 else 0) true ];
     colorParams :=
       [ colorEntry Params.BallColor
           (Js.orStr (Params.ballColor defaultParams0) "#ffffff") 16777215;
         colorEntry Params.PaddleColor
           (Js.orStr (Params.paddleColor defaultParams0) "#ffffff") 16777215;
         colorEntry Params.BackgroundColor
           (Params.backgroundColor defaultParams0) 4210752;
         colorEntry Params.FieldBorderColor
           (Params.fieldBorderColor defaultParams0) 16777215 ];
     gameParams := defaultParams0;
     startTime := 0;
     chaosStartDelay := 10000;
     invertControls := false;
     invertControlsNextChange := 0 |}.

(** The body of the [forEach] of [updateParameters], for one entry: the
    entry and the game parameters after it. *)
Definition updateParameter (timestamp : Q) (param : ChaosParam.t)
    (gameParams0 : Params.t) (w : World) : ChaosParam.t * Params.t * World :=
  let '(param, w) :=
    if timestamp >=? ChaosParam.nextChange param then
      let (r1, w) := random w in
      let target := ChaosParam.min param
                    + r1 * (ChaosParam.max param - ChaosParam.min param) in
      let (r2, w) := random w in
      let nextChange := timestamp + 5000 + r2 * 5000 in
      let (r3, w) := random w in
      let transitionDuration := 2000 + r3 * 1000 in
      ({| ChaosParam.name := ChaosParam.name param;
          ChaosParam.min := ChaosParam.min param;
          ChaosParam.max := ChaosParam.max param;
          ChaosParam.current := ChaosParam.current param;
          ChaosParam.target := target;
          ChaosParam.nextChange := nextChange;
          ChaosParam.transitionDuration := transitionDuration;
          ChaosParam.transitionStart := Some timestamp;
          ChaosParam.isBoolean := ChaosParam.isBoolean param |}, w)
    else (param, w) in
  let param :=
    match ChaosParam.transitionStart param with
    | Some transitionStart =>
        if timestamp <? transitionStart + ChaosParam.transitionDuration param then
          let progress := (timestamp - transitionStart)
                          / ChaosParam.transitionDuration param in
          {| ChaosParam.name := ChaosParam.name param;
             ChaosParam.min := ChaosParam.min param;
             ChaosParam.max := ChaosParam.max param;
             ChaosParam.current :=
               ChaosParam.current param
               + (ChaosParam.target param - ChaosParam.current param)
                 * Qmin progress 0.1;
             ChaosParam.target := ChaosParam.target param;
             ChaosParam.nextChange := ChaosParam.nextChange param;
             ChaosParam.transitionDuration := ChaosParam.transitionDuration param;
             ChaosParam.transitionStart := ChaosParam.transitionStart param;
             ChaosParam.isBoolean := ChaosParam.isBoolean param |}
        else param
    | None => param
    end in
  let gameParams0 :=
    if ChaosParam.isBoolean param
    then Params.setBool (ChaosParam.name param)
           (ChaosParam.current param >? 0.5) gameParams0
    else Params.setNumber (ChaosParam.name param)
           (ChaosParam.current param) gameParams0 in
  (param, gameParams0, w).

(** The [forEach] of [updateParameters]. *)
Fixpoint updateEach (timestamp : Q) (params : list ChaosParam.t)
    (gameParams0 : Params.t) (w : World)
    : list ChaosParam.t * Params.t * World :=
  match params with
  | [] => ([], gameParams0, w)
  | param :: rest =>
      let '(param', gameParams1, w) := updateParameter timestamp param gameParams0 w in
      let '(rest', gameParams2, w) := updateEach timestamp rest gameParams1 w in
      (param' :: rest', gameParams2, w)
  end.

Definition with_params (self : t) (chaosParams0 : list ChaosParam.t)
    (gameParams0 : Params.t) : t :=
  {| defaultParams := defaultParams self; targetParams := targetParams self;
     chaosParams := chaosParams0; colorParams := colorParams self;
     gameParams := gameParams0; startTime := startTime self;
     chaosStartDelay := chaosStartDelay self;
     invertControls := invertControls self;
     invertControlsNextChange := invertControlsNextChange self |}.

(** [updateParameters(timestamp)]. *)
Definition updateParameters (timestamp : Q) (self : t) (w : World) : t * World :=
  let '(chaosParams', gameParams', w) :=
    updateEach timestamp (chaosParams self) (gameParams self) w in
  (with_params self chaosParams' gameParams', w).

(** [s.padStart(6, '0')]. *)
Definition padStart6 (s : string) : string :=
  (fix pad (n : nat) (s : string) :=
     match n with
     | O => s
     | S n' => pad n' (String "0" s)
     end) (6 - String.length s)%nat s.

(** [param.getRandomColor()]. *)
Definition getRandomColor (param : ColorParam.t) (w : World) : string * World :=
  let (r, w) := random w in
  (String "#"
     (padStart6 (Utils.toString16 (Qfloor (r * inject_Z (ColorParam.range param))))),
   w).

(** The body of the [forEach] of [updateColors], for one entry. *)
Definition updateColor (timestamp : Q) (param : ColorParam.t)
    (targetParams0 gameParams0 : Params.t) (w : World)
    : ColorParam.t * Params.t * Params.t * World :=
  let '(param, targetParams0, w) :=
    if timestamp >=? ColorParam.nextChange param then
      let (r, w) := random w in
      let param :=
        {| ColorParam.name := ColorParam.name param;
           ColorParam.current := ColorParam.current param;
           ColorParam.nextChange := timestamp + 2000 + r * 6000;
           ColorParam.range := ColorParam.range param |} in
      let (c, w) := getRandomColor param w in
      (param, Params.setColor (ColorParam.name param) c targetParams0, w)
    else (param, targetParams0, w) in
  let gameParams0 :=
    Params.setColor (ColorParam.name param)
      (Utils.transitionColor
         (Params.getColor (ColorParam.name param) gameParams0)
         (Params.getColor (ColorParam.name param) targetParams0)
         0.02)
      gameParams0 in
  (param, targetParams0, gameParams0, w).

(** The [forEach] of [updateColors]. *)
Fixpoint updateEachColor (timestamp : Q) (params : list ColorParam.t)
    (targetParams0 gameParams0 : Params.t) (w : World)
    : list ColorParam.t * Params.t * Params.t * World :=
  match params with
  | [] => ([], targetParams0, gameParams0, w)
  | param :: rest =>
      let '(param', targetParams1, gameParams1, w) :=
        updateColor timestamp param targetParams0 gameParams0 w in
      let '(rest', targetParams2, gameParams2, w) :=
        updateEachColor timestamp rest targetParams1 gameParams1 w in
      (param' :: rest', targetParams2, gameParams2, w)
  end.

(** [updateColors(timestamp)]. *)
Definition updateColors (timestamp : Q) (self : t) (w : World) : t * World :=
  let '(colorParams', targetParams', gameParams', w) :=
    updateEachColor timestamp (colorParams self) (targetParams self)
      (gameParams self) w in
  ({| defaultParams := defaultParams self; targetParams := targetParams';
      chaosParams := chaosParams self; colorParams := colorParams';
      gameParams := gameParams'; startTime := startTime self;
      chaosStartDelay := chaosStartDelay self;
      invertControls := invertControls self;
      invertControlsNextChange := invertControlsNextChange self |}, w).

(** [updateInvertedControls(timestamp)]. *)
Definition updateInvertedControls (timestamp : Q) (self : t) (w : World) : t * World :=
  if timestamp >=? invertControlsNextChange self then
    let (r1, w) := random w in
    let shouldInvert := r1 <? 0.15 in
    let (r2, w) := random w in
    ({| defaultParams := defaultParams self; targetParams := targetParams self;
        chaosParams := chaosParams self; colorParams := colorParams self;
        gameParams := Params.setInvertControls shouldInvert (gameParams self);
        startTime := startTime self;
        chaosStartDelay := chaosStartDelay self;
        invertControls := invertControls self;
        invertControlsNextChange := timestamp + 10000 + r2 * 10000 |}, w)
  else (self, w).

Definition set_startTime (self : t) (ts : Q) : t :=
  {| defaultParams := defaultParams self; targetParams := targetParams self;
     chaosParams := chaosParams self; colorParams := colorParams self;
     gameParams := gameParams self; startTime := ts;
     chaosStartDelay := chaosStartDelay self;
     invertControls := invertControls self;
     invertControlsNextChange := invertControlsNextChange self |}.

(** [update(timestamp, active)]; the parameters it returns are the
    [gameParams] of the controller it returns. *)
Definition update (timestamp : Q) (active : bool) (self : t) (w : World) : t * World :=
  if negb active then (self, w)
  else
    let self := if startTime self === 0 then set_startTime self timestamp else self in
    if timestamp - startTime self <? chaosStartDelay self then (self, w)
    else
      let (self, w) := updateParameters timestamp self w in
      let (self, w) := updateColors timestamp self w in
      updateInvertedControls timestamp self w.

(** [reset()]. *)
Definition reset (self : t) : t :=
  {| defaultParams := defaultParams self;
     targetParams := defaultParams self;
     chaosParams :=
       List.map
         (fun param =>
            let current :=
              Js.orNum (Params.get (ChaosParam.name param) (defaultParams self)) 0 in
            {| ChaosParam.name := ChaosParam.name param;
               ChaosParam.min := ChaosParam.min param;
               ChaosParam.max := ChaosParam.max param;
               ChaosParam.current := current;
               ChaosParam.target := current;
               ChaosParam.nextChange := 0;
               ChaosParam.transitionDuration := ChaosParam.transitionDuration param;
               ChaosParam.transitionStart := ChaosParam.transitionStart param;
               ChaosParam.isBoolean := ChaosParam.isBoolean param |})
         (chaosParams self);
     colorParams :=
       List.map
         (fun param =>
            {| ColorParam.name := ColorParam.name param;
               ColorParam.current :=
                 Params.getColor (ColorParam.name param) (defaultParams self);
               ColorParam.nextChange := 0;
               ColorParam.range := ColorParam.range param |})
         (colorParams self);
     gameParams := defaultParams self;
     startTime := 0;
     chaosStartDelay := chaosStartDelay self;
     invertControls := invertControls self;
     invertControlsNextChange := 0 |}.

End Chaos.

(** ** paddle.js

    [this.gameParams] of a paddle is a reference to a parameter object owned
    by someone else (the game or the chaos controller), which that owner
    mutates in place.  The paddle therefore stores a reference of an abstract
    type [Ref], and reads through [deref], the current content of the store. *)

Module Keys.
  (** The keyboard state: the keys the paddle looks up. *)
Record t := mk {
    w : bool; W : bool; s : bool; S : bool;
    ArrowUp : bool; ArrowDown : bool
  }.
End Keys.

Module Paddle.

Record t {Ref : Type} := mk {
    x : Q;
    y : Q;
    width : Q;
    height : Q;
    isLeft : bool;
    gameParams : Ref;
    color : string
  }.
Arguments t : clear implicits.
Arguments mk {Ref}.

Section WithStore.
Context {Ref : Type} (deref : Ref -> Params.t).

    (** [constructor(x, y, isLeft, gameParams)]. *)
Definition constructor (x0 y0 : Q) (isLeft0 : bool) (gameParams0 : Ref) : t Ref :=
      {| x := x0;
         y := y0;
         width := Params.paddleWidth (deref gameParams0);
         height := Params.paddleSize (deref gameParams0);
         isLeft := isLeft0;
         gameParams := gameParams0;
         color := Js.orStr (Params.paddleColor (deref gameParams0)) "#ffffff" |}.

Definition set_y (p : t Ref) (y0 : Q) : t Ref :=
      {| x := x p; y := y0; width := width p; height := height p;
         isLeft := isLeft p; gameParams := gameParams p; color := color p |}.

Definition set_x (p : t Ref) (x0 : Q) : t Ref :=
      {| x := x0; y := y p; width := width p; height := height p;
         isLeft := isLeft p; gameParams := gameParams p; color := color p |}.

Definition set_gameParams (p : t Ref) (r : Ref) : t Ref :=
      {| x := x p; y := y p; width := width p; height := height p;
         isLeft := isLeft p; gameParams := r; color := color p |}.

    (** [if (updatedParams) this.gameParams = updatedParams]. *)
Definition adopt (updatedParams : option Ref) (p : t Ref) : t Ref :=
      match updatedParams with
      | Some r => set_gameParams p r
      | None => p
      end.

    (** [update(keys, canvas, updatedParams)]. *)
Definition update (keys : Keys.t) (canvas : Canvas.t)
        (updatedParams : option Ref) (self : t Ref) : t Ref :=
      let self := adopt updatedParams self in
      let params := deref (gameParams self) in
      let field := Utils.getFieldOffset canvas params in
      let y1 :=
        if isLeft self then
          let y1 := if Keys.w keys || Keys.W keys
                    then y self - Params.paddleSpeed params else y self in
          if Keys.s keys || Keys.S keys
          then y1 + Params.paddleSpeed params else y1
        else
          let y1 := if Keys.ArrowUp keys
                    then y self - Params.paddleSpeed params else y self in
          if Keys.ArrowDown keys
          then y1 + Params.paddleSpeed params else y1 in
      set_y self
        (Qmax (Field.y field)
              (Qmin (Field.y field + Field.height field - height self) y1)).

    (** [updateAI(targetY, canvas, updatedParams)]. *)
Definition updateAI (targetY : Q) (canvas : Canvas.t)
        (updatedParams : option Ref) (self : t Ref) : t Ref :=
      let self := adopt updatedParams self in
      let params := deref (gameParams self) in
      let field := Utils.getFieldOffset canvas params in
      let paddleCenter := y self + height self / 2 in
      let distanceToTarget := targetY - paddleCenter in
      let moveDirection := Js.sign distanceToTarget in
      let aiSpeed := Params.paddleSpeed params * 0.8 in
      let y1 := y self + moveDirection * aiSpeed in
      set_y self
        (Qmax (Field.y field)
              (Qmin (Field.y field + Field.height field - height self) y1)).

    (** [updateDimensions()]. *)
Definition updateDimensions (self : t Ref) : t Ref :=
      let params := deref (gameParams self) in
      {| x := x self; y := y self;
         width := Params.paddleWidth params;
         height := Params.paddleSize params;
         isLeft := isLeft self; gameParams := gameParams self;
         color := color self |}.

End WithStore.

End Paddle.

(** ** ball.js

    [this.canvas], [this.updateScore] and [this.soundManager] are references to
    objects of the owner; the owner passes them to the operations that use
    them.  [this.gameParams] is the ball's own copy.  The callbacks act on the
    owner's state, of an abstract type [G]. *)

Module Side.
Inductive t := left | right.
End Side.

Module TrailPoint.
Record t := mk { x : Q; y : Q; size : Q }.
End TrailPoint.

Module Options.
  (** The [options] argument of the constructor; [None] is [undefined]. *)
Record t := mk {
    x : option Q; y : option Q; dx : option Q; dy : option Q
  }.
Definition empty : t := {| x := None; y := None; dx := None; dy := None |}.
End Options.

Module Ball.

Record t := mk {
    gameParams : Params.t;
    size : Q;
    color : string;
    needsRemoval : bool;
    lastScoreTime : Q;
    resetDelay : Q;
    shouldRespawn : bool;
    trail : list TrailPoint.t;
    maxTrailLength : nat;
    x : Q;
    y : Q;
    dx : Q;
    dy : Q
  }.

Definition set_pos (b : t) (x0 y0 : Q) : t :=
    {| gameParams := gameParams b; size := size b; color := color b;
       needsRemoval := needsRemoval b; lastScoreTime := lastScoreTime b;
       resetDelay := resetDelay b; shouldRespawn := shouldRespawn b;
       trail := trail b; maxTrailLength := maxTrailLength b;
       x := x0; y := y0; dx := dx b; dy := dy b |}.

Definition set_vel (b : t) (dx0 dy0 : Q) : t :=
    {| gameParams := gameParams b; size := size b; color := color b;
       needsRemoval := needsRemoval b; lastScoreTime := lastScoreTime b;
       resetDelay := resetDelay b; shouldRespawn := shouldRespawn b;
       trail := trail b; maxTrailLength := maxTrailLength b;
       x := x b; y := y b; dx := dx0; dy := dy0 |}.

Definition set_trail (b : t) (tr : list TrailPoint.t) : t :=
    {| gameParams := gameParams b; size := size b; color := color b;
       needsRemoval := needsRemoval b; lastScoreTime := lastScoreTime b;
       resetDelay := resetDelay b; shouldRespawn := shouldRespawn b;
       trail := tr; maxTrailLength := maxTrailLength b;
       x := x b; y := y b; dx := dx b; dy := dy b |}.

Definition set_lastScoreTime (b : t) (ts : Q) : t :=
    {| gameParams := gameParams b; size := size b; color := color b;
       needsRemoval := needsRemoval b; lastScoreTime := ts;
       resetDelay := resetDelay b; shouldRespawn := shouldRespawn b;
       trail := trail b; maxTrailLength := maxTrailLength b;
       x := x b; y := y b; dx := dx b; dy := dy b |}.

Definition set_needsRemoval (b : t) (v : bool) : t :=
    {| gameParams := gameParams b; size := size b; color := color b;
       needsRemoval := v; lastScoreTime := lastScoreTime b;
       resetDelay := resetDelay b; shouldRespawn := shouldRespawn b;
       trail := trail b; maxTrailLength := maxTrailLength b;
       x := x b; y := y b; dx := dx b; dy := dy b |}.

Definition set_shouldRespawn (b : t) (v : bool) : t :=
    {| gameParams := gameParams b; size := size b; color := color b;
       needsRemoval := needsRemoval b; lastScoreTime := lastScoreTime b;
       resetDelay := resetDelay b; shouldRespawn := v;
       trail := trail b; maxTrailLength := maxTrailLength b;
       x := x b; y := y b; dx := dx b; dy := dy b |}.

Definition set_gameParams (b : t) (p : Params.t) : t :=
    {| gameParams := p; size := size b; color := color b;
       needsRemoval := needsRemoval b; lastScoreTime := lastScoreTime b;
       resetDelay := resetDelay b; shouldRespawn := shouldRespawn b;
       trail := trail b; maxTrailLength := maxTrailLength b;
       x := x b; y := y b; dx := dx b; dy := dy b |}.

Section WithHost.
Context {host : MathHost}.

    (** [reset()]. *)
Definition reset (canvas : Canvas.t) (self : t) (w : World) : t * World :=
      let field := Utils.getFieldOffset canvas (gameParams self) in
      let self := set_pos self (Field.x field + Field.width field / 2)
                               (Field.y field + Field.height field / 2) in
      let (r1, w) := random w in
      let angle := (r1 * PI / 2.5) - PI / 5 in
      let (r2, w) := random w in
      let direction := if r2 <? 0.5 then 1 else -1 in
      let ballSpeed := Params.ballSpeed (gameParams self) in
      let minSpeed := Qmax 2 (ballSpeed * 0.8) in
      let (r3, w) := random w in
      let speed := minSpeed + r3 * (ballSpeed - minSpeed) in
      let self := set_vel self (cos angle * speed * direction) (sin angle * speed) in
      let self :=
        if Qabs (dx self) <? 1 then set_vel self (direction * 1) (dy self)
        else self in
      (self, w).

    (** [constructor(canvas, ctx, gameParams, updateScore, options, soundManager)]. *)
Definition constructor (canvas : Canvas.t) (gameParams0 : Params.t)
        (options : Options.t) (w : World) : t * World :=
      let self :=
        {| gameParams := gameParams0;
           size := Js.orNum (Params.ballSize gameParams0) 10;
           color := Js.orStr (Params.ballColor gameParams0) "#ff00ff";
           needsRemoval := false;
           lastScoreTime := 0;
           resetDelay := 500;
           shouldRespawn := true;
           trail := [];
           maxTrailLength := 10;
           x := 0; y := 0; dx := 0; dy := 0 |} in
      match Options.dx options, Options.dy options with
      | Some odx, Some ody =>
          let self := set_pos self
                        (Js.orOpt (Options.x options) (Canvas.width canvas / 2))
                        (Js.orOpt (Options.y options) (Canvas.height canvas / 2)) in
          (set_vel self odx ody, w)
      | _, _ => reset canvas self w
      end.

End WithHost.

  (** [handleWallCollision(field, ballSize)]. *)
Definition handleWallCollision (field : Field.t) (ballSize : Q) (self : t) : t * bool :=
    let collided := false in
    let '(self, collided) :=
      if y self - ballSize <? Field.y field then
        let self := set_pos self (x self) (Field.y field + ballSize) in
        let self := set_vel self (dx self) (Qabs (dy self)) in
        (self, true)
      else (self, collided) in
    let '(self, collided) :=
      if y self + ballSize >? Field.y field + Field.height field then
        let self := set_pos self (x self)
                      (Field.y field + Field.height field - ballSize) in
        let self := set_vel self (dx self) (- Qabs (dy self)) in
        (self, true)
      else (self, collided) in
    (self, collided).

  (** [handlePaddleCollision(paddle, ballSize)]. *)
Definition handlePaddleCollision {Ref : Type} (paddle : Paddle.t Ref)
      (ballSize : Q) (self : t) : t * bool :=
    let ballLeft := x self - ballSize in
    let ballRight := x self + ballSize in
    let ballTop := y self - ballSize in
    let ballBottom := y self + ballSize in
    let paddleLeft := Paddle.x paddle in
    let paddleRight := Paddle.x paddle + Paddle.width paddle in
    let paddleTop := Paddle.y paddle in
    let paddleBottom := Paddle.y paddle + Paddle.height paddle in
    if (ballRight >=? paddleLeft) && (ballLeft <=? paddleRight) &&
       (ballBottom >=? paddleTop) && (ballTop <=? paddleBottom) then
      let overlapLeft := ballRight - paddleLeft in
      let overlapRight := paddleRight - ballLeft in
      let overlapTop := ballBottom - paddleTop in
      let overlapBottom := paddleBottom - ballTop in
      let minOverlap := Js.min4 overlapLeft overlapRight overlapTop overlapBottom in
      let self :=
        if (minOverlap === overlapLeft) || (minOverlap === overlapRight) then
          let self := set_vel self (- dx self) (dy self) in
          let self :=
            if minOverlap === overlapLeft
            then set_pos self (paddleLeft - ballSize) (y self)
            else set_pos self (paddleRight + ballSize) (y self) in
          let hitPosition := (y self - Paddle.y paddle) / Paddle.height paddle in
          let self := set_vel self (dx self)
                        ((hitPosition - 0.5) * 2 * Qabs (dx self)) in
          let minSpeed := 2 in
          if Qabs (dx self) <? minSpeed
          then set_vel self (if dx self >? 0 then minSpeed else - minSpeed) (dy self)
          else self
        else
          let self := set_vel self (dx self) (- dy self) in
          if minOverlap === overlapTop
          then set_pos self (x self) (paddleTop - ballSize)
          else set_pos self (x self) (paddleBottom + ballSize) in
      let speedIncrease := 0.1 in
      let self := set_vel self (dx self * (1 + speedIncrease)) (dy self) in
      let self := set_vel self (dx self) (dy self * (1 + speedIncrease)) in
      (self, true)
    else (self, false).

  (** [updateSize()]. *)
Definition updateSize (self : t) : t :=
    {| gameParams := gameParams self;
       size := Js.orNum (Params.ballSize (gameParams self)) 10;
       color := match Params.ballColor (gameParams self) with
                | EmptyString => color self
                | c => c
                end;
       needsRemoval := needsRemoval self; lastScoreTime := lastScoreTime self;
       resetDelay := resetDelay self; shouldRespawn := shouldRespawn self;
       trail := trail self; maxTrailLength := maxTrailLength self;
       x := x self; y := y self; dx := dx self; dy := dy self |}.

Section Update.
Context {host : MathHost} {Ref G : Type}.

    (** The body shared by the two scoring branches of [update]. *)
Definition scored (canvas : Canvas.t)
        (updateScore : option (Side.t -> G -> G)) (side : Side.t)
        (timestamp : Q) (self : t) (g : G) (w : World) : t * G * World :=
      let g := match updateScore with
               | Some f => f side g
               | None => g
               end in
      if shouldRespawn self then
        let self := set_lastScoreTime self timestamp in
        let (self, w) := reset canvas self w in
        (self, g, w)
      else
        (set_needsRemoval self true, g, w).

    (** [update(timestamp, paddleLeft, paddleRight, shakeAmount, createMultiball)].
        The sound played on a paddle hit changes no state of the simulation
        and is left out. *)
Definition update (canvas : Canvas.t)
        (updateScore : option (Side.t -> G -> G))
        (timestamp : Q) (paddleLeft paddleRight : Paddle.t Ref)
        (shakeAmount : Q)
        (createMultiball : option (t -> G -> World -> G * World))
        (self : t) (g : G) (w : World) : t * Q * G * World :=
      if (lastScoreTime self >? 0) &&
         (timestamp - lastScoreTime self <? resetDelay self)
      then (self, shakeAmount, g, w)
      else
        let self := if lastScoreTime self >? 0
                    then set_lastScoreTime self 0 else self in
        let field := Utils.getFieldOffset canvas (gameParams self) in
        let ballSize := size self / 2 in
        let self :=
          if Params.trailEffect (gameParams self) then
            let tr := (trail self ++
                       [{| TrailPoint.x := x self; TrailPoint.y := y self;
                           TrailPoint.size := size self |}])%list in
            if (maxTrailLength self <? List.length tr)%nat
            then set_trail self (List.tl tr)
            else set_trail self tr
          else set_trail self [] in
        let self := set_vel self
                      (dx self + Js.orNum (Params.ballGravityX (gameParams self)) 0)
                      (dy self) in
        let self := set_vel self (dx self)
                      (dy self + Js.orNum (Params.ballGravityY (gameParams self)) 0) in
        let self := set_pos self (x self + dx self) (y self) in
        let self := set_pos self (x self) (y self + dy self) in
        let '(self, wallHit) := handleWallCollision field ballSize self in
        let shakeAmount := if wallHit then shakeAmount + 1 else shakeAmount in
        let paddleHit := false in
        let '(self, paddleHit) :=
          if dx self <? 0 then
            let '(self', hit) := handlePaddleCollision paddleLeft ballSize self in
            (self', if hit then true else paddleHit)
          else (self, paddleHit) in
        let '(self, paddleHit) :=
          if dx self >? 0 then
            let '(self', hit) := handlePaddleCollision paddleRight ballSize self in
            (self', if hit then true else paddleHit)
          else (self, paddleHit) in
        let '(shakeAmount, g, w) :=
          if paddleHit then
            let shakeAmount := shakeAmount + 3 in
            match createMultiball with
            | Some callback =>
                if Params.multiball (gameParams self) then
                  let (r, w) := random w in
                  if r <? 0.05 then
                    let (g, w) := callback self g w in (shakeAmount, g, w)
                  else (shakeAmount, g, w)
                else (shakeAmount, g, w)
            | None => (shakeAmount, g, w)
            end
          else (shakeAmount, g, w) in
        let '(self, g, w) :=
          if x self + ballSize <? Field.x field
          then scored canvas updateScore Side.right timestamp self g w
          else (self, g, w) in
        let '(self, g, w) :=
          if x self - ballSize >? Field.x field + Field.width field
          then scored canvas updateScore Side.left timestamp self g w
          else (self, g, w) in
        (self, shakeAmount, g, w).

End Update.

End Ball.
(** ** ball.js over the real numbers

    The velocity that [Ball.reset] computes, with the three random draws as
    arguments and the trigonometric functions of the real numbers. *)

Module BallReal.

Local Open Scope R_scope.

(** The speed [Math.sqrt(dx * dx + dy * dy)] of a velocity. *)
Definition magnitude (v : R * R) : R := sqrt (fst v * fst v + snd v * snd v).

(** The velocity part of [reset()]: the draws are [r1] for the angle, [r2]
    for the direction and [r3] for the speed. *)
Definition reset (ballSpeed r1 r2 r3 : R) : R * R :=
  let angle := (r1 * Rtrigo1.PI / 2.5) - Rtrigo1.PI / 5 in
  let direction := if Rlt_dec r2 0.5 then 1 else -1 in
  let minSpeed := Rmax 2 (ballSpeed * 0.8) in
  let speed := minSpeed + r3 * (ballSpeed - minSpeed) in
  let dx := Rtrigo_def.cos angle * speed * direction in
  let dy := Rtrigo_def.sin angle * speed in
  let dx := if Rlt_dec (Rabs dx) 1 then direction * 1 else dx in
  (dx, dy).

End BallReal.

(** ** game.js

    The game owns the canvas, the paddles, the balls and the chaos
    controller.  Two parameter objects exist: the one the game makes for
    itself ([ownParams]) and the [gameParams] of the chaos controller, which
    [this.params] and the paddles refer to after the first frame; [ParamsRef]
    names them and [Game.deref] reads them.  The timers of the host are the
    table [intervals]; drawing, sound and the text of the page are left out. *)

Inductive ParamsRef := OwnParams | ChaosParams.

Module Sequence.
(** The variables captured by the callback of [createMultiballSequence]. *)
Record t := mk { ballsToCreate : Z; ballsCreated : Z }.
End Sequence.

(** The events the host delivers to the game. *)
Inductive event :=
| Frame (timestamp : Q)
| IntervalFire (id : nat)
| KeyDown (key : string)
| KeyUp (key : string)
| TouchStart (touchX touchY innerWidth : Q)
| TouchMove (touchX touchY innerWidth : Q)
| TouchEnd
| Resize (innerWidth innerHeight : Q)
| ResetGame
| Start
| Spawn (sourceBall : Ball.t).

Module Game.

Record t := mk {
  canvas : Canvas.t;
  ownParams : Params.t;   (* the parameter object made by the constructor or by [reset] *)
  params : ParamsRef;   (* [this.params]: the object it refers to *)
  shakeAmount : Q;
  maxBalls : nat;
  gameActive : bool;
  leftScore : nat;
  rightScore : nat;
  leftPaddleAI : bool;
  rightPaddleAI : bool;
  leftManualControl : bool;
  invertControlsWarningActive : bool;
  lastMultiballTime : Q;
  lastRandomMultiballTime : Q;
  multiballActive : bool;
  multiballInterval : option nat;
  keys : Keys.t;
  paddleLeft : Paddle.t ParamsRef;
  paddleRight : Paddle.t ParamsRef;
  balls : list Ball.t;
  chaosController : Chaos.t;
  intervals : list (nat * Sequence.t);   (* the host's table of running intervals, with the variables their callbacks captured *)
  nextInterval : nat   (* the identifier the host gives to the next interval *)
}.

Definition set_canvas (g : t) (v : Canvas.t) : t :=
  {| canvas := v; ownParams := ownParams g; params := params g;
     shakeAmount := shakeAmount g; maxBalls := maxBalls g;
     gameActive := gameActive g; leftScore := leftScore g;
     rightScore := rightScore g; leftPaddleAI := leftPaddleAI g;
     rightPaddleAI := rightPaddleAI g;
     leftManualControl := leftManualControl g;
     invertControlsWarningActive := invertControlsWarningActive g;
     lastMultiballTime := lastMultiballTime g;
     lastRandomMultiballTime := lastRandomMultiballTime g;
     multiballActive := multiballActive g;
     multiballInterval := multiballInterval g; keys := keys g;
     paddleLeft := paddleLeft g; paddleRight := paddleRight g;
     balls := balls g; chaosController := chaosController g;
     intervals := intervals g; nextInterval := nextInterval g |}.

Definition set_ownParams (g : t) (v : Params.t) : t :=
  {| canvas := canvas g; ownParams := v; params := params g;
     shakeAmount := shakeAmount g; maxBalls := maxBalls g;
     gameActive := gameActive g; leftScore := leftScore g;
     rightScore := rightScore g; leftPaddleAI := leftPaddleAI g;
     rightPaddleAI := rightPaddleAI g;
     leftManualControl := leftManualControl g;
     invertControlsWarningActive := invertControlsWarningActive g;
     lastMultiballTime := lastMultiballTime g;
     lastRandomMultiballTime := lastRandomMultiballTime g;
     multiballActive := multiballActive g;
     multiballInterval := multiballInterval g; keys := keys g;
     paddleLeft := paddleLeft g; paddleRight := paddleRight g;
     balls := balls g; chaosController := chaosController g;
     intervals := intervals g; nextInterval := nextInterval g |}.

Definition set_params (g : t) (v : ParamsRef) : t :=
  {| canvas := canvas g; ownParams := ownParams g; params := v;
     shakeAmount := shakeAmount g; maxBalls := maxBalls g;
     gameActive := gameActive g; leftScore := leftScore g;
     rightScore := rightScore g; leftPaddleAI := leftPaddleAI g;
     rightPaddleAI := rightPaddleAI g;
     leftManualControl := leftManualControl g;
     invertControlsWarningActive := invertControlsWarningActive g;
     lastMultiballTime := lastMultiballTime g;
     lastRandomMultiballTime := lastRandomMultiballTime g;
     multiballActive := multiballActive g;
     multiballInterval := multiballInterval g; keys := keys g;
     paddleLeft := paddleLeft g; paddleRight := paddleRight g;
     balls := balls g; chaosController := chaosController g;
     intervals := intervals g; nextInterval := nextInterval g |}.

Definition set_shakeAmount (g : t) (v : Q) : t :=
  {| canvas := canvas g; ownParams := ownParams g; params := params g;
     shakeAmount := v; maxBalls := maxBalls g; gameActive := gameActive g;
     leftScore := leftScore g; rightScore := rightScore g;
     leftPaddleAI := leftPaddleAI g; rightPaddleAI := rightPaddleAI g;
     leftManualControl := leftManualControl g;
     invertControlsWarningActive := invertControlsWarningActive g;
     lastMultiballTime := lastMultiballTime g;
     lastRandomMultiballTime := lastRandomMultiballTime g;
     multiballActive := multiballActive g;
     multiballInterval := multiballInterval g; keys := keys g;
     paddleLeft := paddleLeft g; paddleRight := paddleRight g;
     balls := balls g; chaosController := chaosController g;
     intervals := intervals g; nextInterval := nextInterval g |}.

Definition set_gameActive (g : t) (v : bool) : t :=
  {| canvas := canvas g; ownParams := ownParams g; params := params g;
     shakeAmount := shakeAmount g; maxBalls := maxBalls g; gameActive := v;
     leftScore := leftScore g; rightScore := rightScore g;
     leftPaddleAI := leftPaddleAI g; rightPaddleAI := rightPaddleAI g;
     leftManualControl := leftManualControl g;
     invertControlsWarningActive := invertControlsWarningActive g;
     lastMultiballTime := lastMultiballTime g;
     lastRandomMultiballTime := lastRandomMultiballTime g;
     multiballActive := multiballActive g;
     multiballInterval := multiballInterval g; keys := keys g;
     paddleLeft := paddleLeft g; paddleRight := paddleRight g;
     balls := balls g; chaosController := chaosController g;
     intervals := intervals g; nextInterval := nextInterval g |}.

Definition set_leftScore (g : t) (v : nat) : t :=
  {| canvas := canvas g; ownParams := ownParams g; params := params g;
     shakeAmount := shakeAmount g; maxBalls := maxBalls g;
     gameActive := gameActive g; leftScore := v; rightScore := rightScore g;
     leftPaddleAI := leftPaddleAI g; rightPaddleAI := rightPaddleAI g;
     leftManualControl := leftManualControl g;
     invertControlsWarningActive := invertControlsWarningActive g;
     lastMultiballTime := lastMultiballTime g;
     lastRandomMultiballTime := lastRandomMultiballTime g;
     multiballActive := multiballActive g;
     multiballInterval := multiballInterval g; keys := keys g;
     paddleLeft := paddleLeft g; paddleRight := paddleRight g;
     balls := balls g; chaosController := chaosController g;
     intervals := intervals g; nextInterval := nextInterval g |}.

Definition set_rightScore (g : t) (v : nat) : t :=
  {| canvas := canvas g; ownParams := ownParams g; params := params g;
     shakeAmount := shakeAmount g; maxBalls := maxBalls g;
     gameActive := gameActive g; leftScore := leftScore g; rightScore := v;
     leftPaddleAI := leftPaddleAI g; rightPaddleAI := rightPaddleAI g;
     leftManualControl := leftManualControl g;
     invertControlsWarningActive := invertControlsWarningActive g;
     lastMultiballTime := lastMultiballTime g;
     lastRandomMultiballTime := lastRandomMultiballTime g;
     multiballActive := multiballActive g;
     multiballInterval := multiballInterval g; keys := keys g;
     paddleLeft := paddleLeft g; paddleRight := paddleRight g;
     balls := balls g; chaosController := chaosController g;
     intervals := intervals g; nextInterval := nextInterval g |}.

Definition set_leftPaddleAI (g : t) (v : bool) : t :=
  {| canvas := canvas g; ownParams := ownParams g; params := params g;
     shakeAmount := shakeAmount g; maxBalls := maxBalls g;
     gameActive := gameActive g; leftScore := leftScore g;
     rightScore := rightScore g; leftPaddleAI := v;
     rightPaddleAI := rightPaddleAI g;
     leftManualControl := leftManualControl g;
     invertControlsWarningActive := invertControlsWarningActive g;
     lastMultiballTime := lastMultiballTime g;
     lastRandomMultiballTime := lastRandomMultiballTime g;
     multiballActive := multiballActive g;
     multiballInterval := multiballInterval g; keys := keys g;
     paddleLeft := paddleLeft g; paddleRight := paddleRight g;
     balls := balls g; chaosController := chaosController g;
     intervals := intervals g; nextInterval := nextInterval g |}.

Definition set_rightPaddleAI (g : t) (v : bool) : t :=
  {| canvas := canvas g; ownParams := ownParams g; params := params g;
     shakeAmount := shakeAmount g; maxBalls := maxBalls g;
     gameActive := gameActive g; leftScore := leftScore g;
     rightScore := rightScore g; leftPaddleAI := leftPaddleAI g;
     rightPaddleAI := v; leftManualControl := leftManualControl g;
     invertControlsWarningActive := invertControlsWarningActive g;
     lastMultiballTime := lastMultiballTime g;
     lastRandomMultiballTime := lastRandomMultiballTime g;
     multiballActive := multiballActive g;
     multiballInterval := multiballInterval g; keys := keys g;
     paddleLeft := paddleLeft g; paddleRight := paddleRight g;
     balls := balls g; chaosController := chaosController g;
     intervals := intervals g; nextInterval := nextInterval g |}.

Definition set_leftManualControl (g : t) (v : bool) : t :=
  {| canvas := canvas g; ownParams := ownParams g; params := params g;
     shakeAmount := shakeAmount g; maxBalls := maxBalls g;
     gameActive := gameActive g; leftScore := leftScore g;
     rightScore := rightScore g; leftPaddleAI := leftPaddleAI g;
     rightPaddleAI := rightPaddleAI g; leftManualControl := v;
     invertControlsWarningActive := invertControlsWarningActive g;
     lastMultiballTime := lastMultiballTime g;
     lastRandomMultiballTime := lastRandomMultiballTime g;
     multiballActive := multiballActive g;
     multiballInterval := multiballInterval g; keys := keys g;
     paddleLeft := paddleLeft g; paddleRight := paddleRight g;
     balls := balls g; chaosController := chaosController g;
     intervals := intervals g; nextInterval := nextInterval g |}.

Definition set_invertControlsWarningActive (g : t) (v : bool) : t :=
  {| canvas := canvas g; ownParams := ownParams g; params := params g;
     shakeAmount := shakeAmount g; maxBalls := maxBalls g;
     gameActive := gameActive g; leftScore := leftScore g;
     rightScore := rightScore g; leftPaddleAI := leftPaddleAI g;
     rightPaddleAI := rightPaddleAI g;
     leftManualControl := leftManualControl g;
     invertControlsWarningActive := v;
     lastMultiballTime := lastMultiballTime g;
     lastRandomMultiballTime := lastRandomMultiballTime g;
     multiballActive := multiballActive g;
     multiballInterval := multiballInterval g; keys := keys g;
     paddleLeft := paddleLeft g; paddleRight := paddleRight g;
     balls := balls g; chaosController := chaosController g;
     intervals := intervals g; nextInterval := nextInterval g |}.

Definition set_lastMultiballTime (g : t) (v : Q) : t :=
  {| canvas := canvas g; ownParams := ownParams g; params := params g;
     shakeAmount := shakeAmount g; maxBalls := maxBalls g;
     gameActive := gameActive g; leftScore := leftScore g;
     rightScore := rightScore g; leftPaddleAI := leftPaddleAI g;
     rightPaddleAI := rightPaddleAI g;
     leftManualControl := leftManualControl g;
     invertControlsWarningActive := invertControlsWarningActive g;
     lastMultiballTime := v;
     lastRandomMultiballTime := lastRandomMultiballTime g;
     multiballActive := multiballActive g;
     multiballInterval := multiballInterval g; keys := keys g;
     paddleLeft := paddleLeft g; paddleRight := paddleRight g;
     balls := balls g; chaosController := chaosController g;
     intervals := intervals g; nextInterval := nextInterval g |}.

Definition set_multiballActive (g : t) (v : bool) : t :=
  {| canvas := canvas g; ownParams := ownParams g; params := params g;
     shakeAmount := shakeAmount g; maxBalls := maxBalls g;
     gameActive := gameActive g; leftScore := leftScore g;
     rightScore := rightScore g; leftPaddleAI := leftPaddleAI g;
     rightPaddleAI := rightPaddleAI g;
     leftManualControl := leftManualControl g;
     invertControlsWarningActive := invertControlsWarningActive g;
     lastMultiballTime := lastMultiballTime g;
     lastRandomMultiballTime := lastRandomMultiballTime g;
     multiballActive := v; multiballInterval := multiballInterval g;
     keys := keys g; paddleLeft := paddleLeft g;
     paddleRight := paddleRight g; balls := balls g;
     chaosController := chaosController g; intervals := intervals g;
     nextInterval := nextInterval g |}.

Definition set_multiballInterval (g : t) (v : option nat) : t :=
  {| canvas := canvas g; ownParams := ownParams g; params := params g;
     shakeAmount := shakeAmount g; maxBalls := maxBalls g;
     gameActive := gameActive g; leftScore := leftScore g;
     rightScore := rightScore g; leftPaddleAI := leftPaddleAI g;
     rightPaddleAI := rightPaddleAI g;
     leftManualControl := leftManualControl g;
     invertControlsWarningActive := invertControlsWarningActive g;
     lastMultiballTime := lastMultiballTime g;
     lastRandomMultiballTime := lastRandomMultiballTime g;
     multiballActive := multiballActive g; multiballInterval := v;
     keys := keys g; paddleLeft := paddleLeft g;
     paddleRight := paddleRight g; balls := balls g;
     chaosController := chaosController g; intervals := intervals g;
     nextInterval := nextInterval g |}.

Definition set_keys (g : t) (v : Keys.t) : t :=
  {| canvas := canvas g; ownParams := ownParams g; params := params g;
     shakeAmount := shakeAmount g; maxBalls := maxBalls g;
     gameActive := gameActive g; leftScore := leftScore g;
     rightScore := rightScore g; leftPaddleAI := leftPaddleAI g;
     rightPaddleAI := rightPaddleAI g;
     leftManualControl := leftManualControl g;
     invertControlsWarningActive := invertControlsWarningActive g;
     lastMultiballTime := lastMultiballTime g;
     lastRandomMultiballTime := lastRandomMultiballTime g;
     multiballActive := multiballActive g;
     multiballInterval := multiballInterval g; keys := v;
     paddleLeft := paddleLeft g; paddleRight := paddleRight g;
     balls := balls g; chaosController := chaosController g;
     intervals := intervals g; nextInterval := nextInterval g |}.

Definition set_paddleLeft (g : t) (v : Paddle.t ParamsRef) : t :=
  {| canvas := canvas g; ownParams := ownParams g; params := params g;
     shakeAmount := shakeAmount g; maxBalls := maxBalls g;
     gameActive := gameActive g; leftScore := leftScore g;
     rightScore := rightScore g; leftPaddleAI := leftPaddleAI g;
     rightPaddleAI := rightPaddleAI g;
     leftManualControl := leftManualControl g;
     invertControlsWarningActive := invertControlsWarningActive g;
     lastMultiballTime := lastMultiballTime g;
     lastRandomMultiballTime := lastRandomMultiballTime g;
     multiballActive := multiballActive g;
     multiballInterval := multiballInterval g; keys := keys g;
     paddleLeft := v; paddleRight := paddleRight g; balls := balls g;
     chaosController := chaosController g; intervals := intervals g;
     nextInterval := nextInterval g |}.

Definition set_paddleRight (g : t) (v : Paddle.t ParamsRef) : t :=
  {| canvas := canvas g; ownParams := ownParams g; params := params g;
     shakeAmount := shakeAmount g; maxBalls := maxBalls g;
     gameActive := gameActive g; leftScore := leftScore g;
     rightScore := rightScore g; leftPaddleAI := leftPaddleAI g;
     rightPaddleAI := rightPaddleAI g;
     leftManualControl := leftManualControl g;
     invertControlsWarningActive := invertControlsWarningActive g;
     lastMultiballTime := lastMultiballTime g;
     lastRandomMultiballTime := lastRandomMultiballTime g;
     multiballActive := multiballActive g;
     multiballInterval := multiballInterval g; keys := keys g;
     paddleLeft := paddleLeft g; paddleRight := v; balls := balls g;
     chaosController := chaosController g; intervals := intervals g;
     nextInterval := nextInterval g |}.

Definition set_balls (g : t) (v : list Ball.t) : t :=
  {| canvas := canvas g; ownParams := ownParams g; params := params g;
     shakeAmount := shakeAmount g; maxBalls := maxBalls g;
     gameActive := gameActive g; leftScore := leftScore g;
     rightScore := rightScore g; leftPaddleAI := leftPaddleAI g;
     rightPaddleAI := rightPaddleAI g;
     leftManualControl := leftManualControl g;
     invertControlsWarningActive := invertControlsWarningActive g;
     lastMultiballTime := lastMultiballTime g;
     lastRandomMultiballTime := lastRandomMultiballTime g;
     multiballActive := multiballActive g;
     multiballInterval := multiballInterval g; keys := keys g;
     paddleLeft := paddleLeft g; paddleRight := paddleRight g; balls := v;
     chaosController := chaosController g; intervals := intervals g;
     nextInterval := nextInterval g |}.

Definition set_chaosController (g : t) (v : Chaos.t) : t :=
  {| canvas := canvas g; ownParams := ownParams g; params := params g;
     shakeAmount := shakeAmount g; maxBalls := maxBalls g;
     gameActive := gameActive g; leftScore := leftScore g;
     rightScore := rightScore g; leftPaddleAI := leftPaddleAI g;
     rightPaddleAI := rightPaddleAI g;
     leftManualControl := leftManualControl g;
     invertControlsWarningActive := invertControlsWarningActive g;
     lastMultiballTime := lastMultiballTime g;
     lastRandomMultiballTime := lastRandomMultiballTime g;
     multiballActive := multiballActive g;
     multiballInterval := multiballInterval g; keys := keys g;
     paddleLeft := paddleLeft g; paddleRight := paddleRight g;
     balls := balls g; chaosController := v; intervals := intervals g;
     nextInterval := nextInterval g |}.

Definition set_intervals (g : t) (v : list (nat * Sequence.t)) : t :=
  {| canvas := canvas g; ownParams := ownParams g; params := params g;
     shakeAmount := shakeAmount g; maxBalls := maxBalls g;
     gameActive := gameActive g; leftScore := leftScore g;
     rightScore := rightScore g; leftPaddleAI := leftPaddleAI g;
     rightPaddleAI := rightPaddleAI g;
     leftManualControl := leftManualControl g;
     invertControlsWarningActive := invertControlsWarningActive g;
     lastMultiballTime := lastMultiballTime g;
     lastRandomMultiballTime := lastRandomMultiballTime g;
     multiballActive := multiballActive g;
     multiballInterval := multiballInterval g; keys := keys g;
     paddleLeft := paddleLeft g; paddleRight := paddleRight g;
     balls := balls g; chaosController := chaosController g; intervals := v;
     nextInterval := nextInterval g |}.

Definition set_nextInterval (g : t) (v : nat) : t :=
  {| canvas := canvas g; ownParams := ownParams g; params := params g;
     shakeAmount := shakeAmount g; maxBalls := maxBalls g;
     gameActive := gameActive g; leftScore := leftScore g;
     rightScore := rightScore g; leftPaddleAI := leftPaddleAI g;
     rightPaddleAI := rightPaddleAI g;
     leftManualControl := leftManualControl g;
     invertControlsWarningActive := invertControlsWarningActive g;
     lastMultiballTime := lastMultiballTime g;
     lastRandomMultiballTime := lastRandomMultiballTime g;
     multiballActive := multiballActive g;
     multiballInterval := multiballInterval g; keys := keys g;
     paddleLeft := paddleLeft g; paddleRight := paddleRight g;
     balls := balls g; chaosController := chaosController g;
     intervals := intervals g; nextInterval := v |}.

(** The content of a parameter object. *)
Definition deref (g : t) (r : ParamsRef) : Params.t :=
  match r with
  | OwnParams => ownParams g
  | ChaosParams => Chaos.gameParams (chaosController g)
  end.

(** [this.params], read. *)
Definition currentParams (g : t) : Params.t := deref g (params g).

(** [this.balls[i] = ball]. *)
Fixpoint replaceNth (i : nat) (ball : Ball.t) (l : list Ball.t) : list Ball.t :=
  match l, i with
  | [], _ => []
  | _ :: rest, O => ball :: rest
  | b :: rest, S i' => b :: replaceNth i' ball rest
  end.

(** [updateScore(side)]; the display of the score is left out. *)
Definition updateScore (side : Side.t) (g : t) : t :=
  match side with
  | Side.left => set_leftScore g (S (leftScore g))
  | Side.right => set_rightScore g (S (rightScore g))
  end.

(** [updateWarnings()], without the page. *)
Definition updateWarnings (g : t) : t :=
  set_invertControlsWarningActive g (Params.invertControls (currentParams g)).

(** [resizeCanvas()]; the window gives [innerWidth] and [innerHeight], and
    the canvas element keeps the integers that [Canvas.resize] describes. *)
Definition resizeCanvas (innerWidth innerHeight : Q) (g : t) : t :=
  let g := set_canvas g (Canvas.resize (innerWidth * 0.9) (innerHeight * 0.8)) in
  let field := Utils.getFieldOffset (canvas g) (currentParams g) in
  let g := set_paddleLeft g (Paddle.set_x (paddleLeft g) (Field.x field + 10)) in
  let g := set_paddleRight g
             (Paddle.set_x (paddleRight g)
                (Field.x field + Field.width field - 10
                 - Params.paddleWidth (currentParams g))) in
  let g := set_paddleLeft g
             (Paddle.set_y (paddleLeft g)
                (Field.y field
                 + (Field.height field - Paddle.height (paddleLeft g)) / 2)) in
  set_paddleRight g
    (Paddle.set_y (paddleRight g)
       (Field.y field
        + (Field.height field - Paddle.height (paddleRight g)) / 2)).

Definition isKey (key name : string) : bool := String.eqb key name.

(** [e.key.toLowerCase() === 'w'] and [e.key.toLowerCase() === 's']. *)
Definition isW (key : string) : bool := isKey key "w" || isKey key "W".
Definition isS (key : string) : bool := isKey key "s" || isKey key "S".

(** [handleKeyDown(e)]; the labels of the page are left out. *)
Definition handleKeyDown (key : string) (g : t) : t :=
  let invertControls := Params.invertControls (currentParams g) in
  let k := keys g in
  let k := {| Keys.w := if isW key then negb invertControls else Keys.w k;
              Keys.W := Keys.W k;
              Keys.s := if isS key then negb invertControls else Keys.s k;
              Keys.S := Keys.S k;
              Keys.ArrowUp := if isKey key "ArrowUp"
                              then negb invertControls else Keys.ArrowUp k;
              Keys.ArrowDown := if isKey key "ArrowDown"
                                then negb invertControls else Keys.ArrowDown k |} in
  let k :=
    if invertControls then
      {| Keys.w := if isS key then true else Keys.w k;
         Keys.W := Keys.W k;
         Keys.s := if isW key then true else Keys.s k;
         Keys.S := Keys.S k;
         Keys.ArrowUp := if isKey key "ArrowDown" then true else Keys.ArrowUp k;
         Keys.ArrowDown := if isKey key "ArrowUp" then true else Keys.ArrowDown k |}
    else k in
  let g := set_keys g k in
  let g := if isW key || isS key
           then set_leftPaddleAI (set_leftManualControl g true) false
           else g in
  if isKey key "ArrowUp" || isKey key "ArrowDown"
  then set_rightPaddleAI g false
  else g.

(** [handleKeyUp(e)]. *)
Definition handleKeyUp (key : string) (g : t) : t :=
  let invertControls := Params.invertControls (currentParams g) in
  let k := keys g in
  let k := {| Keys.w := if isW key then false else Keys.w k;
              Keys.W := Keys.W k;
              Keys.s := if isS key then false else Keys.s k;
              Keys.S := Keys.S k;
              Keys.ArrowUp := if isKey key "ArrowUp" then false else Keys.ArrowUp k;
              Keys.ArrowDown := if isKey key "ArrowDown"
                                then false else Keys.ArrowDown k |} in
  let k :=
    if invertControls then
      {| Keys.w := if isS key then false else Keys.w k;
         Keys.W := Keys.W k;
         Keys.s := if isW key then false else Keys.s k;
         Keys.S := Keys.S k;
         Keys.ArrowUp := if isKey key "ArrowDown" then false else Keys.ArrowUp k;
         Keys.ArrowDown := if isKey key "ArrowUp" then false else Keys.ArrowDown k |}
    else k in
  set_keys g k.

(** The keys a touch sets, in [handleTouchStart] and [handleTouchMove]. *)
Definition touchKeys (touchX touchY innerWidth : Q) (g : t) : Keys.t :=
  let invertControls := Params.invertControls (currentParams g) in
  let k := keys g in
  if touchX <? innerWidth / 2 then
    let paddleCenter := Paddle.y (paddleLeft g) + Paddle.height (paddleLeft g) / 2 in
    if touchY <? paddleCenter then
      {| Keys.w := negb invertControls; Keys.W := Keys.W k;
         Keys.s := invertControls; Keys.S := Keys.S k;
         Keys.ArrowUp := Keys.ArrowUp k; Keys.ArrowDown := Keys.ArrowDown k |}
    else
      {| Keys.w := invertControls; Keys.W := Keys.W k;
         Keys.s := negb invertControls; Keys.S := Keys.S k;
         Keys.ArrowUp := Keys.ArrowUp k; Keys.ArrowDown := Keys.ArrowDown k |}
  else
    let paddleCenter := Paddle.y (paddleRight g) + Paddle.height (paddleRight g) / 2 in
    if touchY <? paddleCenter then
      {| Keys.w := Keys.w k; Keys.W := Keys.W k;
         Keys.s := Keys.s k; Keys.S := Keys.S k;
         Keys.ArrowUp := negb invertControls; Keys.ArrowDown := invertControls |}
    else
      {| Keys.w := Keys.w k; Keys.W := Keys.W k;
         Keys.s := Keys.s k; Keys.S := Keys.S k;
         Keys.ArrowUp := invertControls; Keys.ArrowDown := negb invertControls |}.

(** [handleTouchStart(e)] for the first touch of the event. *)
Definition handleTouchStart (touchX touchY innerWidth : Q) (g : t) : t :=
  let g :=
    if touchX <? innerWidth / 2
    then set_leftManualControl (set_leftPaddleAI g false) true
    else set_rightPaddleAI g false in
  set_keys g (touchKeys touchX touchY innerWidth g).

(** [handleTouchMove(e)]. *)
Definition handleTouchMove (touchX touchY innerWidth : Q) (g : t) : t :=
  set_keys g (touchKeys touchX touchY innerWidth g).

(** [handleTouchEnd(e)]. *)
Definition handleTouchEnd (g : t) : t :=
  set_keys g {| Keys.w := false; Keys.W := Keys.W (keys g);
                Keys.s := false; Keys.S := Keys.S (keys g);
                Keys.ArrowUp := false; Keys.ArrowDown := false |}.

(** [findClosestBall(paddle)]: the position of the ball it returns.  The
    distance [Infinity] is [None]. *)
Definition closer (centre : Q) (best : Ball.t * option Q) (ball : Ball.t)
    : Ball.t * option Q :=
  let distance := Qabs (Ball.y ball - centre) in
  match snd best with
  | Some closestDistance =>
      if distance <? closestDistance then (ball, Some distance) else best
  | None => (ball, Some distance)
  end.

Definition findClosestBall (paddle : Paddle.t ParamsRef) (g : t) : Q * Q :=
  match balls g with
  | [] => (Canvas.width (canvas g) / 2, Canvas.height (canvas g) / 2)
  | first :: _ =>
      let centre := Paddle.y paddle + Paddle.height paddle / 2 in
      let best :=
        List.fold_left
          (fun best ball =>
             let isMovingTowardLeftPaddle :=
               (Ball.dx ball <? 0) && Paddle.isLeft paddle in
             let isMovingTowardRightPaddle :=
               (Ball.dx ball >? 0) && negb (Paddle.isLeft paddle) in
             if isMovingTowardLeftPaddle || isMovingTowardRightPaddle
             then closer centre best ball
             else best)
          (balls g) (first, None) in
      let best :=
        match snd best with
        | None => List.fold_left (closer centre) (balls g) best
        | Some _ => best
        end in
      (Ball.x (fst best), Ball.y (fst best))
  end.

Section WithHost.
Context {host : MathHost}.

(** [createMultiball(sourceBall)]. *)
Definition createMultiball (sourceBall : Ball.t) (g : t) (w : World) : t * World :=
  if (maxBalls g <=? List.length (balls g))%nat then (g, w)
  else if negb (Params.multiball (currentParams g)) then (g, w)
  else
    let (currentTime, w) := performanceNow w in
    if currentTime - lastMultiballTime g <? 500 then (g, w)
    else
      let (r1, w) := random w in
      let (r2, w) := random w in
      let (r3, w) := random w in
      let options :=
        {| Options.x := Some (Ball.x sourceBall);
           Options.y := Some (Ball.y sourceBall);
           Options.dx := Some (- Ball.dx sourceBall * (0.8 + r1 * 0.4));
           Options.dy := Some (Ball.dy sourceBall * (if r2 <? 0.5 then 1 else -1)
                               * (0.8 + r3 * 0.4)) |} in
      let (newBall, w) := Ball.constructor (canvas g) (currentParams g) options w in
      let g := set_balls g (balls g ++ [newBall]) in
      let g := set_lastMultiballTime g currentTime in
      (set_shakeAmount g 8, w).

(** [clearInterval(id)], for the identifier held by [this.multiballInterval]
    or [null]. *)
Definition clearInterval (id : option nat) (g : t) : t :=
  match id with
  | Some i => set_intervals g
                (List.filter (fun entry => negb (Nat.eqb (fst entry) i)) (intervals g))
  | None => g
  end.

(** [createMultiballSequence()]: the callback is entered in the table of
    the host, with the variables it captures. *)
Definition createMultiballSequence (g : t) : t :=
  let g := match multiballInterval g with
           | Some O => g
           | running => clearInterval running g
           end in
  let ballsToCreate := (Z.of_nat (maxBalls g) - Z.of_nat (List.length (balls g)))%Z in
  let ballsCreated := 0%Z in
  let id := nextInterval g in
  let g := set_intervals g
             (intervals g ++
              [(id, {| Sequence.ballsToCreate := ballsToCreate;
                       Sequence.ballsCreated := ballsCreated |})]) in
  let g := set_nextInterval g (S id) in
  set_multiballInterval g (Some id).

(** The callback of the interval of [createMultiballSequence], run for the
    interval [id] with the variables [captured]. *)
Definition multiballCallback (id : nat) (captured : Sequence.t) (g : t) (w : World)
    : t * World :=
  if (Sequence.ballsCreated captured >=? Sequence.ballsToCreate captured)%Z
     || negb (Params.multiball (currentParams g))
     || (maxBalls g <=? List.length (balls g))%nat
  then
    let g := clearInterval (multiballInterval g) g in
    (set_multiballInterval g None, w)
  else
    let field := Utils.getFieldOffset (canvas g) (currentParams g) in
    let (r, w) := random w in
    let angle := r * PI * 2 in
    let options :=
      {| Options.x := Some (Field.x field + Field.width field / 2);
         Options.y := Some (Field.y field + Field.height field / 2);
         Options.dx := Some (cos angle * Params.ballSpeed (currentParams g));
         Options.dy := Some (sin angle * Params.ballSpeed (currentParams g)) |} in
    let (newBall, w) := Ball.constructor (canvas g) (currentParams g) options w in
    let g := set_balls g (balls g ++ [newBall]) in
    let g := set_intervals g
               (List.map
                  (fun entry =>
                     if Nat.eqb (fst entry) id
                     then (id, {| Sequence.ballsToCreate := Sequence.ballsToCreate captured;
                                  Sequence.ballsCreated :=
                                    (Sequence.ballsCreated captured + 1)%Z |})
                     else entry)
                  (intervals g)) in
    (set_shakeAmount g 5, w).

(** The host fires the interval [id], if it still runs. *)
Definition intervalFire (id : nat) (g : t) (w : World) : t * World :=
  match List.find (fun entry => Nat.eqb (fst entry) id) (intervals g) with
  | Some (_, captured) => multiballCallback id captured g w
  | None => (g, w)
  end.

(** [this.params.paddleColor = c], on the object [this.params] refers to. *)
Definition setPaddleColor (c : string) (g : t) : t :=
  match params g with
  | OwnParams => set_ownParams g (Params.setColor Params.PaddleColor c (ownParams g))
  | ChaosParams =>
      let ch := chaosController g in
      set_chaosController g
        {| Chaos.defaultParams := Chaos.defaultParams ch;
           Chaos.targetParams := Chaos.targetParams ch;
           Chaos.chaosParams := Chaos.chaosParams ch;
           Chaos.colorParams := Chaos.colorParams ch;
           Chaos.gameParams :=
             Params.setColor Params.PaddleColor c (Chaos.gameParams ch);
           Chaos.startTime := Chaos.startTime ch;
           Chaos.chaosStartDelay := Chaos.chaosStartDelay ch;
           Chaos.invertControls := Chaos.invertControls ch;
           Chaos.invertControlsNextChange := Chaos.invertControlsNextChange ch |}
  end.

(** [createGameObjects()]. *)
Definition createGameObjects (g : t) (w : World) : t * World :=
  let field := Utils.getFieldOffset (canvas g) (currentParams g) in
  let g := match Params.paddleColor (currentParams g) with
           | EmptyString => setPaddleColor "#00ffff" g
           | _ => g
           end in
  let g := set_paddleLeft g
             (Paddle.constructor (deref g)
                (Field.x field + 10)
                (Field.y field
                 + (Field.height field - Params.paddleSize (currentParams g)) / 2)
                true (params g)) in
  let g := set_paddleRight g
             (Paddle.constructor (deref g)
                (Field.x field + Field.width field - 10
                 - Params.paddleWidth (currentParams g))
                (Field.y field
                 + (Field.height field - Params.paddleSize (currentParams g)) / 2)
                false (params g)) in
  let (mainBall, w) := Ball.constructor (canvas g) (currentParams g) Options.empty w in
  (set_balls g [mainBall], w).

(** The [for] loop of [gameLoop] over [this.balls]: the ball at [i] gets the
    current parameters and its size, is updated with the game as the state
    of its callbacks, and is written back at [i].  The callbacks may lengthen
    [this.balls] while the loop runs; [fuel] bounds the iterations, and
    [None] means that it ran out. *)
Fixpoint updateBalls (fuel : nat) (timestamp : Q) (i : nat) (g : t) (w : World)
    : option (t * World) :=
  match List.nth_error (balls g) i with
  | None => Some (g, w)
  | Some ball =>
      match fuel with
      | O => None
      | S fuel' =>
          let ball := Ball.set_gameParams ball (currentParams g) in
          let ball := Ball.updateSize ball in
          let g := set_balls g (replaceNth i ball (balls g)) in
          let '(ball, shakeAmount', g, w) :=
            Ball.update (canvas g) (Some updateScore) timestamp
              (paddleLeft g) (paddleRight g) (shakeAmount g)
              (Some createMultiball) ball g w in
          let g := set_balls g (replaceNth i ball (balls g)) in
          let g := set_shakeAmount g shakeAmount' in
          updateBalls fuel' timestamp (S i) g w
      end
  end.

(** The clamp of a paddle into the field, in [gameLoop]. *)
Definition clampPaddle (field : Field.t) (p : Paddle.t ParamsRef) : Paddle.t ParamsRef :=
  Paddle.set_y p
    (Qmax (Field.y field)
          (Qmin (Field.y field + Field.height field - Paddle.height p) (Paddle.y p))).

(** [gameLoop(timestamp)], without the drawing, in the order of the source:
    the screen shake, the chaos controller, the paddles, the balls, and the
    population of balls.

    The screen shake: its offsets are only drawn, but their random draws
    are consumed. *)
Definition shake (g : t) (w : World) : t * World :=
  let '(g, w) :=
    if Params.screenShake (currentParams g) && (shakeAmount g >? 0) then
      let (_, w) := random w in
      let (_, w) := random w in
      let g := set_shakeAmount g (shakeAmount g * 0.92) in
      let g := if shakeAmount g <? 0.1 then set_shakeAmount g 0 else g in
      (g, w)
    else (g, w) in
  if Params.screenShake (currentParams g) then
    let (_, w) := random w in
    let (_, w) := random w in
    (g, w)
  else (g, w).

(** The paddles take their dimensions from the parameters, their [x] from
    the field, and are clamped into the field. *)
Definition syncPaddles (field : Field.t) (g : t) : t :=
  let g := set_paddleLeft g (Paddle.updateDimensions (deref g) (paddleLeft g)) in
  let g := set_paddleRight g (Paddle.updateDimensions (deref g) (paddleRight g)) in
  let g := set_paddleLeft g (Paddle.set_x (paddleLeft g) (Field.x field + 10)) in
  let g := set_paddleRight g
             (Paddle.set_x (paddleRight g)
                (Field.x field + Field.width field - 10
                 - Paddle.width (paddleRight g))) in
  let g := set_paddleLeft g (clampPaddle field (paddleLeft g)) in
  set_paddleRight g (clampPaddle field (paddleRight g)).

(** Each paddle is moved by the keys or by the AI. *)
Definition movePaddles (g : t) : t :=
  let g :=
    if negb (leftPaddleAI g) then
      set_paddleLeft g
        (Paddle.update (deref g) (keys g) (canvas g) (Some (params g)) (paddleLeft g))
    else
      let targetBall := findClosestBall (paddleLeft g) g in
      set_paddleLeft g
        (Paddle.updateAI (deref g) (snd targetBall) (canvas g) (Some (params g))
           (paddleLeft g)) in
  if negb (rightPaddleAI g) then
    set_paddleRight g
      (Paddle.update (deref g) (keys g) (canvas g) (Some (params g)) (paddleRight g))
  else
    let targetBall := findClosestBall (paddleRight g) g in
    set_paddleRight g
      (Paddle.updateAI (deref g) (snd targetBall) (canvas g) (Some (params g))
         (paddleRight g)).

(** The balls to remove are dropped, a ball is made when none is left, and
    the multiball mode is started or ended. *)
Definition population (g : t) (w : World) : t * World :=
  let g := set_balls g
             (List.filter (fun ball => negb (Ball.needsRemoval ball)) (balls g)) in
  let '(g, w) :=
    match balls g with
    | [] =>
        let (newBall, w) :=
          Ball.constructor (canvas g) (currentParams g) Options.empty w in
        (set_balls g (balls g ++ [newBall]), w)
    | _ => (g, w)
    end in
  let g :=
    if Params.multiball (currentParams g) && negb (multiballActive g)
       && (List.length (balls g) <? maxBalls g)%nat
    then createMultiballSequence (set_multiballActive g true)
    else if negb (Params.multiball (currentParams g)) then
      let g := set_multiballActive g false in
      set_balls g
        (match balls g with
         | [] => []
         | first :: rest =>
             first :: List.map (fun ball => Ball.set_shouldRespawn ball false) rest
         end)
    else g in
  (g, w).

Definition gameLoop (timestamp : Q) (g : t) (w : World) : option (t * World) :=
  let field := Utils.getFieldOffset (canvas g) (currentParams g) in
  let (g, w) := shake g w in
  if gameActive g then
    let (chaos, w) := Chaos.update timestamp (gameActive g) (chaosController g) w in
    let g := set_params (set_chaosController g chaos) ChaosParams in
    let g := updateWarnings g in
    let g := syncPaddles field g in
    let g := movePaddles g in
    match updateBalls (List.length (balls g) + maxBalls g) timestamp 0 g w with
    | None => None
    | Some (g, w) => Some (population g w)
    end
  else Some (g, w).

(** [reset()]. *)
Definition reset (g : t) (w : World) : t * World :=
  let g := set_gameActive g true in
  let g := set_leftScore g 0 in
  let g := set_rightScore g 0 in
  let g := set_leftPaddleAI g true in
  let g := set_rightPaddleAI g true in
  let g := set_leftManualControl g false in
  let g := set_chaosController g (Chaos.reset (chaosController g)) in
  let g := set_params (set_ownParams g Params.defaultParams) OwnParams in
  let g := set_shakeAmount g 0 in
  let g := set_balls g [] in
  let (g, w) := createGameObjects g w in
  (updateWarnings g, w).

(** [new Game()] followed by [init()]: the state in which the first frame
    finds the game.  [init()] calls [resizeCanvas()] while the paddles are
    still [null], which sizes the canvas and nothing else. *)
Definition init (innerWidth innerHeight : Q) (w : World) : t * World :=
  let nowhere :=
    {| Paddle.x := 0; Paddle.y := 0; Paddle.width := 0; Paddle.height := 0;
       Paddle.isLeft := true; Paddle.gameParams := OwnParams;
       Paddle.color := EmptyString |} in
  let g :=
    {| canvas := Canvas.resize (innerWidth * 0.9) (innerHeight * 0.8);
       ownParams := Params.defaultParams;
       params := OwnParams;
       shakeAmount := 0;
       maxBalls := 5;
       gameActive := true;
       leftScore := 0;
       rightScore := 0;
       leftPaddleAI := true;
       rightPaddleAI := true;
       leftManualControl := false;
       invertControlsWarningActive := false;
       lastMultiballTime := 0;
       lastRandomMultiballTime := 0;
       multiballActive := false;
       multiballInterval := None;
       keys := {| Keys.w := false; Keys.W := false; Keys.s := false;
                  Keys.S := false; Keys.ArrowUp := false; Keys.ArrowDown := false |};
       paddleLeft := nowhere;
       paddleRight := nowhere;
       balls := [];
       chaosController := Chaos.constructor Params.defaultParams;
       intervals := [];
       nextInterval := 1 |} in
  let (g, w) := createGameObjects g w in
  (set_rightScore (set_leftScore g 0) 0, w).

(** [start()]. *)
Definition start (g : t) : t := set_gameActive g true.

(** One event. *)
Definition step (e : event) (g : t) (w : World) : option (t * World) :=
  match e with
  | Frame timestamp => gameLoop timestamp g w
  | IntervalFire id => Some (intervalFire id g w)
  | KeyDown key => Some (handleKeyDown key g, w)
  | KeyUp key => Some (handleKeyUp key g, w)
  | TouchStart touchX touchY innerWidth =>
      Some (handleTouchStart touchX touchY innerWidth g, w)
  | TouchMove touchX touchY innerWidth =>
      Some (handleTouchMove touchX touchY innerWidth g, w)
  | TouchEnd => Some (handleTouchEnd g, w)
  | Resize innerWidth innerHeight => Some (resizeCanvas innerWidth innerHeight g, w)
  | ResetGame => Some (reset g w)
  | Start => Some (start g, w)
  | Spawn sourceBall => Some (createMultiball sourceBall g w)
  end.

End WithHost.

End Game.

(** ** Vocabulary of the properties *)

(** A chaos entry is within its bounds. *)
Definition inBounds (p : ChaosParam.t) : Prop :=
  ChaosParam.min p <= ChaosParam.current p /\
  ChaosParam.current p <= ChaosParam.max p.

(** A chaos entry as the controller keeps it up to time [t]: the bounds are
    ordered, the value is within them and, once a change has happened, the
    target is within them too and the transition started no later than [t]. *)
Definition entryOk (t : Q) (p : ChaosParam.t) : Prop :=
  ChaosParam.min p <= ChaosParam.max p /\
  inBounds p /\
  match ChaosParam.transitionStart p with
  | Some s =>
      s <= t /\
      ChaosParam.min p <= ChaosParam.target p /\
      ChaosParam.target p <= ChaosParam.max p
  | None => True
  end.

(** A sequence of calls [update(timestamp, active)]. *)
Fixpoint updates (calls : list (Q * bool)) (c : Chaos.t) (w : World) : Chaos.t * World :=
  match calls with
  | [] => (c, w)
  | (timestamp, active) :: rest =>
      let (c, w) := Chaos.update timestamp active c w in
      updates rest c w
  end.

(** The timestamps of a sequence of calls never decrease, from [t] on. *)
Fixpoint monotone (t : Q) (calls : list (Q * bool)) : Prop :=
  match calls with
  | [] => True
  | (timestamp, _) :: rest => t <= timestamp /\ monotone timestamp rest
  end.

(** The face of the paddle that [handlePaddleCollision] resolves against:
    [true] for the left or right side, [false] for the top or bottom. *)
Definition horizontalFace {Ref : Type} (paddle : Paddle.t Ref) (ballSize : Q)
    (b : Ball.t) : bool :=
  let overlapLeft := Ball.x b + ballSize - Paddle.x paddle in
  let overlapRight := Paddle.x paddle + Paddle.width paddle - (Ball.x b - ballSize) in
  let overlapTop := Ball.y b + ballSize - Paddle.y paddle in
  let overlapBottom := Paddle.y paddle + Paddle.height paddle - (Ball.y b - ballSize) in
  let minOverlap := Js.min4 overlapLeft overlapRight overlapTop overlapBottom in
  (minOverlap === overlapLeft) || (minOverlap === overlapRight).

(** The side that a resolution on a side of the paddle chooses: [true] for
    the left side ([minOverlap === overlapLeft]), [false] for the right. *)
Definition leftFace {Ref : Type} (paddle : Paddle.t Ref) (ballSize : Q)
    (b : Ball.t) : bool :=
  let overlapLeft := Ball.x b + ballSize - Paddle.x paddle in
  let overlapRight := Paddle.x paddle + Paddle.width paddle - (Ball.x b - ballSize) in
  let overlapTop := Ball.y b + ballSize - Paddle.y paddle in
  let overlapBottom := Paddle.y paddle + Paddle.height paddle - (Ball.y b - ballSize) in
  let minOverlap := Js.min4 overlapLeft overlapRight overlapTop overlapBottom in
  minOverlap === overlapLeft.

(** The ball, of radius [r], lies beside the paddle and moves away from it,
    or lies beside the paddle and moves towards it. *)
Definition movesAway {Ref : Type} (paddle : Paddle.t Ref) (r : Q) (b : Ball.t) : Prop :=
  (Ball.x b + r <= Paddle.x paddle /\ Ball.dx b < 0) \/
  (Paddle.x paddle + Paddle.width paddle <= Ball.x b - r /\ 0 < Ball.dx b).

Definition movesInto {Ref : Type} (paddle : Paddle.t Ref) (r : Q) (b : Ball.t) : Prop :=
  (Ball.x b + r <= Paddle.x paddle /\ 0 < Ball.dx b) \/
  (Paddle.x paddle + Paddle.width paddle <= Ball.x b - r /\ Ball.dx b < 0).

(** Consecutive paddle hits: the ball keeps its velocity between two hits
    (no gravity, no wall), its position is whatever the motion made it.  The
    list records the face of each hit. *)
Inductive bounces (Ref : Type) : list bool -> Ball.t -> Ball.t -> Prop :=
| bounces_nil (b : Ball.t) : bounces Ref [] b b
| bounces_cons (paddle : Paddle.t Ref) (r x y : Q) (b b' : Ball.t)
    (faces : list bool) :
    snd (Ball.handlePaddleCollision paddle r (Ball.set_pos b x y)) = true ->
    bounces Ref faces
      (fst (Ball.handlePaddleCollision paddle r (Ball.set_pos b x y))) b' ->
    bounces Ref (horizontalFace paddle r (Ball.set_pos b x y) :: faces) b b'.
Arguments bounces_nil {Ref}.
Arguments bounces_cons {Ref}.

(** Sample data: a ball of the default size with a given position and
    velocity, a paddle of the default size at a given position, and a host
    whose trigonometric functions are Taylor polynomials. *)
Definition ballAt (x y dx dy : Q) : Ball.t :=
  {| Ball.gameParams := Params.defaultParams; Ball.size := 10;
     Ball.color := "#ff00ff"; Ball.needsRemoval := false;
     Ball.lastScoreTime := 0; Ball.resetDelay := 500;
     Ball.shouldRespawn := true; Ball.trail := [];
     Ball.maxTrailLength := 10;
     Ball.x := x; Ball.y := y; Ball.dx := dx; Ball.dy := dy |}.

Definition paddleAt (x y : Q) (isLeft : bool) : Paddle.t unit :=
  {| Paddle.x := x; Paddle.y := y; Paddle.width := 15; Paddle.height := 100;
     Paddle.isLeft := isLeft; Paddle.gameParams := tt;
     Paddle.color := "#00ffff" |}.

Definition taylorHost : MathHost :=
  {| PI := 3.14159265;
     cos := fun a => 1 - a * a / 2 + a * a * a * a / 24;
     sin := fun a => a - a * a * a / 6 |}.

Definition steadyWorld (r : Q) : World :=
  {| rand := fun _ => r; randPos := 0; clock := fun _ => 0; clockPos := 0 |}.

(** The hexadecimal digits, and the strings that [hexToRgb] is meant for: six
    hexadecimal digits, with or without a leading [#]. *)
Definition hexCharacters : list ascii :=
  list_ascii_of_string "0123456789abcdefABCDEF".

Definition sixHexDigits (s : string) : Prop :=
  String.length s = 6%nat /\
  Forall (fun c => In c hexCharacters) (list_ascii_of_string s).

Definition colourString (s : string) : Prop :=
  sixHexDigits s \/ exists body, s = String "#" body /\ sixHexDigits body.

(** The string [#rrggbb] of three channels. *)
Definition twoDigits (v : Z) : string :=
  String (Utils.hexChar (v / 16)) (String (Utils.hexChar (v mod 16)) EmptyString).

Definition rrggbb (r g b : Z) : string :=
  String "#" (twoDigits r ++ twoDigits g ++ twoDigits b).

Definition channel (v : Z) : Prop := (0 <= v <= 255)%Z.

Definition white : Rgb.t := {| Rgb.r := 255; Rgb.g := 255; Rgb.b := 255 |}.

(** The states of the game that the host can bring about: the state after
    [init], and the state after any event, with any random draws and clock
    readings. *)
Inductive reachable {host : MathHost} : Game.t -> Prop :=
| reachable_init (innerWidth innerHeight : Q) (w : World) :
    reachable (fst (Game.init innerWidth innerHeight w))
| reachable_step (e : event) (g g' : Game.t) (w w' : World) :
    reachable g -> Game.step e g w = Some (g', w') -> reachable g'.

(** The state has [m] as its maximum and at most [n] balls. *)
Definition atMost (m n : nat) (g : Game.t) : Prop :=
  Game.maxBalls g = m /\ (List.length (Game.balls g) <= n)%nat.

(** ** More vocabulary *)

(** A hexadecimal digit in lower case, and a colour string in the form
    [hexToRgb] and [rgbToHex] agree on: a [#] and six lower-case digits. *)
Definition lowerHex (c : ascii) : ascii :=
  let n := nat_of_ascii c in
  if ((65 <=? n) && (n <=? 70))%nat then ascii_of_nat (n + 32) else c.

Fixpoint lowerString (s : string) : string :=
  match s with
  | EmptyString => EmptyString
  | String c rest => String (lowerHex c) (lowerString rest)
  end.

Definition normalise (s : string) : string :=
  match s with
  | String "#" rest => String "#" (lowerString rest)
  | _ => String "#" (lowerString s)
  end.

(** One step of a colour channel from [c] towards [t] that ends at [n]: the
    channel stays when the target is less than 50 above it, rises without
    passing the target when the target is 50 or more above it, and falls by
    at least one without passing the target when the target is below it. *)
Definition channelStep (c t n : Z) : Prop :=
  ((c <= t < c + 50)%Z -> n = c) /\
  ((c + 50 <= t)%Z -> (c < n <= t)%Z) /\
  ((t < c)%Z -> (t <= n < c)%Z).

(** The fixed part of a chaos entry, and the parameter snapshot mirroring
    an entry: a numeric parameter is the entry's [current], the boolean one
    is [current > 0.5]. *)
Definition shape (p : ChaosParam.t) : Params.name * Q * Q * bool :=
  (ChaosParam.name p, ChaosParam.min p, ChaosParam.max p, ChaosParam.isBoolean p).

Definition mirrors (gp : Params.t) (p : ChaosParam.t) : Prop :=
  match ChaosParam.name p with
  | Params.Multiball =>
      ChaosParam.isBoolean p = true /\
      Params.multiball gp = (ChaosParam.current p >? 0.5)
  | n =>
      ChaosParam.isBoolean p = false /\
      Params.get n gp = ChaosParam.current p
  end.

(** The numeric parameters of a snapshot lie within the bounds of the chaos
    controller. *)
Definition snapshotBounded (gp : Params.t) : Prop :=
  (2 <= Params.ballSpeed gp /\ Params.ballSpeed gp <= 7) /\
  (5 <= Params.ballSize gp /\ Params.ballSize gp <= 15) /\
  (60 <= Params.paddleSize gp /\ Params.paddleSize gp <= 130) /\
  (10 <= Params.paddleWidth gp /\ Params.paddleWidth gp <= 25) /\
  (5 <= Params.paddleSpeed gp /\ Params.paddleSpeed gp <= 12) /\
  (-0.02 <= Params.ballGravityX gp /\ Params.ballGravityX gp <= 0.02) /\
  (-0.1 <= Params.ballGravityY gp /\ Params.ballGravityY gp <= 0.1) /\
  (0.7 <= Params.fieldWidth gp /\ Params.fieldWidth gp <= 0.95) /\
  (0.7 <= Params.fieldHeight gp /\ Params.fieldHeight gp <= 0.95).

(** A colour in the form [rgbToHex] writes: [#rrggbb] with channels between
    0 and 255. *)
Definition wellFormed (s : string) : Prop :=
  exists r g b : Z, channel r /\ channel g /\ channel b /\ s = rrggbb r g b.

Definition colourNames : list Params.colorName :=
  [Params.BallColor; Params.PaddleColor; Params.BackgroundColor;
   Params.FieldBorderColor].

(** Two states of a ball that differ in position and velocity at most. *)
Definition sameExceptMotion (b b' : Ball.t) : Prop :=
  Ball.gameParams b' = Ball.gameParams b /\
  Ball.size b' = Ball.size b /\
  Ball.color b' = Ball.color b /\
  Ball.needsRemoval b' = Ball.needsRemoval b /\
  Ball.lastScoreTime b' = Ball.lastScoreTime b /\
  Ball.resetDelay b' = Ball.resetDelay b /\
  Ball.shouldRespawn b' = Ball.shouldRespawn b /\
  Ball.trail b' = Ball.trail b /\
  Ball.maxTrailLength b' = Ball.maxTrailLength b.

(** The ball, of radius [r], lies between the top and the bottom of the
    field. *)
Definition insideWalls (field : Field.t) (r : Q) (b : Ball.t) : Prop :=
  Field.y field <= Ball.y b - r /\
  Ball.y b + r <= Field.y field + Field.height field.

(** The box of the ball, of radius [r], meets or touches the paddle. *)
Definition overlaps {Ref : Type} (paddle : Paddle.t Ref) (r : Q) (b : Ball.t) : Prop :=
  Paddle.x paddle <= Ball.x b + r /\
  Ball.x b - r <= Paddle.x paddle + Paddle.width paddle /\
  Paddle.y paddle <= Ball.y b + r /\
  Ball.y b - r <= Paddle.y paddle + Paddle.height paddle.

(** [update] at [timestamp] finds the ball waiting after a score. *)
Definition waiting (timestamp : Q) (b : Ball.t) : Prop :=
  0 < Ball.lastScoreTime b /\
  timestamp - Ball.lastScoreTime b < Ball.resetDelay b.

(** The trail after a call of [update] that moves the ball: the position
    before the move is appended and the oldest point dropped when the trail
    is longer than [maxTrailLength]; without the trail effect the trail is
    empty. *)
Definition afterTrail (b : Ball.t) : list TrailPoint.t :=
  if Params.trailEffect (Ball.gameParams b) then
    let tr := (Ball.trail b ++
               [{| TrailPoint.x := Ball.x b; TrailPoint.y := Ball.y b;
                   TrailPoint.size := Ball.size b |}])%list in
    if (Ball.maxTrailLength b <? List.length tr)%nat then List.tl tr else tr
  else [].

(** The settings of a ball that no call of [update] changes. *)
Definition sameSettings (b b' : Ball.t) : Prop :=
  Ball.gameParams b' = Ball.gameParams b /\ Ball.size b' = Ball.size b /\
  Ball.color b' = Ball.color b /\ Ball.resetDelay b' = Ball.resetDelay b /\
  Ball.shouldRespawn b' = Ball.shouldRespawn b /\
  Ball.maxTrailLength b' = Ball.maxTrailLength b.

(** The state [s] of the ball [b] in a call of [update], after the move and
    before the ball leaves the field. *)
Definition carried (b s : Ball.t) : Prop :=
  sameSettings b s /\
  Ball.trail s = afterTrail b /\
  Ball.needsRemoval s = Ball.needsRemoval b /\
  Ball.lastScoreTime s
  = (if Ball.lastScoreTime b >? 0 then 0 else Ball.lastScoreTime b).

(** The paddle lies within the field of the current parameters of the
    game, from top to bottom. *)
Definition notAbove (g : Game.t) (p : Paddle.t ParamsRef) : Prop :=
  Field.y (Utils.getFieldOffset (Game.canvas g) (Game.currentParams g))
  <= Paddle.y p.

Definition notBelow (g : Game.t) (p : Paddle.t ParamsRef) : Prop :=
  let field := Utils.getFieldOffset (Game.canvas g) (Game.currentParams g) in
  Paddle.y p + Paddle.height p <= Field.y field + Field.height field.

(** The running intervals of the host are the one the game holds in
    [multiballInterval], and identifiers are not used twice. *)
Definition oneSequence (g : Game.t) : Prop :=
  (forall entry, In entry (Game.intervals g) ->
                 Game.multiballInterval g = Some (fst entry) /\
                 (0 < fst entry < Game.nextInterval g)%nat) /\
  NoDup (List.map fst (Game.intervals g)) /\
  (0 < Game.nextInterval g)%nat.

(** The first ball of the game is there, respawns and is not marked for
    removal. *)
Definition mainBall (g : Game.t) : Prop :=
  exists first rest,
    Game.balls g = first :: rest /\
    Ball.shouldRespawn first = true /\ Ball.needsRemoval first = false.

(** A ball moves towards the paddle. *)
Definition approaches (paddle : Paddle.t ParamsRef) (ball : Ball.t) : Prop :=
  (Ball.dx ball < 0 /\ Paddle.isLeft paddle = true) \/
  (0 < Ball.dx ball /\ Paddle.isLeft paddle = false).

(** The vertical distance between a ball and the centre of a paddle. *)
Definition distance (paddle : Paddle.t ParamsRef) (ball : Ball.t) : Q :=
  Qabs (Ball.y ball - (Paddle.y paddle + Paddle.height paddle / 2)).

(** No key is held. *)
Definition released : Keys.t :=
  {| Keys.w := false; Keys.W := false; Keys.s := false; Keys.S := false;
     Keys.ArrowUp := false; Keys.ArrowDown := false |}.

(** The place a paddle is moved to by the keys of the game, before the
    clamp: [Paddle.update] with the keys, the canvas and the parameters of
    the game ends at the clamp of [moved]. *)
Definition movesTo (g : Game.t) (p : Paddle.t ParamsRef) (moved : Q) : Prop :=
  let field := Utils.getFieldOffset (Game.canvas g) (Game.currentParams g) in
  exists v,
    v == moved /\
    Paddle.y (Paddle.update (Game.deref g) (Game.keys g) (Game.canvas g)
                (Some (Game.params g)) p)
    = Qmax (Field.y field)
           (Qmin (Field.y field + Field.height field - Paddle.height p) v).

(** The state of the search of [findClosestBall] after the balls of
    [seen]: the best ball among those that [sel] selects, with its distance
    ([None] is [Infinity]: no ball was selected). *)
Definition searched (paddle : Paddle.t ParamsRef) (sel : Ball.t -> bool)
    (seen : list Ball.t) (best : Ball.t * option Q) : Prop :=
  match snd best with
  | None => forall a, In a seen -> sel a = false
  | Some d =>
      In (fst best) seen /\ sel (fst best) = true /\
      d = distance paddle (fst best) /\
      forall a, In a seen -> sel a = true -> d <= distance paddle a
  end.

(** * Properties *)

(** ** Sample runs *)

Example hexToRgb_cyan :
  Utils.hexToRgb "#00ffff" = {| Rgb.r := 0; Rgb.g := 255; Rgb.b := 255 |}.
Proof. reflexivity. Qed.

Example rgbToHex_sample : Utils.rgbToHex 10.7 255 0 = "#0aff00"%string.
Proof. vm_compute. reflexivity. Qed.

Example transitionColor_sample :
  Utils.transitionColor "#000000" "#FFFFFF" 0.02 = "#050505"%string.
Proof. vm_compute. reflexivity. Qed.

Example transitionColor_fallback :
  Utils.transitionColor "not a colour" "#FF8000" 0.02 = "#fffcf9"%string.
Proof. vm_compute. reflexivity. Qed.



(** ** Comparisons *)

Lemma lt_reflect (a b : Q) : reflect (a < b) (a <? b).
Proof.
  unfold Js.ltb. destruct (Qle_bool b a) eqn:E; simpl; constructor.
  - apply Qle_bool_iff in E. lra.
  - destruct (Qlt_le_dec a b) as [H | H]; [exact H | ].
    apply Qle_bool_iff in H. congruence.
Qed.

Lemma le_reflect (a b : Q) : reflect (a <= b) (a <=? b).
Proof.
  unfold Js.leb. destruct (Qle_bool a b) eqn:E; constructor.
  - now apply Qle_bool_iff.
  - intro H. apply Qle_bool_iff in H. congruence.
Qed.

Lemma gt_reflect (a b : Q) : reflect (b < a) (a >? b).
Proof. apply lt_reflect. Qed.

Lemma ge_reflect (a b : Q) : reflect (b <= a) (a >=? b).
Proof. apply le_reflect. Qed.

Lemma eq_reflect (a b : Q) : reflect (a == b) (a === b).
Proof.
  unfold Js.eqb. destruct (Qeq_bool a b) eqn:E; constructor.
  - now apply Qeq_bool_iff.
  - now apply Qeq_bool_neq.
Qed.

(** Case analysis on every comparison of the goal. *)
Ltac js_cases :=
  repeat match goal with
  | |- context [?a <? ?b] => destruct (lt_reflect a b)
  | |- context [?a <=? ?b] => destruct (le_reflect a b)
  | |- context [?a >? ?b] => destruct (gt_reflect a b)
  | |- context [?a >=? ?b] => destruct (ge_reflect a b)
  | |- context [?a === ?b] => destruct (eq_reflect a b)
  end.

(** Inverses of numerals are numerals. *)
Ltac qconst :=
  unfold Qdiv in *;
  repeat match goal with
  | |- context [Qinv (Qmake ?n ?d)] =>
      let v := eval cbv in (Qinv (Qmake n d)) in
      change (Qinv (Qmake n d)) with v
  | H : context [Qinv (Qmake ?n ?d)] |- _ =>
      let v := eval cbv in (Qinv (Qmake n d)) in
      change (Qinv (Qmake n d)) with v in H
  end.

Lemma Qabs_nonneg' (a : Q) : 0 <= Qabs a.
Proof. apply Qabs_nonneg. Qed.

(** ** Ball: wall collisions *)

(** C3, as amended: in a field at least as high as the ball, a reported wall
    collision leaves the centre within the corrected boundaries, and the
    vertical velocity is [|dy|] (downward) after a hit of the top wall and
    [-|dy|] (upward) after a hit of the bottom wall. *)
Theorem handleWallCollision_compliant (field : Field.t) (r : Q) (b : Ball.t) :
  2 * r <= Field.height field ->
  snd (Ball.handleWallCollision field r b) = true ->
  let b' := fst (Ball.handleWallCollision field r b) in
  (Field.y field + r <= Ball.y b' /\
   Ball.y b' <= Field.y field + Field.height field - r) /\
  ((Ball.y b - r < Field.y field /\
    Ball.y b' == Field.y field + r /\
    Ball.dy b' == Qabs (Ball.dy b) /\ 0 <= Ball.dy b') \/
   (Field.y field + Field.height field < Ball.y b + r /\
    Ball.y b' == Field.y field + Field.height field - r /\
    Ball.dy b' == - Qabs (Ball.dy b) /\ Ball.dy b' <= 0)).
Proof.
  intros Hfit. unfold Ball.handleWallCollision.
  pose proof (Qabs_nonneg (Ball.dy b)) as Habs.
  destruct (lt_reflect (Ball.y b - r) (Field.y field)) as [Htop | Htop]; cbn;
    js_cases; cbn; intros Hc; try discriminate; lra.
Qed.

Lemma handleWallCollision_compliant_witness :
  let field := {| Field.x := 40; Field.y := 24; Field.width := 720; Field.height := 432 |} in
  let b := ballAt 400 27 3 (-2) in
  2 * 5 <= Field.height field /\
  snd (Ball.handleWallCollision field 5 b) = true /\
  Ball.y (fst (Ball.handleWallCollision field 5 b)) == 29 /\
  Ball.dy (fst (Ball.handleWallCollision field 5 b)) == 2.
Proof.
  intros field b.
  assert (Hfit : 2 * 5 <= Field.height field) by (cbn; lra).
  assert (Hhit : snd (Ball.handleWallCollision field 5 b) = true) by reflexivity.
  split; [exact Hfit | split; [exact Hhit | ]].
  destruct (handleWallCollision_compliant field 5 b Hfit Hhit)
    as [_ [(_ & Hy & Hdy & _) | (Hbot & _)]].
  - split; [rewrite Hy | rewrite Hdy]; reflexivity.
  - exfalso. revert Hbot. cbn. lra.
Defined.

(** In a field lower than the ball, the correction for the top wall is
    followed by the correction for the bottom wall: the ball ends above the
    top boundary and moves upward. *)
Lemma handleWallCollision_low_field :
  let field := {| Field.x := 0; Field.y := 0; Field.width := 100; Field.height := 4 |} in
  let b := ballAt 50 0 3 (-1) in
  let b' := fst (Ball.handleWallCollision field 5 b) in
  snd (Ball.handleWallCollision field 5 b) = true /\
  Ball.y b - 5 < Field.y field /\
  ~ (Field.y field + 5 <= Ball.y b') /\
  Ball.dy b' < 0.
Proof. vm_compute. intuition congruence. Qed.

(** ** Ball: paddle collisions *)

Ltac ball_simpl :=
  cbn [fst snd Ball.x Ball.y Ball.dx Ball.dy Ball.set_vel Ball.set_pos
       Ball.gameParams Ball.size Ball.shouldRespawn Ball.lastScoreTime
       Ball.needsRemoval Ball.resetDelay Ball.trail Ball.maxTrailLength
       Ball.set_lastScoreTime Ball.set_needsRemoval Ball.set_trail] in *.

(** The velocity after a hit on the left or right side of the paddle. *)
Lemma handlePaddleCollision_horizontal {Ref : Type}
    (paddle : Paddle.t Ref) (r : Q) (b : Ball.t) :
  snd (Ball.handlePaddleCollision paddle r b) = true ->
  horizontalFace paddle r b = true ->
  let b' := fst (Ball.handlePaddleCollision paddle r b) in
  Ball.dx b' == (if Qabs (Ball.dx b) <? 2
                 then (if - Ball.dx b >? 0 then 2 else -2)
                 else - Ball.dx b) * 1.1 /\
  Ball.dy b' == ((Ball.y b - Paddle.y paddle) / Paddle.height paddle - 0.5)
                * 2 * Qabs (Ball.dx b) * 1.1.
Proof.
  unfold Ball.handlePaddleCollision, horizontalFace.
  set (oL := Ball.x b + r - Paddle.x paddle).
  set (oR := Paddle.x paddle + Paddle.width paddle - (Ball.x b - r)).
  set (oT := Ball.y b + r - Paddle.y paddle).
  set (oB := Paddle.y paddle + Paddle.height paddle - (Ball.y b - r)).
  set (m := Js.min4 oL oR oT oB).
  destruct (_ && _ && _ && _); [ | discriminate].
  intros _ Hface. rewrite Hface.
  assert (Habs : Qabs (- Ball.dx b) == Qabs (Ball.dx b)) by apply Qabs_opp.
  destruct (m === oL); ball_simpl;
    destruct (lt_reflect (Qabs (- Ball.dx b)) 2) as [H2 | H2];
    destruct (lt_reflect (Qabs (Ball.dx b)) 2) as [H2' | H2']; try lra;
    ball_simpl; rewrite ?Habs; split; try reflexivity;
    destruct (gt_reflect (- Ball.dx b) 0); lra.
Qed.

(** The velocity after a hit on the top or bottom of the paddle. *)
Lemma handlePaddleCollision_vertical {Ref : Type}
    (paddle : Paddle.t Ref) (r : Q) (b : Ball.t) :
  snd (Ball.handlePaddleCollision paddle r b) = true ->
  horizontalFace paddle r b = false ->
  let b' := fst (Ball.handlePaddleCollision paddle r b) in
  Ball.dx b' == Ball.dx b * 1.1 /\ Ball.dy b' == - Ball.dy b * 1.1.
Proof.
  unfold Ball.handlePaddleCollision, horizontalFace.
  set (oL := Ball.x b + r - Paddle.x paddle).
  set (oR := Paddle.x paddle + Paddle.width paddle - (Ball.x b - r)).
  set (oT := Ball.y b + r - Paddle.y paddle).
  set (oB := Paddle.y paddle + Paddle.height paddle - (Ball.y b - r)).
  set (m := Js.min4 oL oR oT oB).
  destruct (_ && _ && _ && _); [ | discriminate].
  intros _ Hface. rewrite Hface.
  destruct (m === oT); ball_simpl; split; lra.
Qed.

Lemma Qpower_succ (q : Q) (n : nat) :
  ~ q == 0 -> q ^ Z.of_nat (S n) == q * q ^ Z.of_nat n.
Proof.
  intros H0. rewrite Nat2Z.inj_succ. unfold Z.succ.
  rewrite Qpower_plus by exact H0. rewrite Qpower_1_r. ring.
Qed.

Lemma handlePaddleCollision_dx_grows {Ref : Type}
    (paddle : Paddle.t Ref) (r : Q) (b : Ball.t) :
  snd (Ball.handlePaddleCollision paddle r b) = true ->
  Qabs (Ball.dx b) * 1.1 <= Qabs (Ball.dx (fst (Ball.handlePaddleCollision paddle r b))).
Proof.
  intros Hhit. destruct (horizontalFace paddle r b) eqn:Hface.
  - destruct (handlePaddleCollision_horizontal paddle r b Hhit Hface) as [Hdx _].
    rewrite Hdx. revert Hdx. 
    destruct (lt_reflect (Qabs (Ball.dx b)) 2) as [H2 | H2]; intros _.
    + destruct (gt_reflect (- Ball.dx b) 0); rewrite Qabs_Qmult;
        change (Qabs 1.1) with 1.1; [change (Qabs 2) with 2 | change (Qabs (-2)) with 2]; nra.
    + rewrite Qabs_Qmult, Qabs_opp. change (Qabs 1.1) with 1.1. lra.
  - destruct (handlePaddleCollision_vertical paddle r b Hhit Hface) as [Hdx _].
    rewrite Hdx, Qabs_Qmult. change (Qabs 1.1) with 1.1. lra.
Qed.

(** The place of the ball after a hit on the left or right side of the
    paddle: flush against the side that the resolution chose. *)
Lemma handlePaddleCollision_side {Ref : Type}
    (paddle : Paddle.t Ref) (r : Q) (b : Ball.t) :
  snd (Ball.handlePaddleCollision paddle r b) = true ->
  horizontalFace paddle r b = true ->
  let b' := fst (Ball.handlePaddleCollision paddle r b) in
  (leftFace paddle r b = true -> Ball.x b' + r == Paddle.x paddle) /\
  (leftFace paddle r b = false ->
   Ball.x b' - r == Paddle.x paddle + Paddle.width paddle).
Proof.
  unfold Ball.handlePaddleCollision, horizontalFace, leftFace.
  set (oL := Ball.x b + r - Paddle.x paddle).
  set (oR := Paddle.x paddle + Paddle.width paddle - (Ball.x b - r)).
  set (oT := Ball.y b + r - Paddle.y paddle).
  set (oB := Paddle.y paddle + Paddle.height paddle - (Ball.y b - r)).
  set (m := Js.min4 oL oR oT oB).
  destruct (_ && _ && _ && _); [ | discriminate].
  intros _ Hface. rewrite Hface.
  destruct (m === oL); ball_simpl;
    match goal with
    | |- context [Qabs ?v <? 2] => destruct (Qabs v <? 2)
    end; ball_simpl;
    (split; intros H; try discriminate H; ring).
Qed.

(** C2, as amended: a hit on the left or right side of a paddle reverses the
    sign of [dx] and puts the ball flush against the side that the
    resolution chose.  The ball then moves away from the paddle when this
    is the side it came towards (the right side for [dx < 0], the left side
    for [dx > 0]); when it is the other side, the ball lies beyond the
    paddle and moves into it.  A hit on the top or bottom of a paddle
    negates [dy] and keeps the sign of [dx]. *)
Theorem handlePaddleCollision_direction {Ref : Type}
    (paddle : Paddle.t Ref) (r : Q) (b : Ball.t) :
  snd (Ball.handlePaddleCollision paddle r b) = true ->
  let b' := fst (Ball.handlePaddleCollision paddle r b) in
  (horizontalFace paddle r b = true ->
   ((Ball.dx b < 0 -> 0 < Ball.dx b') /\ (0 < Ball.dx b -> Ball.dx b' < 0)) /\
   (leftFace paddle r b = true ->
    Ball.x b' + r == Paddle.x paddle /\
    (0 < Ball.dx b -> movesAway paddle r b') /\
    (Ball.dx b < 0 -> movesInto paddle r b')) /\
   (leftFace paddle r b = false ->
    Ball.x b' - r == Paddle.x paddle + Paddle.width paddle /\
    (Ball.dx b < 0 -> movesAway paddle r b') /\
    (0 < Ball.dx b -> movesInto paddle r b'))) /\
  (horizontalFace paddle r b = false ->
   Ball.dx b' == Ball.dx b * 1.1 /\ Ball.dy b' == - Ball.dy b * 1.1).
Proof.
  intros Hhit b'. split; intros Hface.
  - destruct (handlePaddleCollision_horizontal paddle r b Hhit Hface) as [Hdx _].
    destruct (handlePaddleCollision_side paddle r b Hhit Hface) as [Hleft Hright].
    fold b' in Hdx, Hleft, Hright.
    assert (Hsign : (Ball.dx b < 0 -> 0 < Ball.dx b') /\
                    (0 < Ball.dx b -> Ball.dx b' < 0)).
    { rewrite Hdx.
      destruct (lt_reflect (Qabs (Ball.dx b)) 2);
        destruct (gt_reflect (- Ball.dx b) 0); split; intros; lra. }
    destruct Hsign as [Hneg Hpos].
    split; [split; assumption | ]. unfold movesAway, movesInto. split.
    + intros Hl. specialize (Hleft Hl).
      split; [exact Hleft | split; intros Hd; left; split];
        try (rewrite <- Hleft; apply Qle_refl); auto.
    + intros Hr. specialize (Hright Hr).
      split; [exact Hright | split; intros Hd; right; split];
        try (rewrite <- Hright; apply Qle_refl); auto.
  - exact (handlePaddleCollision_vertical paddle r b Hhit Hface).
Qed.

Lemma handlePaddleCollision_direction_witness :
  let paddle := paddleAt 10 100 true in
  let b := ballAt 29 150 (-3) 5 in
  snd (Ball.handlePaddleCollision paddle 5 b) = true /\
  horizontalFace paddle 5 b = true /\
  0 < Ball.dx (fst (Ball.handlePaddleCollision paddle 5 b)) /\
  movesAway paddle 5 (fst (Ball.handlePaddleCollision paddle 5 b)).
Proof.
  intros paddle b.
  assert (Hhit : snd (Ball.handlePaddleCollision paddle 5 b) = true) by reflexivity.
  assert (Hface : horizontalFace paddle 5 b = true) by reflexivity.
  assert (Hright : leftFace paddle 5 b = false) by reflexivity.
  assert (Hdx : Ball.dx b < 0) by (cbn; lra).
  split; [exact Hhit | split; [exact Hface | ]].
  destruct (handlePaddleCollision_direction paddle 5 b Hhit) as [Hside _].
  destruct (Hside Hface) as ((Hneg & _) & _ & Haway).
  split; [exact (Hneg Hdx) | ].
  destruct (Haway Hright) as (_ & Hmoves & _). exact (Hmoves Hdx).
Defined.

(** A ball that moves to the left with a large step and overlaps the left
    paddle by less on the left than on the right: the hit is resolved on
    the left side, the ball is put to the left of the left paddle and
    moves to the right, into the paddle; with [dx > 0] it is tested against
    the right paddle only. *)
Example handlePaddleCollision_far_side :
  let paddle := paddleAt 50 100 true in
  let b := ballAt 52 150 (-21) 0 in
  let b' := fst (Ball.handlePaddleCollision paddle 5 b) in
  snd (Ball.handlePaddleCollision paddle 5 b) = true /\
  horizontalFace paddle 5 b = true /\ leftFace paddle 5 b = true /\
  Ball.x b' == 45 /\ Ball.dx b' == 23.1 /\
  Ball.x b' + 5 <= Paddle.x paddle /\ 0 < Ball.dx b'.
Proof. vm_compute. intuition congruence. Qed.

(** A ball that moves up and to the left and overlaps the top of the left
    paddle by less than it overlaps the sides: the hit is resolved on the top
    face, [dy] becomes positive (towards the paddle, which is below the
    ball) and [dx] stays negative, and after the next move the ball hits the
    same paddle again. *)
Lemma handlePaddleCollision_top_face_twice :
  let paddle := paddleAt 10 100 true in
  let b := ballAt 20 96 (-3) (-2) in
  let b1 := fst (Ball.handlePaddleCollision paddle 5 b) in
  let b2 := Ball.set_pos b1 (Ball.x b1 + Ball.dx b1) (Ball.y b1 + Ball.dy b1) in
  Ball.dx b < 0 /\
  snd (Ball.handlePaddleCollision paddle 5 b) = true /\
  Ball.y b1 + 5 <= Paddle.y paddle /\
  0 < Ball.dy b1 /\
  Ball.dx b1 < 0 /\
  snd (Ball.handlePaddleCollision paddle 5 b2) = true.
Proof. vm_compute. intuition congruence. Qed.

(** C4, as amended: over consecutive paddle hits between which the velocity
    does not change, [|dx|] grows by the factor 1.1 at least at every hit;
    [|dy|] grows by exactly 1.1 at every hit on the top or bottom of a paddle
    (a hit on a side derives [dy] anew from the place of the hit). *)
Theorem bounces_speed {Ref : Type} (faces : list bool) (b b' : Ball.t) :
  bounces Ref faces b b' ->
  Qabs (Ball.dx b) * 1.1 ^ Z.of_nat (List.length faces) <= Qabs (Ball.dx b') /\
  (forallb negb faces = true ->
   Qabs (Ball.dy b') == Qabs (Ball.dy b) * 1.1 ^ Z.of_nat (List.length faces)).
Proof.
  induction 1 as [b | paddle r x y b b' faces Hhit Hrest IH].
  - simpl. split; [lra | intros _; ring].
  - destruct IH as [IHdx IHdy].
    pose proof (handlePaddleCollision_dx_grows paddle r _ Hhit) as Hgrow.
    cbn [List.length]. rewrite Qpower_succ by (intro H0; discriminate H0).
    assert (Hpow : 0 <= 1.1 ^ Z.of_nat (List.length faces)).
    { apply Qpower_0_le. lra. }
    split.
    + ball_simpl.
      set (p := 1.1 ^ Z.of_nat (List.length faces)) in *.
      set (b1 := fst (Ball.handlePaddleCollision paddle r (Ball.set_pos b x y))) in *.
      nra.
    + cbn [forallb]. intros Hall. apply andb_prop in Hall. destruct Hall as [Hface Hall].
      apply negb_true_iff in Hface.
      destruct (handlePaddleCollision_vertical paddle r _ Hhit Hface) as [_ Hdy].
      rewrite (IHdy Hall), Hdy. ball_simpl.
      rewrite Qabs_Qmult, Qabs_opp. change (Qabs 1.1) with 1.1. ring.
Qed.

Lemma bounces_speed_witness :
  let paddle := paddleAt 10 100 true in
  let b := ballAt 29 150 (-3) 5 in
  let b' := fst (Ball.handlePaddleCollision paddle 5 b) in
  bounces unit [true] b b' /\
  Qabs (Ball.dx b) * 1.1 ^ 1 <= Qabs (Ball.dx b').
Proof.
  intros paddle b b'.
  assert (Hb : bounces unit [true] b b').
  { apply (bounces_cons paddle 5 29 150 b b' []); [reflexivity | apply bounces_nil]. }
  split; [exact Hb | ].
  exact (proj1 (bounces_speed [true] b b' Hb)).
Defined.

(** A ball that hits the front of the left paddle at the middle of its
    height leaves with [dy = 0], whatever [dy] was. *)
Lemma handlePaddleCollision_dy_shrinks :
  let paddle := paddleAt 10 100 true in
  let b := ballAt 29 150 (-3) 5 in
  let b' := fst (Ball.handlePaddleCollision paddle 5 b) in
  snd (Ball.handlePaddleCollision paddle 5 b) = true /\
  Qabs (Ball.dy b') < Qabs (Ball.dy b) /\
  ~ (Qabs (Ball.dy b') == Qabs (Ball.dy b) * 1.1).
Proof. vm_compute. intuition congruence. Qed.

(** ** Ball: scoring *)

Lemma handleWallCollision_keeps (field : Field.t) (r : Q) (b : Ball.t) :
  let b' := fst (Ball.handleWallCollision field r b) in
  Ball.size b' = Ball.size b /\ Ball.gameParams b' = Ball.gameParams b /\
  Ball.shouldRespawn b' = Ball.shouldRespawn b.
Proof.
  unfold Ball.handleWallCollision.
  destruct (_ <? _); ball_simpl; destruct (_ >? _); ball_simpl; auto.
Qed.

Lemma handlePaddleCollision_keeps {Ref : Type} (paddle : Paddle.t Ref) (r : Q) (b : Ball.t) :
  let b' := fst (Ball.handlePaddleCollision paddle r b) in
  Ball.size b' = Ball.size b /\ Ball.gameParams b' = Ball.gameParams b /\
  Ball.shouldRespawn b' = Ball.shouldRespawn b.
Proof.
  unfold Ball.handlePaddleCollision.
  destruct (_ && _ && _ && _); ball_simpl; auto.
  destruct (_ || _); ball_simpl.
  - destruct (_ === _); ball_simpl; destruct (_ <? _); ball_simpl; auto.
  - destruct (_ === _); ball_simpl; auto.
Qed.

Section Scoring.
Context {host : MathHost} {Ref G : Type}.
Variable count : G -> nat.
Variable canvas : Canvas.t.
Variable updateScore : Side.t -> G -> G.
Hypothesis count_score : forall s g, count (updateScore s g) = S (count g).

Lemma reset_x (b : Ball.t) (w : World) :
    let field := Utils.getFieldOffset canvas (Ball.gameParams b) in
    let b' := fst (Ball.reset canvas b w) in
    Ball.x b' == Field.x field + Field.width field / 2 /\
    Ball.size b' = Ball.size b /\ Ball.gameParams b' = Ball.gameParams b.
Proof.
    unfold Ball.reset. cbv zeta. unfold random. ball_simpl.
    match goal with |- context [if ?c then Ball.set_vel _ _ _ else _] => destruct c end;
      ball_simpl; repeat split; reflexivity.
Qed.

Lemma scored_spec (side : Side.t) (ts : Q) (b : Ball.t) (g : G) (w : World) :
    let field := Utils.getFieldOffset canvas (Ball.gameParams b) in
    let '(b', g', _) := Ball.scored canvas (Some updateScore) side ts b g w in
    count g' = S (count g) /\
    Ball.size b' = Ball.size b /\ Ball.gameParams b' = Ball.gameParams b /\
    (Ball.x b' == Ball.x b \/ Ball.x b' == Field.x field + Field.width field / 2).
Proof.
    unfold Ball.scored. cbv zeta.
    destruct (Ball.shouldRespawn b).
    - pose proof (reset_x (Ball.set_lastScoreTime b ts) w) as Hr.
      destruct (Ball.reset canvas (Ball.set_lastScoreTime b ts) w) as [b' w'].
      ball_simpl. cbv zeta in Hr. ball_simpl. destruct Hr as (Hx & Hs & Hp).
      rewrite count_score. repeat split; auto.
    - ball_simpl. rewrite count_score. repeat split; auto. left; reflexivity.
Qed.

Variable createMultiball : option (Ball.t -> G -> World -> G * World).
Hypothesis count_multiball :
    forall callback b g w,
      createMultiball = Some callback -> count (fst (callback b g w)) = count g.

Lemma update_scores_once
      (ts : Q) (paddleLeft paddleRight : Paddle.t Ref) (shake : Q)
      (b : Ball.t) (g : G) (w : World) :
    0 <= Ball.size b ->
    0 <= Canvas.width canvas * Params.fieldWidth (Ball.gameParams b) ->
    let '(_, _, g', _) :=
      Ball.update canvas (Some updateScore) ts paddleLeft paddleRight shake
        createMultiball b g w in
    (count g <= count g' <= S (count g))%nat.
Proof.
    intros Hsize Hwidth. unfold Ball.update.
    destruct (_ && _); [lia | ].
    cbv zeta.
    set (b0 := if Ball.lastScoreTime b >? 0 then Ball.set_lastScoreTime b 0 else b).
    assert (Hb0 : Ball.size b0 = Ball.size b /\ Ball.gameParams b0 = Ball.gameParams b).
    { subst b0. destruct (_ >? _); auto. }
    destruct Hb0 as [Hs0 Hp0]. rewrite !Hp0, !Hs0.
    match goal with
    | |- context [Ball.handleWallCollision ?f ?r ?x] =>
        pose proof (handleWallCollision_keeps f r x) as Hk;
        assert (Hx : Ball.size x = Ball.size b /\ Ball.gameParams x = Ball.gameParams b)
          by (destruct (Params.trailEffect _); [destruct (Nat.ltb _ _) | ]; ball_simpl; auto);
        destruct (Ball.handleWallCollision f r x) as [s1 wallHit]
    end.
    cbv zeta in Hk. ball_simpl. 
    assert (Hs1 : Ball.size s1 = Ball.size b /\ Ball.gameParams s1 = Ball.gameParams b).
    { destruct Hk as (-> & -> & _). exact Hx. }
    clear Hk Hx. 
    (* the left paddle *)
    match goal with
    | |- context [if Ball.dx s1 <? 0 then ?A else ?B] =>
        assert (Hs2 : Ball.size (fst (if Ball.dx s1 <? 0 then A else B)) = Ball.size b /\
                      Ball.gameParams (fst (if Ball.dx s1 <? 0 then A else B)) = Ball.gameParams b);
        [ | destruct (if Ball.dx s1 <? 0 then A else B) as [s2 hitL] ]
    end.
    { destruct (Ball.dx s1 <? 0); [ | exact Hs1].
      pose proof (handlePaddleCollision_keeps paddleLeft (Ball.size b / 2) s1) as Hk.
      destruct (Ball.handlePaddleCollision _ _ _); cbv zeta in Hk; ball_simpl.
      destruct Hk as (-> & -> & _). exact Hs1. }
    ball_simpl. clear Hs1 s1.
    (* the right paddle *)
    match goal with
    | |- context [if Ball.dx s2 >? 0 then ?A else ?B] =>
        assert (Hs3 : Ball.size (fst (if Ball.dx s2 >? 0 then A else B)) = Ball.size b /\
                      Ball.gameParams (fst (if Ball.dx s2 >? 0 then A else B)) = Ball.gameParams b);
        [ | destruct (if Ball.dx s2 >? 0 then A else B) as [s3 hitR] ]
    end.
    { destruct (Ball.dx s2 >? 0); [ | exact Hs2].
      pose proof (handlePaddleCollision_keeps paddleRight (Ball.size b / 2) s2) as Hk.
      destruct (Ball.handlePaddleCollision _ _ _); cbv zeta in Hk; ball_simpl.
      destruct Hk as (-> & -> & _). exact Hs2. }
    ball_simpl. clear Hs2 s2.
    (* the multiball callback *)
    match goal with
    | |- context [if hitR then ?A else ?B] =>
        assert (Hg : count (snd (fst (if hitR then A else B))) = count g);
        [ | destruct (if hitR then A else B) as [[sh g0] w0] ]
    end.
    { destruct hitR; [ | reflexivity].
      destruct createMultiball as [callback | ] eqn:Hcb; [ | reflexivity].
      destruct (Params.multiball _); [ | reflexivity].
      unfold random. destruct (_ <? _); [ | reflexivity].
      match goal with
      | |- context [callback ?b ?g ?w] =>
          pose proof (count_multiball callback b g w eq_refl) as Hc;
          destruct (callback b g w)
      end.
      exact Hc. }
    cbn [fst snd] in Hg. destruct Hs3 as [Hs3 Hp3].
    (* the two boundaries *)
    set (field := Utils.getFieldOffset canvas (Ball.gameParams b)) in *.
    assert (Hw : 0 <= Field.width field) by exact Hwidth.
    destruct (lt_reflect (Ball.x s3 + Ball.size b / 2) (Field.x field)) as [HL | HL].
    - pose proof (scored_spec Side.right ts s3 g0 w0) as Hsc.
      destruct (Ball.scored canvas (Some updateScore) Side.right ts s3 g0 w0)
        as [[s4 g1] w1].
      rewrite Hp3 in Hsc. fold field in Hsc. cbv zeta in Hsc.
      destruct Hsc as (Hc & Hs4 & Hp4 & Hx).
      destruct (gt_reflect (Ball.x s4 - Ball.size b / 2) (Field.x field + Field.width field))
        as [HR | HR].
      + exfalso. qconst. destruct Hx as [Hx | Hx]; rewrite Hx in HR; lra.
      + lia.
    - destruct (gt_reflect (Ball.x s3 - Ball.size b / 2) (Field.x field + Field.width field))
        as [HR | HR].
      + pose proof (scored_spec Side.left ts s3 g0 w0) as Hsc.
        destruct (Ball.scored canvas (Some updateScore) Side.left ts s3 g0 w0)
          as [[s4 g1] w1].
        destruct Hsc as (Hc & _). lia.
      + lia.
Qed.

End Scoring.

(** C6: with a non-negative radius and a non-negative field width, one call
    of [update] calls the score callback at most once: the exit on the left
    and the exit on the right never both fire, also when the first one has
    put the ball back at the centre.  [count] is any view of the owner's
    state that every score increments and the multiball callback keeps. *)
Theorem update_scores_at_most_once {host : MathHost} {Ref G : Type}
    (count : G -> nat) (canvas : Canvas.t)
    (updateScore : Side.t -> G -> G)
    (createMultiball : option (Ball.t -> G -> World -> G * World))
    (timestamp : Q) (paddleLeft paddleRight : Paddle.t Ref) (shakeAmount : Q)
    (b : Ball.t) (g : G) (w : World) :
  0 <= Ball.size b / 2 ->
  0 <= Field.width (Utils.getFieldOffset canvas (Ball.gameParams b)) ->
  (forall s g0, count (updateScore s g0) = S (count g0)) ->
  (forall callback b0 g0 w0,
      createMultiball = Some callback ->
      count (fst (callback b0 g0 w0)) = count g0) ->
  let '(_, _, g', _) :=
    Ball.update canvas (Some updateScore) timestamp paddleLeft paddleRight
      shakeAmount createMultiball b g w in
  (count g <= count g' <= S (count g))%nat.
Proof.
  intros Hr Hw Hscore Hmulti.
  apply (update_scores_once count canvas updateScore Hscore createMultiball Hmulti).
  - qconst. lra.
  - exact Hw.
Qed.

Lemma update_scores_at_most_once_witness :
  let canvas := {| Canvas.width := 800; Canvas.height := 480 |} in
  let b := ballAt (-100) 240 (-3) 1 in
  0 <= Ball.size b / 2 /\
  0 <= Field.width (Utils.getFieldOffset canvas (Ball.gameParams b)) /\
  let '(_, _, g', _) :=
    Ball.update (host := taylorHost) canvas (Some (fun _ n => S n)) 1000
      (paddleAt 50 190 true) (paddleAt 735 190 false) 0 None b 0%nat
      (steadyWorld 0.5) in
  (0 <= g' <= 1)%nat.
Proof.
  intros canvas b.
  assert (Hr : 0 <= Ball.size b / 2) by (cbn; qconst; lra).
  assert (Hw : 0 <= Field.width (Utils.getFieldOffset canvas (Ball.gameParams b)))
    by (cbn; lra).
  split; [exact Hr | split; [exact Hw | ]].
  apply (update_scores_at_most_once (host := taylorHost) (fun n : nat => n) canvas
           (fun _ n => S n) None 1000 (paddleAt 50 190 true)
           (paddleAt 735 190 false) 0 b 0%nat (steadyWorld 0.5) Hr Hw).
  - reflexivity.
  - discriminate.
Defined.

(** ** Ball: construction *)

(** C10, as amended: with [options.dx] and [options.dy] defined, a
    coordinate 0 in [options] is not honoured: the ball is placed at the
    middle of the canvas on that axis; hence, on a canvas of non-zero width
    (height), no such ball is created at [x = 0] ([y = 0]). *)
Theorem constructor_zero_coordinate {host : MathHost}
    (canvas : Canvas.t) (gameParams : Params.t) (options : Options.t)
    (odx ody : Q) (w : World) :
  Options.dx options = Some odx ->
  Options.dy options = Some ody ->
  let b := fst (Ball.constructor canvas gameParams options w) in
  (forall v, Options.x options = Some v -> v == 0 ->
             Ball.x b = Canvas.width canvas / 2) /\
  (forall v, Options.y options = Some v -> v == 0 ->
             Ball.y b = Canvas.height canvas / 2) /\
  (~ Canvas.width canvas == 0 -> ~ Ball.x b == 0) /\
  (~ Canvas.height canvas == 0 -> ~ Ball.y b == 0) /\
  Ball.dx b = odx /\ Ball.dy b = ody.
Proof.
  intros Hdx Hdy. unfold Ball.constructor. rewrite Hdx, Hdy.
  ball_simpl. unfold Js.orOpt, Js.orNum.
  repeat split.
  - intros v -> Hv. apply Qeq_bool_iff in Hv. unfold Js.eqb. now rewrite Hv.
  - intros v -> Hv. apply Qeq_bool_iff in Hv. unfold Js.eqb. now rewrite Hv.
  - intros Hc. destruct (Options.x options) as [v | ];
      [destruct (eq_reflect v 0) as [Hv | Hv]; [ | exact Hv] | ];
      qconst; intros H; apply Hc; lra.
  - intros Hc. destruct (Options.y options) as [v | ];
      [destruct (eq_reflect v 0) as [Hv | Hv]; [ | exact Hv] | ];
      qconst; intros H; apply Hc; lra.
Qed.

Lemma constructor_zero_coordinate_witness :
  let canvas := {| Canvas.width := 800; Canvas.height := 480 |} in
  let options := {| Options.x := Some 0; Options.y := Some 0;
                    Options.dx := Some 3; Options.dy := Some (-2) |} in
  let b := fst (Ball.constructor (host := taylorHost) canvas Params.defaultParams
                  options (steadyWorld 0.5)) in
  Options.dx options = Some 3 /\ Options.dy options = Some (-2) /\
  Ball.x b = 800 / 2 /\ Ball.y b = 480 / 2.
Proof.
  intros canvas options b.
  destruct (constructor_zero_coordinate (host := taylorHost) canvas
              Params.defaultParams options 3 (-2) (steadyWorld 0.5)
              eq_refl eq_refl) as (Hx & Hy & _).
  split; [reflexivity | split; [reflexivity | split]].
  - apply (Hx 0); reflexivity.
  - apply (Hy 0); reflexivity.
Defined.

(** On a canvas of size 0, which a window narrower than two pixels gives,
    the middle of the canvas is 0 itself: a spawn with [options.x = 0] and
    [options.y = 0] places the ball at coordinate 0 on both axes. *)
Lemma constructor_zero_canvas :
  let canvas := Canvas.resize (1 * 0.9) (1 * 0.8) in
  let options := {| Options.x := Some 0; Options.y := Some 0;
                    Options.dx := Some 3; Options.dy := Some (-2) |} in
  let b := fst (Ball.constructor (host := taylorHost) canvas Params.defaultParams
                  options (steadyWorld 0.5)) in
  Canvas.width canvas == 0 /\ Canvas.height canvas == 0 /\
  Ball.x b == 0 /\ Ball.y b == 0 /\ Ball.dx b = 3 /\ Ball.dy b = -2.
Proof. vm_compute. intuition congruence. Qed.
(** ** Colours *)

Lemma isHexDigit_hexCharacters (c : ascii) :
  Utils.isHexDigit c = true -> In c hexCharacters.
Proof.
  destruct c as [[] [] [] [] [] [] [] []]; vm_compute; intros H;
    try discriminate H; tauto.
Qed.

Lemma isHexDigit_value (c : ascii) :
  Utils.isHexDigit c = true -> (0 <= Utils.hexDigitValue c <= 15)%Z.
Proof.
  destruct c as [[] [] [] [] [] [] [] []]; vm_compute; intros H;
    try discriminate H; split; discriminate.
Qed.

Lemma digit_cases (d : Z) :
  (0 <= d < 16)%Z ->
  d = 0%Z \/ d = 1%Z \/ d = 2%Z \/ d = 3%Z \/ d = 4%Z \/ d = 5%Z \/ d = 6%Z \/
  d = 7%Z \/ d = 8%Z \/ d = 9%Z \/ d = 10%Z \/ d = 11%Z \/ d = 12%Z \/
  d = 13%Z \/ d = 14%Z \/ d = 15%Z.
Proof. lia. Qed.

Lemma hexChar_digit (d : Z) :
  (0 <= d < 16)%Z ->
  Utils.isHexDigit (Utils.hexChar d) = true /\
  Utils.hexDigitValue (Utils.hexChar d) = d.
Proof.
  intros H. apply digit_cases in H.
  repeat (destruct H as [H | H]; [subst d; split; reflexivity | ]).
  subst d; split; reflexivity.
Qed.

(** A string that [execHex] matches is a colour string. *)
Lemma execHex_colourString (s : string) :
  Utils.execHex s <> None -> colourString s.
Proof.
  assert (Hsix : forall body,
             match body with
             | String a (String b (String c (String d (String e (String f EmptyString))))) =>
                 if Utils.isHexDigit a && Utils.isHexDigit b && Utils.isHexDigit c &&
                    Utils.isHexDigit d && Utils.isHexDigit e && Utils.isHexDigit f
                 then Some (a, b, c, d, e, f) else None
             | _ => None
             end <> None -> sixHexDigits body).
  { intros body.
    destruct body as [ | a [ | b [ | c [ | d [ | e [ | f [ | g rest]]]]]]];
      try (intros H; exfalso; apply H; reflexivity).
    destruct (Utils.isHexDigit a) eqn:Ha; [ | intros H; exfalso; apply H; reflexivity].
    destruct (Utils.isHexDigit b) eqn:Hb; [ | intros H; exfalso; apply H; reflexivity].
    destruct (Utils.isHexDigit c) eqn:Hc; [ | intros H; exfalso; apply H; reflexivity].
    destruct (Utils.isHexDigit d) eqn:Hd; [ | intros H; exfalso; apply H; reflexivity].
    destruct (Utils.isHexDigit e) eqn:He; [ | intros H; exfalso; apply H; reflexivity].
    destruct (Utils.isHexDigit f) eqn:Hf; [ | intros H; exfalso; apply H; reflexivity].
    intros _. split; [reflexivity | ].
    cbn [list_ascii_of_string].
    repeat (apply Forall_cons; [apply isHexDigit_hexCharacters; assumption | ]).
    apply Forall_nil. }
  unfold Utils.execHex.
  destruct s as [ | ch rest]; [intros H; exfalso; apply H; reflexivity | ].
  destruct (ascii_dec ch "#") as [-> | Hne].
  - intros H. right. exists rest. split; [reflexivity | ]. apply Hsix. exact H.
  - intros H. left. apply Hsix.
    destruct ch as [[] [] [] [] [] [] [] []]; try exact H.
    exfalso. apply Hne. reflexivity.
Qed.

Lemma hexToRgb_fallback (s : string) :
  ~ colourString s -> Utils.hexToRgb s = white.
Proof.
  intros Hs. unfold Utils.hexToRgb.
  destruct (Utils.execHex s) as [[[[[[a b] c] d] e] f] | ] eqn:E; [ | reflexivity].
  exfalso. apply Hs. apply execHex_colourString. rewrite E. discriminate.
Qed.

Lemma execHex_digits (s : string) (a b c d e f : ascii) :
  Utils.execHex s = Some (a, b, c, d, e, f) ->
  Utils.isHexDigit a = true /\ Utils.isHexDigit b = true /\
  Utils.isHexDigit c = true /\ Utils.isHexDigit d = true /\
  Utils.isHexDigit e = true /\ Utils.isHexDigit f = true.
Proof.
  unfold Utils.execHex.
  set (body := match s with String "#" rest => rest | _ => s end).
  destruct body as [ | a' [ | b' [ | c' [ | d' [ | e' [ | f' [ | g rest]]]]]]];
    try discriminate.
  destruct (Utils.isHexDigit a') eqn:Ha; [ | discriminate].
  destruct (Utils.isHexDigit b') eqn:Hb; [ | discriminate].
  destruct (Utils.isHexDigit c') eqn:Hc; [ | discriminate].
  destruct (Utils.isHexDigit d') eqn:Hd; [ | discriminate].
  destruct (Utils.isHexDigit e') eqn:He; [ | discriminate].
  destruct (Utils.isHexDigit f') eqn:Hf; [ | discriminate].
  cbn. intros H. injection H as <- <- <- <- <- <-. tauto.
Qed.

Lemma parseInt16_channel (a b : ascii) :
  Utils.isHexDigit a = true -> Utils.isHexDigit b = true ->
  channel (Utils.parseInt16 a b).
Proof.
  intros Ha Hb. apply isHexDigit_value in Ha. apply isHexDigit_value in Hb.
  unfold channel, Utils.parseInt16. lia.
Qed.

(** The channels that [hexToRgb] returns lie between 0 and 255. *)
Lemma hexToRgb_channels (s : string) :
  channel (Rgb.r (Utils.hexToRgb s)) /\
  channel (Rgb.g (Utils.hexToRgb s)) /\
  channel (Rgb.b (Utils.hexToRgb s)).
Proof.
  unfold Utils.hexToRgb.
  destruct (Utils.execHex s) as [[[[[[a b] c] d] e] f] | ] eqn:E.
  - apply execHex_digits in E. destruct E as (Ha & Hb & Hc & Hd & He & Hf).
    cbn [Rgb.r Rgb.g Rgb.b]. repeat split; apply parseInt16_channel; assumption.
  - cbn. unfold channel. lia.
Qed.

(** One more digit in front: the digits of [16 * m + d]. *)
Lemma hexDigits_step (fuel : nat) (m d : Z) (acc : string) :
  (0 < m)%Z -> (0 <= d < 16)%Z ->
  Utils.hexDigits (S fuel) (16 * m + d) acc =
  Utils.hexDigits fuel m (String (Utils.hexChar d) acc).
Proof.
  intros Hm Hd. cbn [Utils.hexDigits].
  assert (Hmod : ((16 * m + d) mod 16 = d)%Z).
  { rewrite Z.add_comm, Z.mul_comm, Z.mod_add by lia. apply Z.mod_small. lia. }
  assert (Hdiv : ((16 * m + d) / 16 = m)%Z).
  { rewrite Z.add_comm, Z.mul_comm, Z.div_add by lia.
    rewrite Z.div_small by lia. lia. }
  rewrite Hmod, Hdiv.
  destruct (Z.eqb_spec m 0); [lia | reflexivity].
Qed.

Lemma toString16_rrggbb (r g b : Z) :
  channel r -> channel g -> channel b ->
  Utils.toString16 (16777216 + r * 65536 + g * 256 + b) =
  String "1" (twoDigits r ++ twoDigits g ++ twoDigits b).
Proof.
  unfold channel. intros Hr Hg Hb.
  set (n := (16777216 + r * 65536 + g * 256 + b)%Z).
  assert (Hn : (2 ^ 24 <= n < 2 ^ 25)%Z) by (subst n; lia).
  unfold Utils.toString16.
  destruct (Z.ltb_spec n 0); [lia | ].
  assert (Hlog : Z.log2 n = 24%Z).
  { apply Z.log2_unique; lia. }
  rewrite Hlog. change (S (Z.to_nat 24)) with 25%nat.
  pose proof (Z.div_mod r 16 ltac:(lia)) as Er.
  pose proof (Z.div_mod g 16 ltac:(lia)) as Eg.
  pose proof (Z.div_mod b 16 ltac:(lia)) as Eb.
  pose proof (Z.mod_pos_bound r 16 ltac:(lia)) as Br.
  pose proof (Z.mod_pos_bound g 16 ltac:(lia)) as Bg.
  pose proof (Z.mod_pos_bound b 16 ltac:(lia)) as Bb.
  assert (Qr : (0 <= r / 16 < 16)%Z) by (split; [apply Z.div_pos | apply Z.div_lt_upper_bound]; lia).
  assert (Qg : (0 <= g / 16 < 16)%Z) by (split; [apply Z.div_pos | apply Z.div_lt_upper_bound]; lia).
  assert (Qb : (0 <= b / 16 < 16)%Z) by (split; [apply Z.div_pos | apply Z.div_lt_upper_bound]; lia).
  set (r1 := (r / 16)%Z) in *. set (r0 := (r mod 16)%Z) in *.
  set (g1 := (g / 16)%Z) in *. set (g0 := (g mod 16)%Z) in *.
  set (b1 := (b / 16)%Z) in *. set (b0 := (b mod 16)%Z) in *.
  replace n with
    (16 * (16 * (16 * (16 * (16 * (16 * 1 + r1) + r0) + g1) + g0) + b1) + b0)%Z
    by (subst n; lia).
  rewrite !hexDigits_step by lia.
  unfold twoDigits. fold r1 r0 g1 g0 b1 b0. reflexivity.
Qed.

Lemma shl_channel (v k : Z) :
  channel v -> (0 <= k <= 16)%Z -> Utils.shl v k = (v * 2 ^ k)%Z.
Proof.
  unfold channel. intros Hv Hk. unfold Utils.shl, Utils.toInt32.
  assert (H1 : ((v + 2 ^ 31) mod 2 ^ 32 - 2 ^ 31 = v)%Z).
  { rewrite Z.mod_small; lia. }
  rewrite H1. rewrite (Z.mod_small k 32) by lia.
  rewrite Z.shiftl_mul_pow2 by lia.
  assert (Hp : (0 < 2 ^ k <= 2 ^ 16)%Z).
  { split; [apply Z.pow_pos_nonneg; lia | apply Z.pow_le_mono_r; lia]. }
  rewrite Z.mod_small; [lia | ]. split; [nia | ].
  change (2 ^ 16)%Z with 65536%Z in Hp. change (2 ^ 31)%Z with 2147483648%Z.
  change (2 ^ 32)%Z with 4294967296%Z. nia.
Qed.

(** [rgbToHex] on numbers whose integer parts are channels. *)
Lemma rgbToHex_rrggbb (r g b : Q) :
  channel (Qfloor r) -> channel (Qfloor g) -> channel (Qfloor b) ->
  Utils.rgbToHex r g b = rrggbb (Qfloor r) (Qfloor g) (Qfloor b).
Proof.
  intros Hr Hg Hb. unfold Utils.rgbToHex, rrggbb.
  rewrite (shl_channel (Qfloor r) 16 Hr) by lia.
  rewrite (shl_channel (Qfloor g) 8 Hg) by lia.
  change (Utils.shl 1 24) with 16777216%Z.
  change (2 ^ 16)%Z with 65536%Z. change (2 ^ 8)%Z with 256%Z.
  rewrite toString16_rrggbb by assumption. reflexivity.
Qed.

Lemma channel_digits (v : Z) :
  channel v ->
  (0 <= v / 16 < 16)%Z /\ (0 <= v mod 16 < 16)%Z /\
  (16 * (v / 16) + v mod 16 = v)%Z.
Proof.
  unfold channel. intros Hv.
  pose proof (Z.div_mod v 16 ltac:(lia)).
  pose proof (Z.mod_pos_bound v 16 ltac:(lia)).
  assert (0 <= v / 16)%Z by (apply Z.div_pos; lia).
  assert (v / 16 < 16)%Z by (apply Z.div_lt_upper_bound; lia).
  lia.
Qed.

(** The regular expression matches [#rrggbb]. *)
Lemma execHex_rrggbb (r g b : Z) :
  channel r -> channel g -> channel b ->
  Utils.execHex (rrggbb r g b) =
  Some (Utils.hexChar (r / 16), Utils.hexChar (r mod 16),
        Utils.hexChar (g / 16), Utils.hexChar (g mod 16),
        Utils.hexChar (b / 16), Utils.hexChar (b mod 16)).
Proof.
  intros Hr Hg Hb.
  destruct (channel_digits r Hr) as (Hr1 & Hr0 & _).
  destruct (channel_digits g Hg) as (Hg1 & Hg0 & _).
  destruct (channel_digits b Hb) as (Hb1 & Hb0 & _).
  destruct (hexChar_digit _ Hr1) as [Ar1 _]. destruct (hexChar_digit _ Hr0) as [Ar0 _].
  destruct (hexChar_digit _ Hg1) as [Ag1 _]. destruct (hexChar_digit _ Hg0) as [Ag0 _].
  destruct (hexChar_digit _ Hb1) as [Ab1 _]. destruct (hexChar_digit _ Hb0) as [Ab0 _].
  unfold rrggbb, twoDigits, Utils.execHex.
  cbn [String.append].
  rewrite Ar1, Ar0, Ag1, Ag0, Ab1, Ab0. reflexivity.
Qed.

(** [hexToRgb] reads [#rrggbb] back. *)
Lemma hexToRgb_rrggbb (r g b : Z) :
  channel r -> channel g -> channel b ->
  Utils.hexToRgb (rrggbb r g b) = {| Rgb.r := r; Rgb.g := g; Rgb.b := b |}.
Proof.
  intros Hr Hg Hb.
  destruct (channel_digits r Hr) as (Hr1 & Hr0 & Er).
  destruct (channel_digits g Hg) as (Hg1 & Hg0 & Eg).
  destruct (channel_digits b Hb) as (Hb1 & Hb0 & Eb).
  destruct (hexChar_digit _ Hr1) as [_ Vr1]. destruct (hexChar_digit _ Hr0) as [_ Vr0].
  destruct (hexChar_digit _ Hg1) as [_ Vg1]. destruct (hexChar_digit _ Hg0) as [_ Vg0].
  destruct (hexChar_digit _ Hb1) as [_ Vb1]. destruct (hexChar_digit _ Hb0) as [_ Vb0].
  unfold Utils.hexToRgb. rewrite (execHex_rrggbb r g b Hr Hg Hb).
  unfold Utils.parseInt16. rewrite Vr1, Vr0, Vg1, Vg0, Vb1, Vb0.
  rewrite Er, Eg, Eb. reflexivity.
Qed.

Lemma blend_Q (x y s : Q) :
  0 <= x <= 255 -> 0 <= y <= 255 -> 0 <= s <= 1 ->
  0 <= x + (y - x) * s <= 255.
Proof. intros Hx Hy Hs. split; nra. Qed.

Lemma blend_channel (c t : Z) (speed : Q) :
  channel c -> channel t -> 0 <= speed <= 1 ->
  channel (Qfloor (inject_Z c + (inject_Z t - inject_Z c) * speed)).
Proof.
  unfold channel. intros Hc Ht Hs.
  assert (Hx : 0 <= inject_Z c <= 255).
  { split; [change 0 with (inject_Z 0) | change 255 with (inject_Z 255)];
      rewrite <- Zle_Qle; lia. }
  assert (Hy : 0 <= inject_Z t <= 255).
  { split; [change 0 with (inject_Z 0) | change 255 with (inject_Z 255)];
      rewrite <- Zle_Qle; lia. }
  destruct (blend_Q _ _ _ Hx Hy Hs) as [Hq0 Hq1].
  split.
  - rewrite <- (Qfloor_Z 0). apply Qfloor_resp_le. exact Hq0.
  - rewrite <- (Qfloor_Z 255). apply Qfloor_resp_le. exact Hq1.
Qed.

(** C9, as amended: [hexToRgb] answers white on every string that is not
    six hexadecimal digits with an optional leading [#], and
    [transitionColor], with a speed between 0 and 1, returns a string
    [#rrggbb] whose channels are integers between 0 and 255, which
    [hexToRgb] reads back, whatever the two colour strings are. *)
Theorem transitionColor_well_formed (currentColor targetColor : string) (speed : Q) :
  0 <= speed <= 1 ->
  (~ colourString currentColor -> Utils.hexToRgb currentColor = white) /\
  (~ colourString targetColor -> Utils.hexToRgb targetColor = white) /\
  exists r g b : Z,
    channel r /\ channel g /\ channel b /\
    Utils.transitionColor currentColor targetColor speed = rrggbb r g b /\
    colourString (Utils.transitionColor currentColor targetColor speed) /\
    Utils.hexToRgb (Utils.transitionColor currentColor targetColor speed)
    = {| Rgb.r := r; Rgb.g := g; Rgb.b := b |}.
Proof.
  intros Hs.
  split; [apply hexToRgb_fallback | split; [apply hexToRgb_fallback | ]].
  destruct (hexToRgb_channels currentColor) as (Hcr & Hcg & Hcb).
  destruct (hexToRgb_channels targetColor) as (Htr & Htg & Htb).
  unfold Utils.transitionColor.
  set (cur := Utils.hexToRgb currentColor) in *.
  set (tgt := Utils.hexToRgb targetColor) in *.
  pose proof (blend_channel _ _ speed Hcr Htr Hs) as Hr.
  pose proof (blend_channel _ _ speed Hcg Htg Hs) as Hg.
  pose proof (blend_channel _ _ speed Hcb Htb Hs) as Hb.
  rewrite (rgbToHex_rrggbb _ _ _ Hr Hg Hb).
  eexists. eexists. eexists.
  split; [exact Hr | split; [exact Hg | split; [exact Hb | ]]].
  split; [reflexivity | ].
  split; [ | exact (hexToRgb_rrggbb _ _ _ Hr Hg Hb)].
  apply execHex_colourString.
  rewrite (execHex_rrggbb _ _ _ Hr Hg Hb). discriminate.
Qed.

Lemma transitionColor_well_formed_witness :
  0 <= 0.02 <= 1 /\
  colourString (Utils.transitionColor "not a colour" "#FF8000" 0.02) /\
  Utils.hexToRgb "not a colour" = white.
Proof.
  assert (Hs : 0 <= 0.02 <= 1) by lra.
  split; [exact Hs | ].
  destruct (transitionColor_well_formed "not a colour" "#FF8000" 0.02 Hs)
    as (Hwhite & _ & r & g & b & _ & _ & _ & _ & Hwf & _).
  split; [exact Hwf | ].
  apply Hwhite. intros [[Hlen _] | (body & Heq & _)]; discriminate.
Defined.

(** With the speed 2 the channels pass their target: from white towards
    black each channel is -255, the number that [rgbToHex] writes in base
    16 is 1, and nothing is left of it after [slice(1)]: the result is
    [#], which is no colour. *)
Lemma transitionColor_overshoot :
  Utils.transitionColor "#ffffff" "#000000" 2 = "#"%string /\
  ~ colourString (Utils.transitionColor "#ffffff" "#000000" 2) /\
  ~ (exists r g b : Z,
        Utils.transitionColor "#ffffff" "#000000" 2 = rrggbb r g b).
Proof.
  assert (E : Utils.transitionColor "#ffffff" "#000000" 2 = "#"%string)
    by (vm_compute; reflexivity).
  rewrite E. split; [reflexivity | split].
  - intros [[Hlen _] | (body & Heq & Hlen & _)]; [discriminate Hlen | ].
    injection Heq as <-. discriminate Hlen.
  - intros (r & g & b & H). discriminate H.
Qed.
(** ** Paddle *)

Lemma sign_cases (a : Q) :
  (0 < a /\ Js.sign a = 1) \/ (a < 0 /\ Js.sign a = -1) \/
  (a == 0 /\ Js.sign a = 0).
Proof.
  unfold Js.sign.
  destruct (lt_reflect 0 a); [left; tauto | ].
  destruct (lt_reflect a 0); [right; left; tauto | ].
  right; right. split; [lra | reflexivity].
Qed.

(** C8, as amended: [updateAI] moves the paddle by [paddleSpeed * 0.8]
    towards [targetY], upward or downward by the sign of the offset between
    [targetY] and the centre of the paddle alone (not at all when the offset
    is zero), and then clamps [y] with [Math.max(field.y,
    Math.min(field.y + field.height - height, y))]: the result is never
    above the field, it is within the range when the paddle is no higher
    than the field, and it is [field.y], below the upper end of the range,
    when the paddle is higher than the field. *)
Theorem updateAI_moves_and_clamps {Ref : Type} (deref : Ref -> Params.t)
    (targetY : Q) (canvas : Canvas.t) (updatedParams : option Ref)
    (p : Paddle.t Ref) :
  let params := deref (Paddle.gameParams (Paddle.adopt updatedParams p)) in
  let field := Utils.getFieldOffset canvas params in
  let lo := Field.y field in
  let hi := Field.y field + Field.height field - Paddle.height p in
  let centre := Paddle.y p + Paddle.height p / 2 in
  let step := Params.paddleSpeed params * 0.8 in
  let p' := Paddle.updateAI deref targetY canvas updatedParams p in
  (exists moved,
      Paddle.y p' = Qmax lo (Qmin hi moved) /\
      (centre < targetY -> moved == Paddle.y p + step) /\
      (targetY < centre -> moved == Paddle.y p - step) /\
      (targetY == centre -> moved == Paddle.y p)) /\
  lo <= Paddle.y p' /\
  (Paddle.height p <= Field.height field -> Paddle.y p' <= hi) /\
  Paddle.x p' = Paddle.x p /\ Paddle.height p' = Paddle.height p /\
  (Field.height field < Paddle.height p -> Paddle.y p' == lo /\ hi < Paddle.y p').
Proof.
  intros params field lo hi centre step p'.
  assert (Hadopt : Paddle.y (Paddle.adopt updatedParams p) = Paddle.y p /\
                   Paddle.height (Paddle.adopt updatedParams p) = Paddle.height p /\
                   Paddle.x (Paddle.adopt updatedParams p) = Paddle.x p).
  { destruct updatedParams; auto. }
  destruct Hadopt as (Hy & Hh & Hx).
  set (moved := Paddle.y p + Js.sign (targetY - centre) * step).
  assert (Hp' : Paddle.y p' = Qmax lo (Qmin hi moved)).
  { subst p' moved lo hi centre step field params. unfold Paddle.updateAI.
    cbn [Paddle.y Paddle.set_y]. rewrite Hy, Hh. reflexivity. }
  split; [exists moved; split; [exact Hp' | ] | ].
  - subst moved.
    destruct (sign_cases (targetY - centre)) as [[Hs ->] | [[Hs ->] | [Hs ->]]];
      repeat split; intros; lra.
  - rewrite Hp'. split; [apply Q.le_max_l | ]. split.
    + intros Hfit. apply Q.max_lub; [subst lo hi; lra | apply Q.le_min_l].
    + subst p'. unfold Paddle.updateAI. cbn [Paddle.x Paddle.height Paddle.set_y].
      split; [assumption | split; [assumption | ]].
      intros Htall.
      assert (Hlt : hi < lo) by (subst lo hi; lra).
      assert (Hmin : Qmin hi moved <= hi) by apply Q.le_min_l.
      assert (Hy' : Qmax lo (Qmin hi moved) == lo) by (apply Q.max_l; lra).
      rewrite Hy'. split; [reflexivity | exact Hlt].
Qed.

Lemma updateAI_moves_and_clamps_witness :
  let canvas := {| Canvas.width := 800; Canvas.height := 480 |} in
  let p := {| Paddle.x := 50; Paddle.y := 190; Paddle.width := 15;
              Paddle.height := 100; Paddle.isLeft := true;
              Paddle.gameParams := Params.defaultParams;
              Paddle.color := "#00ffff" |} in
  let p' := Paddle.updateAI (fun r => r) 300 canvas None p in
  Paddle.height p <= Field.height (Utils.getFieldOffset canvas Params.defaultParams) /\
  Paddle.y p' <= 24 + 432 - 100 /\
  Paddle.y p' == 196.4.
Proof.
  intros canvas p p'.
  assert (Hfit : Paddle.height p
                 <= Field.height (Utils.getFieldOffset canvas Params.defaultParams))
    by (cbn; lra).
  split; [exact Hfit | ].
  destruct (updateAI_moves_and_clamps (fun r => r) 300 canvas None p)
    as (_ & _ & Hhi & _).
  split; [ | vm_compute; reflexivity].
  eapply Qle_trans; [apply Hhi; exact Hfit | ]. cbn. qconst. lra.
Defined.

(** A paddle higher than the field, in a low window: it is put at the top
    of the field, below the upper end of the range, so that [y] is not in
    the range of the clamp. *)
Example updateAI_tall_paddle :
  let canvas := {| Canvas.width := 800; Canvas.height := 100 |} in
  let p := {| Paddle.x := 50; Paddle.y := 5; Paddle.width := 15;
              Paddle.height := 100; Paddle.isLeft := true;
              Paddle.gameParams := Params.defaultParams;
              Paddle.color := "#00ffff" |} in
  let p' := Paddle.updateAI (fun r => r) 300 canvas None p in
  Paddle.y p' == 5 /\ ~ (Paddle.y p' <= 5 + 90 - 100).
Proof. vm_compute. intuition congruence. Qed.
(** ** Ball: reset *)

Section ResetReal.
Local Open Scope R_scope.

Lemma cos_angle_half (a : R) :
  - (Rtrigo1.PI / 5) <= a <= Rtrigo1.PI / 5 -> 1 / 2 <= Rtrigo_def.cos a.
Proof.
  intros [Hlo Hhi].
  pose proof PI_RGT_0 as Hpi.
  rewrite <- cos_PI3.
  destruct (Rle_dec 0 a) as [Ha | Ha].
  - apply cos_decr_1; lra.
  - rewrite <- (cos_neg a). apply cos_decr_1; lra.
Qed.

Lemma reset_direction (r2 : R) :
  let d := if Rlt_dec r2 0.5 then 1 else -1 in d * d = 1 /\ Rabs d = 1.
Proof.
  cbv zeta. destruct (Rlt_dec r2 0.5).
  - split; [lra | apply Rabs_R1].
  - split; [lra | ]. unfold Rabs. destruct (Rcase_abs (-1)); lra.
Qed.

Lemma reset_dx_ge_1 (ballSpeed r1 r2 r3 : R) :
  1 <= Rabs (fst (BallReal.reset ballSpeed r1 r2 r3)).
Proof.
  unfold BallReal.reset. cbv zeta. cbn [fst].
  destruct (reset_direction r2) as [_ Hd]. cbv zeta in Hd.
  match goal with
  | |- context [Rlt_dec (Rabs ?e) 1] => destruct (Rlt_dec (Rabs e) 1) as [Hlt | Hge]
  end.
  - rewrite Rmult_1_r, Hd. lra.
  - lra.
Qed.

(** C5, as amended: [reset] always yields [|dx| >= 1]; when [ballSpeed] is
    at least 2 (as the chaos controller keeps it), the speed lies between
    [max(2, 0.8 * ballSpeed)] and [ballSpeed], hence within the tolerance
    [max(2, 0.8 * ballSpeed) * 0.999 .. ballSpeed * 1.001]. *)
Theorem reset_velocity (ballSpeed r1 r2 r3 : R) :
  0 <= r1 < 1 -> 0 <= r3 < 1 ->
  let v := BallReal.reset ballSpeed r1 r2 r3 in
  1 <= Rabs (fst v) /\
  (2 <= ballSpeed ->
   Rmax 2 (ballSpeed * 0.8) <= BallReal.magnitude v <= ballSpeed /\
   Rmax 2 (ballSpeed * 0.8) * 0.999 <= BallReal.magnitude v <= ballSpeed * 1.001).
Proof.
  intros Hr1 Hr3 v. split; [apply reset_dx_ge_1 | ].
  intros Hb. subst v.
  unfold BallReal.reset, BallReal.magnitude. cbv zeta. cbn [fst snd].
  pose proof PI_RGT_0 as Hpi.
  set (angle := r1 * Rtrigo1.PI / 2.5 - Rtrigo1.PI / 5).
  assert (Hangle : - (Rtrigo1.PI / 5) <= angle <= Rtrigo1.PI / 5).
  { subst angle. split; nra. }
  pose proof (cos_angle_half angle Hangle) as Hcos.
  pose proof (COS_bound angle) as [_ Hcos1].
  pose proof (sin2_cos2 angle) as Hunit. unfold Rsqr in Hunit.
  set (m := Rmax 2 (ballSpeed * 0.8)).
  assert (Hm : 2 <= m <= ballSpeed).
  { subst m. split; [apply Rmax_l | apply Rmax_lub; lra]. }
  set (speed := m + r3 * (ballSpeed - m)).
  assert (Hspeed : m <= speed <= ballSpeed) by (subst speed; split; nra).
  destruct (reset_direction r2) as [Hdd Hd]. cbv zeta in Hdd, Hd.
  set (d := if Rlt_dec r2 0.5 then 1 else -1) in *.
  set (c := Rtrigo_def.cos angle) in *. set (s := Rtrigo_def.sin angle) in *.
  assert (Habs : Rabs (c * speed * d) = c * speed).
  { rewrite Rabs_mult, Hd, Rmult_1_r. apply Rabs_pos_eq. nra. }
  destruct (Rlt_dec (Rabs (c * speed * d)) 1) as [Hlt | _].
  { exfalso. rewrite Habs in Hlt. nra. }
  assert (Hmag : sqrt (c * speed * d * (c * speed * d) + s * speed * (s * speed)) = speed).
  { replace (c * speed * d * (c * speed * d) + s * speed * (s * speed))
      with ((d * d) * (c * c) * (speed * speed) + s * s * (speed * speed)) by ring.
    rewrite Hdd.
    replace (1 * (c * c) * (speed * speed) + s * s * (speed * speed))
      with ((s * s + c * c) * (speed * speed)) by ring.
    rewrite Hunit, Rmult_1_l. apply sqrt_square. lra. }
  rewrite Hmag. repeat split; nra.
Qed.

End ResetReal.

Lemma reset_velocity_witness :
  (0 <= 0.5 < 1)%R /\ (0 <= 0.25 < 1)%R /\ (2 <= 3.5)%R /\
  (BallReal.magnitude (BallReal.reset 3.5 0.5 0.75 0.25) <= 3.5)%R.
Proof.
  assert (H1 : (0 <= 0.5 < 1)%R) by lra.
  assert (H3 : (0 <= 0.25 < 1)%R) by lra.
  assert (Hb : (2 <= 3.5)%R) by lra.
  split; [exact H1 | split; [exact H3 | split; [exact Hb | ]]].
  exact (proj2 (proj1 (proj2 (reset_velocity 3.5 0.5 0.75 0.25 H1 H3) Hb))).
Defined.

(** With [ballSpeed = 1] the speed floor 2 exceeds the ball speed: the ball
    leaves with speed 2, above [ballSpeed * 1.001]. *)
Lemma reset_slow_ball :
  (BallReal.magnitude (BallReal.reset 1 0.5 0 0) = 2)%R /\
  ~ (Rmax 2 (1 * 0.8) * 0.999 <= BallReal.magnitude (BallReal.reset 1 0.5 0 0)
     <= 1 * 1.001)%R.
Proof.
  assert (Hmag : (BallReal.magnitude (BallReal.reset 1 0.5 0 0) = 2)%R).
  { unfold BallReal.reset, BallReal.magnitude. cbv zeta.
    replace (0.5 * Rtrigo1.PI / 2.5 - Rtrigo1.PI / 5)%R with 0%R by lra.
    rewrite cos_0, sin_0.
    assert (Hm : Rmax 2 (1 * 0.8) = 2%R) by (apply Rmax_left; lra).
    rewrite Hm.
    destruct (Rlt_dec 0 0.5) as [_ | Hn]; [ | exfalso; lra].
    replace (1 * (2 + 0 * (1 - 2)) * 1)%R with 2%R by ring.
    destruct (Rlt_dec (Rabs 2) 1) as [Hlt | _].
    { exfalso. rewrite Rabs_pos_eq in Hlt; lra. }
    cbn [fst snd].
    replace (2 * 2 + 0 * (2 + 0 * (1 - 2)) * (0 * (2 + 0 * (1 - 2))))%R
      with (2 * 2)%R by ring.
    apply sqrt_square. lra. }
  split; [exact Hmag | ]. rewrite Hmag. lra.
Qed.
(** ** Game: the number of balls *)

(** A property of the owner's state that both callbacks keep is kept by
    [Ball.update]. *)
Lemma update_preserves {host : MathHost} {Ref G : Type} (P : G -> Prop)
    (canvas : Canvas.t) (updateScore : option (Side.t -> G -> G))
    (timestamp : Q) (paddleLeft paddleRight : Paddle.t Ref) (shakeAmount : Q)
    (createMultiball : option (Ball.t -> G -> World -> G * World))
    (b : Ball.t) (g : G) (w : World) :
  (forall f s g0, updateScore = Some f -> P g0 -> P (f s g0)) ->
  (forall callback b0 g0 w0,
      createMultiball = Some callback -> P g0 -> P (fst (callback b0 g0 w0))) ->
  P g ->
  P (snd (fst (Ball.update canvas updateScore timestamp paddleLeft paddleRight
                 shakeAmount createMultiball b g w))).
Proof.
  intros Hscore Hmulti Hg.
  assert (Hscored : forall side ts b0 g0 w0,
             P g0 -> P (snd (fst (Ball.scored canvas updateScore side ts b0 g0 w0)))).
  { intros side ts b0 g0 w0 H0. unfold Ball.scored.
    assert (H1 : P match updateScore with Some f => f side g0 | None => g0 end).
    { destruct updateScore as [f | ]; [apply (Hscore f); auto | exact H0]. }
    destruct (Ball.shouldRespawn b0); [ | exact H1].
    destruct (Ball.reset canvas (Ball.set_lastScoreTime b0 ts) w0). exact H1. }
  unfold Ball.update.
  destruct (_ && _); [exact Hg | ].
  cbv zeta.
  destruct (Ball.handleWallCollision _ _ _) as [s1 wallHit].
  match goal with
  | |- context [if Ball.dx s1 <? 0 then ?A else ?B] =>
      destruct (if Ball.dx s1 <? 0 then A else B) as [s2 hitL]
  end.
  match goal with
  | |- context [if Ball.dx s2 >? 0 then ?A else ?B] =>
      destruct (if Ball.dx s2 >? 0 then A else B) as [s3 hitR]
  end.
  match goal with
  | |- context [if hitR then ?A else ?B] =>
      assert (H1 : P (snd (fst (if hitR then A else B))));
      [ | destruct (if hitR then A else B) as [[sh g1] w1] ]
  end.
  { destruct hitR; [ | exact Hg].
    destruct createMultiball as [callback | ] eqn:Hcb; [ | exact Hg].
    destruct (Params.multiball _); [ | exact Hg].
    unfold random. destruct (_ <? _); [ | exact Hg].
    match goal with
    | |- context [callback ?b0 ?g0 ?w0] =>
        pose proof (Hmulti callback b0 g0 w0 eq_refl Hg) as Hc;
        destruct (callback b0 g0 w0)
    end.
    exact Hc. }
  cbn [fst snd] in H1.
  match goal with
  | |- context [if ?c then Ball.scored ?cv ?us ?sd ?ts ?bb ?gg ?ww else ?B] =>
      assert (H2 : P (snd (fst (if c then Ball.scored cv us sd ts bb gg ww else B))));
      [ destruct c; [apply Hscored; exact H1 | exact H1]
      | destruct (if c then Ball.scored cv us sd ts bb gg ww else B) as [[s4 g2] w2] ]
  end.
  cbn [fst snd] in H2.
  match goal with
  | |- context [if ?c then Ball.scored ?cv ?us ?sd ?ts ?bb ?gg ?ww else ?B] =>
      assert (H3 : P (snd (fst (if c then Ball.scored cv us sd ts bb gg ww else B))));
      [ destruct c; [apply Hscored; exact H2 | exact H2]
      | destruct (if c then Ball.scored cv us sd ts bb gg ww else B) as [[s5 g3] w3] ]
  end.
  exact H3.
Qed.

Ltac game_simpl :=
  cbn [fst snd Game.balls Game.maxBalls Game.set_canvas Game.set_ownParams
       Game.set_params Game.set_shakeAmount Game.set_gameActive
       Game.set_leftScore Game.set_rightScore Game.set_leftPaddleAI
       Game.set_rightPaddleAI Game.set_leftManualControl
       Game.set_invertControlsWarningActive Game.set_lastMultiballTime
       Game.set_multiballActive Game.set_multiballInterval Game.set_keys
       Game.set_paddleLeft Game.set_paddleRight Game.set_balls
       Game.set_chaosController Game.set_intervals Game.set_nextInterval
       Game.updateWarnings Game.updateScore Game.clearInterval] in *.

Lemma replaceNth_length (i : nat) (b : Ball.t) (l : list Ball.t) :
  List.length (Game.replaceNth i b l) = List.length l.
Proof.
  revert i. induction l as [ | a l IH]; intros [ | i]; cbn; auto.
Qed.

Section BallCount.
Context {host : MathHost}.

Lemma createMultiball_atMost (m n : nat) (b : Ball.t) (g : Game.t) (w : World) :
  (m <= n)%nat -> atMost m n g -> atMost m n (fst (Game.createMultiball b g w)).
Proof.
  intros Hmn [Hm Hn]. unfold Game.createMultiball.
  destruct (Nat.leb_spec (Game.maxBalls g) (List.length (Game.balls g)));
    [split; assumption | ].
  destruct (negb _); [split; assumption | ].
  unfold performanceNow. destruct (_ <? _); [split; assumption | ].
  unfold random.
  destruct (Ball.constructor _ _ _ _) as [newBall w'].
  split; cbn; [exact Hm | ]. rewrite length_app. cbn. lia.
Qed.

Lemma updateScore_atMost (m n : nat) (s : Side.t) (g : Game.t) :
  atMost m n g -> atMost m n (Game.updateScore s g).
Proof. intros H. destruct s; exact H. Qed.

(** The loop over the balls ends within its fuel and keeps the bound. *)
Lemma updateBalls_atMost (m n fuel : nat) (timestamp : Q) (i : nat)
    (g : Game.t) (w : World) :
  (m <= n)%nat -> atMost m n g -> (n - i <= fuel)%nat ->
  exists g' w', Game.updateBalls fuel timestamp i g w = Some (g', w') /\
                atMost m n g'.
Proof.
  intros Hmn. revert i g w.
  induction fuel as [ | fuel IH]; intros i g w Hg Hfuel.
  - cbn. destruct (List.nth_error (Game.balls g) i) eqn:E.
    + exfalso. assert (i < List.length (Game.balls g))%nat
        by (apply nth_error_Some; congruence).
      destruct Hg as [_ Hn]. lia.
    + eauto.
  - cbn [Game.updateBalls].
    destruct (List.nth_error (Game.balls g) i) as [ball | ] eqn:E; [ | eauto].
    assert (Hi : (i < List.length (Game.balls g))%nat)
      by (apply nth_error_Some; congruence).
    cbv zeta.
    match goal with
    | |- context [Ball.update ?cv ?us ?ts ?pl ?pr ?sh ?cb ?bb ?gg ?ww] =>
        pose proof (update_preserves (atMost m n) cv us ts pl pr sh cb bb gg ww) as Hup;
        destruct (Ball.update cv us ts pl pr sh cb bb gg ww) as [[[ball' sh'] g1] w1]
    end.
    cbn [fst snd] in Hup.
    assert (Hg1 : atMost m n g1).
    { apply Hup.
      - intros f s g0 Hf. injection Hf as <-. apply updateScore_atMost.
      - intros callback b0 g0 w0 Hc. injection Hc as <-.
        apply createMultiball_atMost. exact Hmn.
      - destruct Hg as [Hm Hn]. split; cbn; [exact Hm | ].
        rewrite replaceNth_length. exact Hn. }
    apply IH.
    + destruct Hg1 as [Hm Hn]. split; cbn; [exact Hm | ].
      rewrite replaceNth_length. exact Hn.
    + lia.
Qed.

Lemma shake_atMost (m n : nat) (g : Game.t) (w : World) :
  atMost m n g -> atMost m n (fst (Game.shake g w)).
Proof.
  intros [Hm Hn]. unfold Game.shake, random.
  destruct (_ && _); cbv zeta.
  - destruct (Game.shakeAmount _ <? 0.1);
      destruct (Params.screenShake _); split; game_simpl; assumption.
  - destruct (Params.screenShake _); split; assumption.
Qed.

Lemma syncPaddles_atMost (m n : nat) (field : Field.t) (g : Game.t) :
  atMost m n g -> atMost m n (Game.syncPaddles field g).
Proof. intros H. exact H. Qed.

Lemma movePaddles_atMost (m n : nat) (g : Game.t) :
  atMost m n g -> atMost m n (Game.movePaddles g).
Proof.
  intros [Hm Hn]. unfold Game.movePaddles.
  destruct (negb (Game.leftPaddleAI g)); cbv zeta;
    destruct (negb (Game.rightPaddleAI _)); split; game_simpl; assumption.
Qed.

Lemma population_atMost (m : nat) (g : Game.t) (w : World) :
  (1 <= m)%nat -> atMost m m g -> atMost m m (fst (Game.population g w)).
Proof.
  intros Hm1 [Hm Hn]. unfold Game.population.
  set (g4 := Game.set_balls g
               (List.filter (fun ball => negb (Ball.needsRemoval ball)) (Game.balls g))).
  assert (H4 : atMost m m g4).
  { subst g4. split; game_simpl; [exact Hm | ].
    pose proof (filter_length_le (fun ball => negb (Ball.needsRemoval ball))
                  (Game.balls g)). lia. }
  clearbody g4. cbv zeta.
  match goal with
  | |- context [match Game.balls g4 with [] => ?A | _ :: _ => (g4, ?ww) end] =>
      assert (H5 : atMost m m (fst (match Game.balls g4 with
                                    | [] => A | _ :: _ => (g4, ww) end)));
      [ | destruct (match Game.balls g4 with [] => A | _ :: _ => (g4, ww) end)
            as [g5 w5] ]
  end.
  { destruct (Game.balls g4) eqn:E; [ | exact H4].
    destruct (Ball.constructor _ _ _ _) as [newBall w4].
    destruct H4 as [Hm4 _]. split; game_simpl; [exact Hm4 | ].
    cbn. exact Hm1. }
  cbn [fst] in *. destruct H5 as [Hm5 Hn5].
  destruct (_ && _ && _).
  - unfold Game.createMultiballSequence.
    destruct (Game.multiballInterval _) as [[ | id] | ];
      split; game_simpl; assumption.
  - destruct (negb (Params.multiball _)); [ | split; assumption].
    split; game_simpl; [exact Hm5 | ].
    destruct (Game.balls g5) as [ | first rest]; [exact Hn5 | ].
    cbn [List.length] in *. rewrite length_map. exact Hn5.
Qed.

(** A frame ends, and keeps the bound on the number of balls. *)
Lemma gameLoop_atMost (m : nat) (timestamp : Q) (g : Game.t) (w : World) :
  (1 <= m)%nat -> atMost m m g ->
  exists g' w', Game.gameLoop timestamp g w = Some (g', w') /\ atMost m m g'.
Proof.
  intros Hm1 Hg. unfold Game.gameLoop.
  pose proof (shake_atMost m m g w Hg) as H1.
  destruct (Game.shake g w) as [g1 w1]. cbn [fst] in H1.
  destruct (Game.gameActive g1); [ | eauto].
  destruct (Chaos.update _ _ _ _) as [chaos w2].
  set (g2 := Game.movePaddles _).
  assert (H2 : atMost m m g2).
  { subst g2. apply movePaddles_atMost, syncPaddles_atMost.
    destruct H1 as [Hm Hn]. split; assumption. }
  clearbody g2.
  assert (Hfuel : (m - 0 <= List.length (Game.balls g2) + Game.maxBalls g2)%nat).
  { destruct H2 as [Hm Hn]. lia. }
  destruct (updateBalls_atMost m m _ timestamp 0 g2 w2 (Nat.le_refl m) H2 Hfuel)
    as (g3 & w3 & -> & H3).
  pose proof (population_atMost m g3 w3 Hm1 H3) as H4.
  destruct (Game.population g3 w3) as [g4 w4]. eauto.
Qed.

Lemma intervalFire_atMost (m : nat) (id : nat) (g : Game.t) (w : World) :
  atMost m m g -> atMost m m (fst (Game.intervalFire id g w)).
Proof.
  intros [Hm Hn]. unfold Game.intervalFire.
  destruct (List.find _ _) as [[id' captured] | ]; [ | split; assumption].
  unfold Game.multiballCallback.
  destruct (Z.geb _ _); cbn [orb].
  { destruct (Game.multiballInterval g); split; assumption. }
  destruct (negb _); cbn [orb].
  { destruct (Game.multiballInterval g); split; assumption. }
  destruct (Nat.leb_spec (Game.maxBalls g) (List.length (Game.balls g))).
  { destruct (Game.multiballInterval g); split; assumption. }
  unfold random. destruct (Ball.constructor _ _ _ _) as [newBall w'].
  split; cbn; [exact Hm | ]. rewrite length_app. cbn. lia.
Qed.

Lemma createGameObjects_atMost (m : nat) (g : Game.t) (w : World) :
  (1 <= m)%nat -> Game.maxBalls g = m ->
  atMost m m (fst (Game.createGameObjects g w)).
Proof.
  intros Hm1 Hm. unfold Game.createGameObjects. cbv zeta.
  destruct (Ball.constructor _ _ _ _) as [mainBall w'].
  split; cbn; [ | exact Hm1].
  destruct (Params.paddleColor _); [ | exact Hm].
  unfold Game.setPaddleColor. destruct (Game.params g); exact Hm.
Qed.

Lemma step_atMost (e : event) (g : Game.t) (w : World) :
  atMost 5 5 g ->
  exists g' w', Game.step e g w = Some (g', w') /\ atMost 5 5 g'.
Proof.
  intros Hg. destruct e; cbn [Game.step];
    try (eexists; eexists; split; [reflexivity | exact Hg]).
  - apply gameLoop_atMost; [lia | exact Hg].
  - pose proof (intervalFire_atMost 5 id g w Hg) as H.
    destruct (Game.intervalFire id g w). eauto.
  - eexists. eexists. split; [reflexivity | ]. unfold Game.handleKeyDown.
    cbv zeta. repeat match goal with |- context [if ?c then _ else _] => destruct c end;
      exact Hg.
  - eexists. eexists. split; [reflexivity | ]. unfold Game.handleTouchStart.
    destruct (_ <? _); exact Hg.
  - pose proof (createGameObjects_atMost 5
                  (Game.set_balls
                     (Game.set_shakeAmount
                        (Game.set_params
                           (Game.set_ownParams
                              (Game.set_chaosController
                                 (Game.set_leftManualControl
                                    (Game.set_rightPaddleAI
                                       (Game.set_leftPaddleAI
                                          (Game.set_rightScore
                                             (Game.set_leftScore
                                                (Game.set_gameActive g true) 0) 0)
                                          true) true) false)
                                 (Chaos.reset (Game.chaosController g)))
                              Params.defaultParams) OwnParams) 0) [])
                  w ltac:(lia) (proj1 Hg)) as H.
    unfold Game.reset. cbv zeta.
    destruct (Game.createGameObjects _ w) as [g1 w1]. eauto.
  - pose proof (createMultiball_atMost 5 5 sourceBall g w (Nat.le_refl 5) Hg) as H.
    destruct (Game.createMultiball sourceBall g w). eauto.
Qed.

End BallCount.

Lemma reachable_atMost {host : MathHost} (g : Game.t) :
  reachable g -> atMost 5 5 g.
Proof.
  induction 1 as [iw ih w | e g g' w w' Hr IH Hstep].
  - unfold Game.init. cbv zeta.
    match goal with
    | |- context [Game.createGameObjects ?g0 ?w0] =>
        pose proof (createGameObjects_atMost 5 g0 w0 ltac:(lia) eq_refl) as H;
        destruct (Game.createGameObjects g0 w0) as [g1 w1]
    end.
    exact H.
  - destruct (step_atMost e g w IH) as (g2 & w2 & Hs & H2).
    rewrite Hs in Hstep. injection Hstep as <- <-. exact H2.
Qed.

(** C7: in every state of the game that the host can bring about, through
    frames (with the multiball spawns of paddle hits), firings of the
    spawn-sequence interval, input, resizing and resets, in any order, the
    number of balls never exceeds [maxBalls], which is 5. *)
Theorem balls_never_exceed_maxBalls {host : MathHost} (g : Game.t) :
  reachable g ->
  (List.length (Game.balls g) <= Game.maxBalls g)%nat /\ Game.maxBalls g = 5%nat.
Proof.
  intros Hr. destruct (reachable_atMost g Hr) as [Hm Hn].
  rewrite Hm. split; [exact Hn | reflexivity].
Qed.

Lemma balls_never_exceed_maxBalls_witness :
  let g := fst (Game.init (host := taylorHost) 1000 600 (steadyWorld 0.5)) in
  reachable (host := taylorHost) g /\
  (List.length (Game.balls g) <= Game.maxBalls g)%nat.
Proof.
  intros g.
  assert (Hr : reachable (host := taylorHost) g) by apply reachable_init.
  split; [exact Hr | ].
  exact (proj1 (balls_never_exceed_maxBalls (host := taylorHost) g Hr)).
Defined.
(** ** Chaos controller: parameter bounds *)

Lemma updateParameter_rand (t : Q) (p : ChaosParam.t) (gp : Params.t) (w : World) :
  rand (snd (Chaos.updateParameter t p gp w)) = rand w.
Proof.
  unfold Chaos.updateParameter.
  destruct (t >=? ChaosParam.nextChange p); cbn [fst snd random rand];
    repeat match goal with
    | |- context [match ?o with Some _ => _ | None => _ end] => destruct o
    | |- context [if ?c then _ else _] => destruct c
    end; reflexivity.
Qed.

Lemma progress_nonneg (t s d : Q) : s <= t -> t < s + d -> 0 <= (t - s) / d.
Proof.
  intros Hs Hd. apply Qle_shift_div_l; lra.
Qed.

Lemma blend_bounds (lo hi c tg f : Q) :
  lo <= c <= hi -> lo <= tg <= hi -> 0 <= f ->
  lo <= c + (tg - c) * Qmin f 0.1 <= hi.
Proof.
  intros Hc Ht Hf.
  assert (H0 : 0 <= Qmin f 0.1) by (apply Q.min_glb; lra).
  assert (H1 : Qmin f 0.1 <= 0.1) by apply Q.le_min_r.
  set (m := Qmin f 0.1) in *. split; nra.
Qed.

Ltac entry_simpl :=
  cbn [fst snd rand randPos
       ChaosParam.transitionStart ChaosParam.transitionDuration
       ChaosParam.target ChaosParam.current ChaosParam.min ChaosParam.max
       ChaosParam.nextChange ChaosParam.isBoolean ChaosParam.name] in *.

Ltac blend_step p Hcur Htg :=
  try match goal with
  | |- context [?c + (?tg - ?c) * Qmin ?f 0.1] =>
      assert (ChaosParam.min p <= c + (tg - c) * Qmin f 0.1 <= ChaosParam.max p)
        by (apply blend_bounds;
            [exact Hcur | exact Htg | apply progress_nonneg; lra])
  end.

Lemma updateParameter_ok (t0 t : Q) (p : ChaosParam.t) (gp : Params.t) (w : World) :
  fair w -> t0 <= t -> entryOk t0 p ->
  entryOk t (fst (fst (Chaos.updateParameter t p gp w))).
Proof.
  intros Hfair Ht (Hmm & Hcur & Hstart).
  unfold Chaos.updateParameter.
  destruct (t >=? ChaosParam.nextChange p).
  - unfold random. entry_simpl.
    destruct (Hfair (randPos w)) as [Hr0 Hr1].
    set (r := rand w (randPos w)) in *.
    assert (Htg : ChaosParam.min p <= ChaosParam.min p + r * (ChaosParam.max p - ChaosParam.min p)
                  <= ChaosParam.max p) by (split; nra).
    match goal with
    | |- context [t <? ?e] => destruct (lt_reflect t e) as [Hlt | Hlt]
    end;
      destruct (ChaosParam.isBoolean p); unfold entryOk, inBounds; entry_simpl;
      blend_step p Hcur Htg; unfold inBounds in Hcur; repeat split; lra.
  - entry_simpl. destruct (ChaosParam.transitionStart p) as [s | ] eqn:Es.
    + destruct Hstart as (Hs & Htg).
      destruct (lt_reflect t (s + ChaosParam.transitionDuration p)) as [Hlt | Hlt];
        destruct (ChaosParam.isBoolean p); unfold entryOk, inBounds; entry_simpl;
        rewrite ?Es; blend_step p Hcur Htg; unfold inBounds in Hcur;
        repeat split; lra.
    + destruct (ChaosParam.isBoolean p); unfold entryOk, inBounds; entry_simpl;
        rewrite Es; unfold inBounds in Hcur; tauto.
Qed.

Lemma updateEach_rand (t : Q) (ps : list ChaosParam.t) (gp : Params.t) (w : World) :
  rand (snd (Chaos.updateEach t ps gp w)) = rand w.
Proof.
  revert gp w. induction ps as [ | p ps IH]; intros gp w; [reflexivity | ].
  cbn [Chaos.updateEach].
  pose proof (updateParameter_rand t p gp w) as Hp.
  destruct (Chaos.updateParameter t p gp w) as [[p' gp1] w1].
  pose proof (IH gp1 w1) as Hr.
  destruct (Chaos.updateEach t ps gp1 w1) as [[ps' gp2] w2].
  cbn [fst snd] in *. congruence.
Qed.

Lemma fair_rand (w w' : World) : rand w' = rand w -> fair w -> fair w'.
Proof. unfold fair. intros -> H. exact H. Qed.

Lemma updateEach_ok (t0 t : Q) (ps : list ChaosParam.t) (gp : Params.t) (w : World) :
  fair w -> t0 <= t -> Forall (entryOk t0) ps ->
  Forall (entryOk t) (fst (fst (Chaos.updateEach t ps gp w))).
Proof.
  intros Hfair Ht Hps. revert gp w Hfair.
  induction Hps as [ | p ps Hp Hps IH]; intros gp w Hfair; [constructor | ].
  cbn [Chaos.updateEach].
  pose proof (updateParameter_ok t0 t p gp w Hfair Ht Hp) as Hp'.
  pose proof (updateParameter_rand t p gp w) as Hr.
  destruct (Chaos.updateParameter t p gp w) as [[p' gp1] w1].
  cbn [fst snd] in *.
  pose proof (IH gp1 w1 (fair_rand _ _ Hr Hfair)) as Hrest.
  destruct (Chaos.updateEach t ps gp1 w1) as [[ps' gp2] w2].
  cbn [fst snd] in *. constructor; assumption.
Qed.

Lemma entryOk_later (t0 t : Q) (p : ChaosParam.t) :
  t0 <= t -> entryOk t0 p -> entryOk t p.
Proof.
  unfold entryOk. intros Ht (Hmm & Hcur & Hs).
  split; [exact Hmm | split; [exact Hcur | ]].
  destruct (ChaosParam.transitionStart p); [ | exact I].
  destruct Hs as (Hs & Htg). split; [lra | exact Htg].
Qed.

Lemma updateEachColor_rand (t : Q) (ps : list ColorParam.t) (tp gp : Params.t) (w : World) :
  rand (snd (Chaos.updateEachColor t ps tp gp w)) = rand w.
Proof.
  revert tp gp w. induction ps as [ | p ps IH]; intros tp gp w; [reflexivity | ].
  cbn [Chaos.updateEachColor].
  assert (Hp : rand (snd (Chaos.updateColor t p tp gp w)) = rand w).
  { unfold Chaos.updateColor, Chaos.getRandomColor, random.
    destruct (t >=? ColorParam.nextChange p); reflexivity. }
  destruct (Chaos.updateColor t p tp gp w) as [[[p' tp1] gp1] w1].
  pose proof (IH tp1 gp1 w1) as Hr.
  destruct (Chaos.updateEachColor t ps tp1 gp1 w1) as [[[ps' tp2] gp2] w2].
  cbn [fst snd] in *. congruence.
Qed.

(** One call of [update] keeps every entry as [entryOk] describes it. *)
Lemma update_ok (t0 t : Q) (active : bool) (c : Chaos.t) (w : World) :
  fair w -> t0 <= t -> Forall (entryOk t0) (Chaos.chaosParams c) ->
  Forall (entryOk t) (Chaos.chaosParams (fst (Chaos.update t active c w))) /\
  fair (snd (Chaos.update t active c w)).
Proof.
  intros Hfair Ht Hok.
  assert (Hlater : Forall (entryOk t) (Chaos.chaosParams c)).
  { eapply Forall_impl; [ | exact Hok]. intros p. apply entryOk_later, Ht. }
  unfold Chaos.update.
  destruct active; cbn [negb]; [ | split; assumption].
  set (c1 := if Chaos.startTime c === 0 then Chaos.set_startTime c t else c).
  assert (Hc1 : Chaos.chaosParams c1 = Chaos.chaosParams c).
  { subst c1. destruct (_ === _); reflexivity. }
  destruct (_ <? _); [cbn [fst snd]; rewrite Hc1; split; assumption | ].
  unfold Chaos.updateParameters. rewrite Hc1.
  pose proof (updateEach_ok t0 t (Chaos.chaosParams c) (Chaos.gameParams c1) w
                Hfair Ht Hok) as Hps.
  pose proof (updateEach_rand t (Chaos.chaosParams c) (Chaos.gameParams c1) w) as Hr.
  destruct (Chaos.updateEach t (Chaos.chaosParams c) (Chaos.gameParams c1) w)
    as [[ps' gp'] w1].
  cbn [fst snd] in *.
  unfold Chaos.updateColors.
  match goal with
  | |- context [Chaos.updateEachColor ?a ?b ?c ?d ?e] =>
      pose proof (updateEachColor_rand a b c d e) as Hr2;
      destruct (Chaos.updateEachColor a b c d e) as [[[cps tp2] gp2] w2]
  end.
  cbn [fst snd] in *.
  unfold Chaos.updateInvertedControls.
  destruct (_ >=? _); cbn [fst snd Chaos.chaosParams Chaos.with_params random].
  - split; [exact Hps | ]. apply fair_rand with (w := w); [ | exact Hfair].
    cbn [rand]. congruence.
  - split; [exact Hps | ]. apply fair_rand with (w := w); [congruence | exact Hfair].
Qed.


Lemma constructor_entryOk (t0 : Q) (d : Params.t) :
  2 <= Params.ballSpeed d <= 7 ->
  5 <= Params.ballSize d <= 15 ->
  60 <= Params.paddleSize d <= 130 ->
  10 <= Params.paddleWidth d <= 25 ->
  5 <= Params.paddleSpeed d <= 12 ->
  0.7 <= Params.fieldWidth d <= 0.95 ->
  0.7 <= Params.fieldHeight d <= 0.95 ->
  Forall (entryOk t0) (Chaos.chaosParams (Chaos.constructor d)).
Proof.
  intros. cbn [Chaos.constructor Chaos.chaosParams].
  repeat constructor; unfold entryOk, inBounds, Chaos.entry; entry_simpl;
    try lra; destruct (Params.multiball d); lra.
Qed.

(** C1, as amended: when the timestamps of the calls never decrease, every
    chaos parameter that starts within its bounds stays within them after
    every call of [update], whatever the random draws. *)
Theorem updates_within_bounds
    (t0 : Q) (calls : list (Q * bool)) (c : Chaos.t) (w : World) :
  fair w ->
  monotone t0 calls ->
  Forall (entryOk t0) (Chaos.chaosParams c) ->
  Forall inBounds (Chaos.chaosParams (fst (updates calls c w))).
Proof.
  intros Hfair Hmono Hok.
  revert t0 c w Hfair Hmono Hok.
  induction calls as [ | [t active] calls IH]; intros t0 c w Hfair Hmono Hok.
  - cbn [updates fst]. eapply Forall_impl; [ | exact Hok].
    intros p Hp. apply Hp.
  - cbn [updates]. destruct Hmono as [Ht Hmono].
    destruct (update_ok t0 t active c w Hfair Ht Hok) as [Hok' Hfair'].
    destruct (Chaos.update t active c w) as [c' w']. cbn [fst snd] in *.
    exact (IH t c' w' Hfair' Hmono Hok').
Qed.

Lemma updates_within_bounds_witness :
  let w := {| rand := fun _ => 0.5; randPos := 0; clock := fun _ => 0; clockPos := 0 |} in
  let calls := [(5000, true); (20000, true); (20016, true)] in
  fair w /\ monotone 0 calls /\
  Forall inBounds
    (Chaos.chaosParams (fst (updates calls (Chaos.constructor Params.defaultParams) w))).
Proof.
  intros w calls.
  assert (Hfair : fair w) by (intros n; cbn; lra).
  assert (Hmono : monotone 0 calls) by (cbn; lra).
  split; [exact Hfair | split; [exact Hmono | ]].
  apply (updates_within_bounds 0 calls (Chaos.constructor Params.defaultParams) w
           Hfair Hmono).
  apply constructor_entryOk; cbn; lra.
Defined.

(** With a timestamp that goes back, the progress of a transition is
    negative and the value moves away from its target: the ball speed,
    bounded by 7, reaches 11. *)
Lemma updates_backwards_out_of_bounds :
  let w := {| rand := fun _ => 0; randPos := 0; clock := fun _ => 0; clockPos := 0 |} in
  let calls := [(5000, true); (30000, true); (20000, true)] in
  let c := fst (updates calls (Chaos.constructor Params.defaultParams) w) in
  fair w /\
  Forall inBounds (Chaos.chaosParams (Chaos.constructor Params.defaultParams)) /\
  ~ Forall inBounds (Chaos.chaosParams c) /\
  (exists p rest, Chaos.chaosParams c = p :: rest /\
                  ChaosParam.name p = Params.BallSpeed /\
                  ChaosParam.max p == 7 /\ ChaosParam.current p == 11).
Proof.
  intros w calls c.
  split; [intros n; cbn; lra | ].
  split.
  { repeat constructor; unfold inBounds; cbn; lra. }
  remember (Chaos.chaosParams c) as ps eqn:E. vm_compute in E. subst ps.
  split.
  - intros H. apply Forall_inv in H. revert H. vm_compute. intuition congruence.
  - eexists. eexists. split; [reflexivity | ].
    vm_compute. intuition congruence.
Qed.
(** ** More on utils.js *)

(** X1: the field is centred in the canvas, and lies within it when the
    canvas has non-negative dimensions and the two ratios are in [0, 1]. *)
Theorem getFieldOffset_centred (canvas : Canvas.t) (gameParams : Params.t) :
  0 <= Canvas.width canvas -> 0 <= Canvas.height canvas ->
  0 <= Params.fieldWidth gameParams <= 1 ->
  0 <= Params.fieldHeight gameParams <= 1 ->
  let field := Utils.getFieldOffset canvas gameParams in
  Field.x field + Field.width field / 2 == Canvas.width canvas / 2 /\
  Field.y field + Field.height field / 2 == Canvas.height canvas / 2 /\
  (0 <= Field.x field /\ Field.x field + Field.width field <= Canvas.width canvas) /\
  (0 <= Field.y field /\ Field.y field + Field.height field <= Canvas.height canvas) /\
  0 <= Field.width field /\ 0 <= Field.height field.
Proof.
  intros Hw Hh Hrw Hrh. unfold Utils.getFieldOffset. cbn. qconst.
  set (cw := Canvas.width canvas) in *. set (ch := Canvas.height canvas) in *.
  set (rw := Params.fieldWidth gameParams) in *.
  set (rh := Params.fieldHeight gameParams) in *.
  repeat split; nra.
Qed.

Lemma getFieldOffset_centred_witness :
  let canvas := {| Canvas.width := 800; Canvas.height := 480 |} in
  let field := Utils.getFieldOffset canvas Params.defaultParams in
  0 <= Canvas.width canvas /\
  Field.x field + Field.width field / 2 == Canvas.width canvas / 2.
Proof.
  intros canvas field.
  assert (Hw : 0 <= Canvas.width canvas) by (cbn; lra).
  split; [exact Hw | ].
  apply (getFieldOffset_centred canvas Params.defaultParams); cbn; lra.
Defined.

Lemma Qfloor_channel (q : Q) : 0 <= q -> q < 256 -> channel (Qfloor q).
Proof.
  intros H0 H1. unfold channel. split.
  - rewrite <- (Qfloor_Z 0). apply Qfloor_resp_le. exact H0.
  - assert (H : (Qfloor q < 256)%Z); [ | lia].
    apply Z.lt_nge. intros Hge.
    assert (Hq : inject_Z 256 <= inject_Z (Qfloor q)) by (rewrite <- Zle_Qle; exact Hge).
    pose proof (Qfloor_le q) as Hle. change (inject_Z 256) with 256 in Hq. lra.
Qed.

(** X2: [hexToRgb] reads back what [rgbToHex] writes: for three numbers in
    [0, 256), the channels are their integer parts. *)
Theorem hexToRgb_rgbToHex (r g b : Q) :
  0 <= r -> r < 256 -> 0 <= g -> g < 256 -> 0 <= b -> b < 256 ->
  Utils.hexToRgb (Utils.rgbToHex r g b)
  = {| Rgb.r := Qfloor r; Rgb.g := Qfloor g; Rgb.b := Qfloor b |} /\
  String.length (Utils.rgbToHex r g b) = 7%nat.
Proof.
  intros Hr0 Hr1 Hg0 Hg1 Hb0 Hb1.
  pose proof (Qfloor_channel r Hr0 Hr1) as Hr.
  pose proof (Qfloor_channel g Hg0 Hg1) as Hg.
  pose proof (Qfloor_channel b Hb0 Hb1) as Hb.
  rewrite (rgbToHex_rrggbb r g b Hr Hg Hb).
  split; [apply hexToRgb_rrggbb; assumption | reflexivity].
Qed.

Lemma hexToRgb_rgbToHex_witness :
  0 <= 10.7 /\ 10.7 < 256 /\
  Utils.hexToRgb (Utils.rgbToHex 10.7 255 0)
  = {| Rgb.r := 10; Rgb.g := 255; Rgb.b := 0 |}.
Proof.
  assert (H0 : 0 <= 10.7) by lra. assert (H1 : 10.7 < 256) by lra.
  split; [exact H0 | split; [exact H1 | ]].
  apply (hexToRgb_rgbToHex 10.7 255 0); lra.
Defined.

Lemma hexChar_hexDigitValue (c : ascii) :
  Utils.isHexDigit c = true ->
  Utils.hexChar (Utils.hexDigitValue c) = lowerHex c.
Proof.
  destruct c as [[] [] [] [] [] [] [] []]; vm_compute; intros H;
    try discriminate H; reflexivity.
Qed.

Lemma twoDigits_parseInt16 (a b : ascii) :
  Utils.isHexDigit a = true -> Utils.isHexDigit b = true ->
  twoDigits (Utils.parseInt16 a b)
  = String (lowerHex a) (String (lowerHex b) EmptyString).
Proof.
  intros Ha Hb.
  pose proof (isHexDigit_value a Ha) as Va. pose proof (isHexDigit_value b Hb) as Vb.
  unfold twoDigits, Utils.parseInt16.
  assert (Hdiv : ((16 * Utils.hexDigitValue a + Utils.hexDigitValue b) / 16
                  = Utils.hexDigitValue a)%Z).
  { rewrite Z.add_comm, Z.mul_comm, Z.div_add by lia.
    rewrite Z.div_small by lia. lia. }
  assert (Hmod : ((16 * Utils.hexDigitValue a + Utils.hexDigitValue b) mod 16
                  = Utils.hexDigitValue b)%Z).
  { rewrite Z.add_comm, Z.mul_comm, Z.mod_add by lia. apply Z.mod_small. lia. }
  rewrite Hdiv, Hmod, !hexChar_hexDigitValue by assumption. reflexivity.
Qed.

(** The colour that [rgbToHex] writes for the channels that [hexToRgb]
    reads from a string. *)
Lemma rrggbb_hexToRgb (s : string) :
  rrggbb (Rgb.r (Utils.hexToRgb s)) (Rgb.g (Utils.hexToRgb s))
         (Rgb.b (Utils.hexToRgb s))
  = match Utils.execHex s with
    | Some _ => normalise s
    | None => "#ffffff"%string
    end.
Proof.
  unfold Utils.hexToRgb.
  destruct (Utils.execHex s) as [[[[[[a b] c] d] e] f] | ] eqn:E; [ | reflexivity].
  pose proof (execHex_digits s a b c d e f E) as (Ha & Hb & Hc & Hd & He & Hf).
  cbn [Rgb.r Rgb.g Rgb.b]. unfold rrggbb.
  rewrite !twoDigits_parseInt16 by assumption.
  unfold Utils.execHex in E.
  assert (Hbody : forall body,
             match body with
             | String a' (String b' (String c' (String d' (String e' (String f' EmptyString))))) =>
                 if Utils.isHexDigit a' && Utils.isHexDigit b' && Utils.isHexDigit c' &&
                    Utils.isHexDigit d' && Utils.isHexDigit e' && Utils.isHexDigit f'
                 then Some (a', b', c', d', e', f') else None
             | _ => None
             end = Some (a, b, c, d, e, f) ->
             body = String a (String b (String c (String d (String e (String f EmptyString)))))).
  { intros body.
    destruct body as [ | a' [ | b' [ | c' [ | d' [ | e' [ | f' [ | g' rest]]]]]]];
      try discriminate.
    destruct (_ && _ && _ && _ && _ && _); [ | discriminate].
    intros H. injection H as -> -> -> -> -> ->. reflexivity. }
  destruct s as [ | ch rest]; [discriminate E | ].
  destruct (ascii_dec ch "#") as [-> | Hne].
  - apply Hbody in E. subst rest. reflexivity.
  - assert (E' : String ch rest
                 = String a (String b (String c (String d (String e (String f EmptyString)))))).
    { apply Hbody. destruct ch as [[] [] [] [] [] [] [] []]; try exact E.
      exfalso. apply Hne. reflexivity. }
    injection E' as -> ->.
    unfold normalise.
    destruct a as [[] [] [] [] [] [] [] []]; try reflexivity.
    exfalso. apply Hne. reflexivity.
Qed.

Lemma colourString_execHex (s : string) :
  colourString s -> Utils.execHex s <> None.
Proof.
  assert (Hhex : forall c, In c hexCharacters -> Utils.isHexDigit c = true).
  { intros c Hc. unfold hexCharacters in Hc. cbn in Hc.
    repeat (destruct Hc as [<- | Hc]; [reflexivity | ]). destruct Hc. }
  assert (Hsix : forall body, sixHexDigits body ->
             match body with
             | String a (String b (String c (String d (String e (String f EmptyString))))) =>
                 if Utils.isHexDigit a && Utils.isHexDigit b && Utils.isHexDigit c &&
                    Utils.isHexDigit d && Utils.isHexDigit e && Utils.isHexDigit f
                 then Some (a, b, c, d, e, f) else None
             | _ => None
             end <> None).
  { intros body [Hlen Hall].
    destruct body as [ | a [ | b [ | c [ | d [ | e [ | f [ | g rest]]]]]]];
      try discriminate Hlen.
    cbn [list_ascii_of_string] in Hall.
    repeat match goal with
    | H : Forall _ (_ :: _) |- _ => inversion H; subst; clear H
    end.
    rewrite !Hhex by assumption. discriminate. }
  intros [Hs | (body & -> & Hb)].
  - unfold Utils.execHex. pose proof (Hsix s Hs) as H.
    destruct s as [ | ch rest]; [destruct Hs as [Hlen _]; discriminate Hlen | ].
    destruct (ascii_dec ch "#") as [-> | Hne].
    + exfalso. destruct Hs as [_ Hall]. cbn [list_ascii_of_string] in Hall.
      inversion Hall as [ | x l Hin _]; subst.
      apply Hhex in Hin. discriminate Hin.
    + destruct ch as [[] [] [] [] [] [] [] []]; try exact H.
      exfalso. apply Hne. reflexivity.
  - unfold Utils.execHex. apply Hsix. exact Hb.
Qed.

(** X3: the ends of a transition.  With speed 0 [transitionColor] returns
    the current colour and with speed 1 the target colour, each written
    with a [#] and lower-case digits; a string that is no colour counts as
    white. *)
Theorem transitionColor_ends (currentColor targetColor : string) :
  colourString currentColor -> colourString targetColor ->
  Utils.transitionColor currentColor targetColor 0 = normalise currentColor /\
  Utils.transitionColor currentColor targetColor 1 = normalise targetColor /\
  (forall other, ~ colourString other ->
     Utils.transitionColor other targetColor 0 = "#ffffff"%string /\
     Utils.transitionColor currentColor other 1 = "#ffffff"%string).
Proof.
  intros Hc Ht.
  assert (Hzero : forall c t : string,
             Utils.transitionColor c t 0
             = rrggbb (Rgb.r (Utils.hexToRgb c)) (Rgb.g (Utils.hexToRgb c))
                      (Rgb.b (Utils.hexToRgb c))).
  { intros c t. unfold Utils.transitionColor.
    destruct (hexToRgb_channels c) as (Hr & Hg & Hb).
    assert (E : forall x y : Z,
               Qfloor (inject_Z x + (inject_Z y - inject_Z x) * 0) = x).
    { intros x y. transitivity (Qfloor (inject_Z x));
        [apply Qfloor_comp; ring | apply Qfloor_Z]. }
    rewrite rgbToHex_rrggbb; rewrite ?E; try assumption. reflexivity. }
  assert (Hone : forall c t : string,
             Utils.transitionColor c t 1
             = rrggbb (Rgb.r (Utils.hexToRgb t)) (Rgb.g (Utils.hexToRgb t))
                      (Rgb.b (Utils.hexToRgb t))).
  { intros c t. unfold Utils.transitionColor.
    destruct (hexToRgb_channels t) as (Hr & Hg & Hb).
    assert (E : forall x y : Z,
               Qfloor (inject_Z x + (inject_Z y - inject_Z x) * 1) = y).
    { intros x y. transitivity (Qfloor (inject_Z y));
        [apply Qfloor_comp; ring | apply Qfloor_Z]. }
    rewrite rgbToHex_rrggbb; rewrite ?E; try assumption. reflexivity. }
  repeat split.
  - rewrite Hzero, rrggbb_hexToRgb.
    destruct (Utils.execHex currentColor) eqn:E; [reflexivity | ].
    exfalso. exact (colourString_execHex _ Hc E).
  - rewrite Hone, rrggbb_hexToRgb.
    destruct (Utils.execHex targetColor) eqn:E; [reflexivity | ].
    exfalso. exact (colourString_execHex _ Ht E).
  - rewrite Hzero, rrggbb_hexToRgb.
    destruct (Utils.execHex other) eqn:E; [ | reflexivity].
    exfalso. apply H. apply execHex_colourString. rewrite E. discriminate.
  - rewrite Hone, rrggbb_hexToRgb.
    destruct (Utils.execHex other) eqn:E; [ | reflexivity].
    exfalso. apply H. apply execHex_colourString. rewrite E. discriminate.
Qed.

Lemma sixHexDigits_sample (s : string) :
  String.length s = 6%nat ->
  forallb Utils.isHexDigit (list_ascii_of_string s) = true -> sixHexDigits s.
Proof.
  intros Hlen Hall. split; [exact Hlen | ].
  apply Forall_forall. intros c Hc. apply isHexDigit_hexCharacters.
  rewrite forallb_forall in Hall. apply Hall. exact Hc.
Qed.

Lemma transitionColor_ends_witness :
  colourString "#FF8000" /\ colourString "00ffAA" /\
  Utils.transitionColor "#FF8000" "00ffAA" 0 = "#ff8000"%string /\
  Utils.transitionColor "#FF8000" "00ffAA" 1 = "#00ffaa"%string.
Proof.
  assert (H1 : colourString "#FF8000").
  { right. exists "FF8000"%string. split; [reflexivity | ].
    apply sixHexDigits_sample; reflexivity. }
  assert (H2 : colourString "00ffAA").
  { left. apply sixHexDigits_sample; reflexivity. }
  split; [exact H1 | split; [exact H2 | ]].
  destruct (transitionColor_ends "#FF8000" "00ffAA" H1 H2) as (Ha & Hb & _).
  split; [rewrite Ha | rewrite Hb]; reflexivity.
Defined.

Lemma Qfloor_ge (k : Z) (q : Q) : inject_Z k <= q -> (k <= Qfloor q)%Z.
Proof. intros H. rewrite <- (Qfloor_Z k). apply Qfloor_resp_le. exact H. Qed.

Lemma Qfloor_lt (k : Z) (q : Q) : q < inject_Z k -> (Qfloor q < k)%Z.
Proof.
  intros H. apply Z.lt_nge. intros Hge.
  assert (Hq : inject_Z k <= inject_Z (Qfloor q)) by (rewrite <- Zle_Qle; exact Hge).
  pose proof (Qfloor_le q). lra.
Qed.

Lemma blend_channelStep (c t : Z) :
  channelStep c t (Qfloor (inject_Z c + (inject_Z t - inject_Z c) * 0.02)).
Proof.
  set (q := inject_Z c + (inject_Z t - inject_Z c) * 0.02).
  assert (Hplus1 : inject_Z (c + 1) == inject_Z c + 1)
    by (rewrite inject_Z_plus; reflexivity).
  assert (Hplus50 : inject_Z (c + 50) == inject_Z c + 50)
    by (rewrite inject_Z_plus; reflexivity).
  repeat split.
  - intros [H1 H2]. rewrite Zle_Qle in H1. rewrite Zlt_Qlt, Hplus50 in H2.
    assert (c <= Qfloor q)%Z by (apply Qfloor_ge; subst q; lra).
    assert (Qfloor q < c + 1)%Z by (apply Qfloor_lt; rewrite Hplus1; subst q; lra).
    lia.
  - assert (c + 1 <= Qfloor q)%Z; [ | lia].
    rewrite Zle_Qle, Hplus50 in H. apply Qfloor_ge. rewrite Hplus1. subst q. lra.
  - rewrite Zle_Qle, Hplus50 in H.
    assert (Qfloor q < t + 1)%Z; [ | lia].
    apply Qfloor_lt. rewrite inject_Z_plus. subst q.
    change (inject_Z 1) with 1. lra.
  - rewrite Zlt_Qlt in H. apply Qfloor_ge. subst q. lra.
  - rewrite Zlt_Qlt in H. apply Qfloor_lt. subst q. lra.
Qed.

(** X4: one step of [transitionColor] at the speed 0.02 of the chaos
    controller never passes the target on any channel; a channel above its
    target falls by at least one, and a channel below its target rises only
    while the target is at least 50 above it. *)
Theorem transitionColor_step (currentColor targetColor : string) :
  let cur := Utils.hexToRgb currentColor in
  let tgt := Utils.hexToRgb targetColor in
  let new := Utils.hexToRgb (Utils.transitionColor currentColor targetColor 0.02) in
  channelStep (Rgb.r cur) (Rgb.r tgt) (Rgb.r new) /\
  channelStep (Rgb.g cur) (Rgb.g tgt) (Rgb.g new) /\
  channelStep (Rgb.b cur) (Rgb.b tgt) (Rgb.b new).
Proof.
  cbv zeta.
  destruct (hexToRgb_channels currentColor) as (Hcr & Hcg & Hcb).
  destruct (hexToRgb_channels targetColor) as (Htr & Htg & Htb).
  assert (Hs : 0 <= 0.02 <= 1) by lra.
  pose proof (blend_channel _ _ 0.02 Hcr Htr Hs) as Hr.
  pose proof (blend_channel _ _ 0.02 Hcg Htg Hs) as Hg.
  pose proof (blend_channel _ _ 0.02 Hcb Htb Hs) as Hb.
  unfold Utils.transitionColor.
  rewrite (rgbToHex_rrggbb _ _ _ Hr Hg Hb).
  rewrite (hexToRgb_rrggbb _ _ _ Hr Hg Hb).
  cbn [Rgb.r Rgb.g Rgb.b].
  split; [ | split]; apply blend_channelStep.
Qed.

Lemma letterAt_digit (d : Z) :
  (0 <= d < 16)%Z ->
  exists c, Utils.letterAt d = String c EmptyString /\ Utils.isHexDigit c = true.
Proof.
  intros H. apply digit_cases in H.
  repeat (destruct H as [H | H]; [subst d; eexists; split; reflexivity | ]).
  subst d; eexists; split; reflexivity.
Qed.

Lemma draw_digit (w : World) (n : nat) :
  fair w -> (0 <= Qfloor (rand w n * 16) < 16)%Z.
Proof.
  intros Hfair. destruct (Hfair n) as [H0 H1]. split.
  - apply Qfloor_ge. change (inject_Z 0) with 0. lra.
  - apply Qfloor_lt. change (inject_Z 16) with 16. lra.
Qed.

Lemma hexDigits_hex (k : nat) (fuel : nat) (n : Z) (acc : string) :
  (0 <= n < 16 ^ Z.of_nat (S k))%Z ->
  Forall (fun c => Utils.isHexDigit c = true) (list_ascii_of_string acc) ->
  (String.length (Utils.hexDigits fuel n acc) <= S k + String.length acc)%nat /\
  Forall (fun c => Utils.isHexDigit c = true)
         (list_ascii_of_string (Utils.hexDigits fuel n acc)).
Proof.
  revert k n acc. induction fuel as [ | fuel IH]; intros k n acc Hn Hacc.
  - cbn. split; [lia | exact Hacc].
  - cbn [Utils.hexDigits].
    assert (Hd : (0 <= n mod 16 < 16)%Z) by (apply Z.mod_pos_bound; lia).
    assert (Hacc' : Forall (fun c => Utils.isHexDigit c = true)
                      (list_ascii_of_string (String (Utils.hexChar (n mod 16)) acc))).
    { cbn. constructor; [apply hexChar_digit; exact Hd | exact Hacc]. }
    destruct (Z.eqb_spec (n / 16) 0) as [Hz | Hnz].
    + split; [cbn; lia | exact Hacc'].
    + destruct k as [ | k].
      * exfalso. apply Hnz. apply Z.div_small. change (16 ^ Z.of_nat 1)%Z with 16%Z in Hn.
        lia.
      * assert (Hq : (0 <= n / 16 < 16 ^ Z.of_nat (S k))%Z).
        { split; [apply Z.div_pos; lia | ].
          apply Z.div_lt_upper_bound; [lia | ].
          rewrite <- Z.pow_succ_r by lia. rewrite <- Nat2Z.inj_succ. lia. }
        destruct (IH k (n / 16)%Z _ Hq Hacc') as [Hlen Hall].
        split; [cbn [String.length] in Hlen; lia | exact Hall].
Qed.

Lemma padStart6_hex (s : string) :
  (String.length s <= 6)%nat ->
  Forall (fun c => Utils.isHexDigit c = true) (list_ascii_of_string s) ->
  String.length (Chaos.padStart6 s) = 6%nat /\
  Forall (fun c => Utils.isHexDigit c = true)
         (list_ascii_of_string (Chaos.padStart6 s)).
Proof.
  unfold Chaos.padStart6. intros Hlen Hall.
  remember (6 - String.length s)%nat as n eqn:En.
  assert (Hn : (n + String.length s = 6)%nat) by lia. clear En Hlen.
  revert s Hall Hn. induction n as [ | n IH]; intros s Hall Hn.
  - split; [exact Hn | exact Hall].
  - apply IH.
    + cbn. constructor; [reflexivity | exact Hall].
    + cbn. lia.
Qed.

(** X5: the colours that the program draws at random are colour strings,
    whatever the draws: [hexToRgb] reads them and never falls back to white
    for being malformed.  This holds for [getRandomColor] of utils.js and
    for the generators of the chaos controller, whose ranges are at most
    [16 ^ 6]. *)
Theorem random_colours_well_formed (w : World) :
  fair w ->
  colourString (fst (Utils.getRandomColor w)) /\
  (forall param : ColorParam.t,
      (0 < ColorParam.range param <= 16777216)%Z ->
      colourString (fst (Chaos.getRandomColor param w))).
Proof.
  intros Hfair. split.
  - unfold Utils.getRandomColor, random. cbn [fst snd rand randPos].
    destruct (letterAt_digit _ (draw_digit w (randPos w) Hfair)) as (c1 & -> & H1).
    destruct (letterAt_digit _ (draw_digit w (S (randPos w)) Hfair)) as (c2 & -> & H2).
    destruct (letterAt_digit _ (draw_digit w (S (S (randPos w))) Hfair))
      as (c3 & -> & H3).
    destruct (letterAt_digit _ (draw_digit w (S (S (S (randPos w)))) Hfair))
      as (c4 & -> & H4).
    destruct (letterAt_digit _ (draw_digit w (S (S (S (S (randPos w))))) Hfair))
      as (c5 & -> & H5).
    destruct (letterAt_digit _ (draw_digit w (S (S (S (S (S (randPos w)))))) Hfair))
      as (c6 & -> & H6).
    cbn [String.append]. right. eexists. split; [reflexivity | ].
    split; [reflexivity | ]. cbn [list_ascii_of_string].
    repeat (apply Forall_cons; [apply isHexDigit_hexCharacters; assumption | ]).
    apply Forall_nil.
  - intros param [Hr0 Hr1]. unfold Chaos.getRandomColor, random. cbn [fst].
    destruct (Hfair (randPos w)) as [H0 H1].
    set (r := rand w (randPos w)) in *.
    set (range := ColorParam.range param) in *.
    assert (Hrange : 0 < inject_Z range <= 16777216).
    { split; [change 0 with (inject_Z 0); rewrite <- Zlt_Qlt; exact Hr0 | ].
      change 16777216 with (inject_Z 16777216). rewrite <- Zle_Qle. exact Hr1. }
    assert (Hn : (0 <= Qfloor (r * inject_Z range) < 16 ^ Z.of_nat 6)%Z).
    { split.
      - apply Qfloor_ge. change (inject_Z 0) with 0. nra.
      - apply Qfloor_lt. change (inject_Z (16 ^ Z.of_nat 6)) with 16777216. nra. }
    set (n := Qfloor (r * inject_Z range)) in *.
    unfold Utils.toString16. destruct (Z.ltb_spec n 0) as [Hneg | _]; [lia | ].
    destruct (hexDigits_hex 5 (S (Z.to_nat (Z.log2 n))) n EmptyString Hn (Forall_nil _))
      as [Hlen Hall].
    cbn [String.length] in Hlen.
    assert (Hlen' : (String.length
                       (Utils.hexDigits (S (Z.to_nat (Z.log2 n))) n EmptyString)
                     <= 6)%nat) by lia.
    destruct (padStart6_hex _ Hlen' Hall) as [Hlen6 Hall6].
    right. eexists. split; [reflexivity | ].
    split; [exact Hlen6 | ].
    eapply Forall_impl; [ | exact Hall6]. intros c. apply isHexDigit_hexCharacters.
Qed.

Lemma random_colours_well_formed_witness :
  fair (steadyWorld 0.5) /\
  colourString (fst (Utils.getRandomColor (steadyWorld 0.5))) /\
  fst (Utils.getRandomColor (steadyWorld 0.5)) = "#888888"%string.
Proof.
  assert (Hfair : fair (steadyWorld 0.5)) by (intros n; cbn; lra).
  split; [exact Hfair | ].
  split; [exact (proj1 (random_colours_well_formed _ Hfair)) | reflexivity].
Defined.
(** ** More on the chaos controller *)

Lemma update_within_delay (t : Q) (active : bool) (c : Chaos.t) (w : World) :
  ~ Chaos.startTime c == 0 ->
  t - Chaos.startTime c < Chaos.chaosStartDelay c ->
  Chaos.update t active c w = (c, w).
Proof.
  intros Hs Ht. unfold Chaos.update.
  destruct active; [ | reflexivity]. cbn [negb].
  destruct (eq_reflect (Chaos.startTime c) 0) as [H0 | _]; [contradiction | ].
  destruct (lt_reflect (t - Chaos.startTime c) (Chaos.chaosStartDelay c));
    [reflexivity | contradiction].
Qed.

Lemma updates_within_delay (calls : list (Q * bool)) (c : Chaos.t) (w : World) :
  ~ Chaos.startTime c == 0 ->
  (forall t a, In (t, a) calls -> t - Chaos.startTime c < Chaos.chaosStartDelay c) ->
  updates calls c w = (c, w).
Proof.
  intros Hs. induction calls as [ | [t a] calls IH]; intros Hall; [reflexivity | ].
  cbn [updates]. rewrite update_within_delay; [ | exact Hs | ].
  - apply IH. intros t' a' Hin. apply (Hall t' a'). right. exact Hin.
  - apply (Hall t a). left. reflexivity.
Qed.

(** X6: the start delay.  From a new controller, the first call with a
    non-zero timestamp [t0] fixes the start time, and as long as the calls
    come less than 10000 ms after [t0] the controller changes nothing: the
    parameters are the defaults, the entries are untouched and no random
    number is drawn.  Timestamps before [t0] count as well. *)
Theorem chaos_start_delay (d : Params.t) (t0 : Q) (calls : list (Q * bool)) (w : World) :
  ~ t0 == 0 ->
  (forall t a, In (t, a) calls -> t - t0 < 10000) ->
  let result := updates ((t0, true) :: calls) (Chaos.constructor d) w in
  Chaos.gameParams (fst result) = d /\
  Chaos.chaosParams (fst result) = Chaos.chaosParams (Chaos.constructor d) /\
  Chaos.startTime (fst result) = t0 /\
  snd result = w.
Proof.
  intros Ht0 Hall. cbn [updates].
  assert (Hfirst : Chaos.update t0 true (Chaos.constructor d) w
                   = (Chaos.set_startTime (Chaos.constructor d) t0, w)).
  { unfold Chaos.update. cbn [negb Chaos.startTime Chaos.constructor].
    change (0 === 0) with true. cbn [Chaos.set_startTime Chaos.startTime
                                      Chaos.chaosStartDelay Chaos.constructor].
    destruct (lt_reflect (t0 - t0) 10000) as [_ | H]; [reflexivity | ].
    exfalso. apply H. lra. }
  rewrite Hfirst.
  rewrite updates_within_delay; [repeat split | exact Ht0 | exact Hall].
Qed.

Lemma chaos_start_delay_witness :
  let calls := [(5016, true); (14999, true); (3000, true)] in
  ~ 5000 == 0 /\
  Chaos.gameParams
    (fst (updates ((5000, true) :: calls) (Chaos.constructor Params.defaultParams)
            (steadyWorld 0.5)))
  = Params.defaultParams.
Proof.
  intros calls.
  assert (H0 : ~ 5000 == 0) by (intro H; discriminate H).
  split; [exact H0 | ].
  apply (chaos_start_delay Params.defaultParams 5000 calls (steadyWorld 0.5) H0).
  intros t a [H | [H | [H | []]]]; injection H as <- <-; lra.
Defined.

(** X7: the spacing of the changes of a parameter.  A call at or after
    [nextChange] draws a new target and puts the next change between 5000
    and 10000 ms later; a call before [nextChange] keeps the target and the
    schedule and draws no random number. *)
Theorem updateParameter_schedule (t : Q) (p : ChaosParam.t) (gp : Params.t) (w : World) :
  fair w ->
  let p' := fst (fst (Chaos.updateParameter t p gp w)) in
  let w' := snd (Chaos.updateParameter t p gp w) in
  (ChaosParam.nextChange p <= t ->
   t + 5000 <= ChaosParam.nextChange p' /\ ChaosParam.nextChange p' < t + 10000 /\
   ChaosParam.transitionStart p' = Some t /\
   randPos w' = (randPos w + 3)%nat) /\
  (t < ChaosParam.nextChange p ->
   ChaosParam.target p' = ChaosParam.target p /\
   ChaosParam.nextChange p' = ChaosParam.nextChange p /\
   ChaosParam.transitionStart p' = ChaosParam.transitionStart p /\
   w' = w) /\
  t < ChaosParam.nextChange p'.
Proof.
  intros Hfair. unfold Chaos.updateParameter.
  destruct (Hfair (S (randPos w))) as [Hr0 Hr1].
  destruct (ge_reflect t (ChaosParam.nextChange p)) as [Hge | Hlt].
  - unfold random. entry_simpl.
    match goal with
    | |- context [t <? ?e] => destruct (t <? e)
    end; destruct (ChaosParam.isBoolean p); entry_simpl;
      (split; [intros _ | split; [intros Hcontra; exfalso; lra | ]]);
      try (repeat split; try lra; f_equal; lia); lra.
  - entry_simpl.
    destruct (ChaosParam.transitionStart p) as [s | ] eqn:Es;
      [destruct (t <? s + ChaosParam.transitionDuration p) | ];
      destruct (ChaosParam.isBoolean p); entry_simpl; rewrite ?Es;
      (split; [intros Hcontra; exfalso; lra
              | split; [intros _; repeat split; reflexivity | lra]]).
Qed.

Lemma updateParameter_schedule_witness :
  let p := Chaos.entry Params.BallSpeed 2 7 3.5 false in
  let p' := fst (fst (Chaos.updateParameter 20000 p Params.defaultParams
                        (steadyWorld 0.5))) in
  fair (steadyWorld 0.5) /\ 20000 < ChaosParam.nextChange p'.
Proof.
  intros p p'.
  assert (Hfair : fair (steadyWorld 0.5)) by (intros n; cbn; lra).
  split; [exact Hfair | ].
  exact (proj2 (proj2 (updateParameter_schedule 20000 p Params.defaultParams
                         (steadyWorld 0.5) Hfair))).
Defined.

(** X8: the pace of a transition.  When the transition of an entry started
    no later than the call, one call moves [current] towards the target by
    at most a tenth of the gap between them: the gap keeps its sign and at
    least nine tenths of its size. *)
Theorem updateParameter_pace (t : Q) (p : ChaosParam.t) (gp : Params.t) (w : World) :
  (forall s, ChaosParam.transitionStart p = Some s -> s <= t) ->
  let p' := fst (fst (Chaos.updateParameter t p gp w)) in
  let gap := ChaosParam.target p' - ChaosParam.current p in
  let gap' := ChaosParam.target p' - ChaosParam.current p' in
  (0 <= gap -> 0.9 * gap <= gap' /\ gap' <= gap) /\
  (gap <= 0 -> gap <= gap' /\ gap' <= 0.9 * gap).
Proof.
  intros Hstart. unfold Chaos.updateParameter.
  assert (Hblend : forall c tg f, 0 <= f ->
             let m := Qmin f 0.1 in
             (0 <= tg - c ->
              0.9 * (tg - c) <= tg - (c + (tg - c) * m) /\
              tg - (c + (tg - c) * m) <= tg - c) /\
             (tg - c <= 0 ->
              tg - c <= tg - (c + (tg - c) * m) /\
              tg - (c + (tg - c) * m) <= 0.9 * (tg - c))).
  { intros c tg f Hf m.
    assert (H0 : 0 <= m) by (apply Q.min_glb; lra).
    assert (H1 : m <= 0.1) by apply Q.le_min_r.
    clearbody m. split; intros Hgap; split; nra. }
  destruct (t >=? ChaosParam.nextChange p).
  - unfold random. entry_simpl.
    match goal with
    | |- context [t <? ?e] => destruct (lt_reflect t e) as [Hlt | Hlt]
    end; destruct (ChaosParam.isBoolean p); entry_simpl;
      try (apply Hblend; apply progress_nonneg; lra);
      split; intros; split; lra.
  - entry_simpl. destruct (ChaosParam.transitionStart p) as [s | ] eqn:Es.
    + pose proof (Hstart s eq_refl) as Hs.
      destruct (lt_reflect t (s + ChaosParam.transitionDuration p)) as [Hlt | Hlt];
        destruct (ChaosParam.isBoolean p); entry_simpl;
        try (apply Hblend; apply progress_nonneg; lra);
        split; intros; split; lra.
    + destruct (ChaosParam.isBoolean p); entry_simpl; split; intros; split; lra.
Qed.

Lemma updateParameter_pace_witness :
  let p := {| ChaosParam.name := Params.BallSpeed; ChaosParam.min := 2;
              ChaosParam.max := 7; ChaosParam.current := 3;
              ChaosParam.target := 7; ChaosParam.nextChange := 30000;
              ChaosParam.transitionDuration := 2000;
              ChaosParam.transitionStart := Some 20000;
              ChaosParam.isBoolean := false |} in
  let p' := fst (fst (Chaos.updateParameter 21000 p Params.defaultParams
                        (steadyWorld 0.5))) in
  (forall s, ChaosParam.transitionStart p = Some s -> s <= 21000) /\
  ChaosParam.current p' == 3.4 /\
  0.9 * (7 - 3) <= ChaosParam.target p' - ChaosParam.current p'.
Proof.
  intros p p'.
  assert (Hs : forall s, ChaosParam.transitionStart p = Some s -> s <= 21000).
  { intros s H. injection H as <-. lra. }
  split; [exact Hs | split; [vm_compute; reflexivity | ]].
  pose proof (updateParameter_pace 21000 p Params.defaultParams (steadyWorld 0.5) Hs)
    as [Hup _].
  apply Hup. vm_compute. discriminate.
Defined.

(** *** The snapshot mirrors the entries *)

Lemma get_setNumber_same (n : Params.name) (v : Q) (gp : Params.t) :
  n <> Params.Multiball -> Params.get n (Params.setNumber n v gp) = v.
Proof. destruct n; intros H; try reflexivity. contradiction. Qed.

Lemma get_setNumber_other (n m : Params.name) (v : Q) (gp : Params.t) :
  n <> m -> n <> Params.Multiball ->
  Params.get n (Params.setNumber m v gp) = Params.get n gp.
Proof. destruct n, m; intros H1 H2; try reflexivity; contradiction. Qed.

Lemma multiball_setNumber (m : Params.name) (v : Q) (gp : Params.t) :
  m <> Params.Multiball ->
  Params.multiball (Params.setNumber m v gp) = Params.multiball gp.
Proof. destruct m; intros H; try reflexivity. contradiction. Qed.

(** The effect of one entry on the mirror of another one. *)
Lemma mirrors_other (gp gp' : Params.t) (p q : ChaosParam.t) :
  gp' = (if ChaosParam.isBoolean p
         then Params.setBool (ChaosParam.name p) (ChaosParam.current p >? 0.5) gp
         else Params.setNumber (ChaosParam.name p) (ChaosParam.current p) gp) ->
  ChaosParam.name q <> ChaosParam.name p ->
  mirrors gp q -> mirrors gp' q.
Proof.
  intros -> Hne. unfold mirrors.
  destruct (ChaosParam.isBoolean p);
    destruct (ChaosParam.name q) eqn:Eq, (ChaosParam.name p) eqn:Ep;
    try (exfalso; apply Hne; reflexivity); intros H; exact H.
Qed.

Lemma mirrors_self (gp : Params.t) (p : ChaosParam.t) :
  (ChaosParam.isBoolean p = true <-> ChaosParam.name p = Params.Multiball) ->
  mirrors (if ChaosParam.isBoolean p
           then Params.setBool (ChaosParam.name p) (ChaosParam.current p >? 0.5) gp
           else Params.setNumber (ChaosParam.name p) (ChaosParam.current p) gp) p.
Proof.
  intros [H1 H2]. unfold mirrors.
  destruct (ChaosParam.isBoolean p) eqn:Eb.
  - rewrite (H1 eq_refl). split; reflexivity.
  - destruct (ChaosParam.name p) eqn:En; try (split; reflexivity).
    specialize (H2 eq_refl). discriminate H2.
Qed.

Lemma updateParameter_shape (t : Q) (p : ChaosParam.t) (gp : Params.t) (w : World) :
  let p' := fst (fst (Chaos.updateParameter t p gp w)) in
  shape p' = shape p /\
  snd (fst (Chaos.updateParameter t p gp w))
  = (if ChaosParam.isBoolean p'
     then Params.setBool (ChaosParam.name p') (ChaosParam.current p' >? 0.5) gp
     else Params.setNumber (ChaosParam.name p') (ChaosParam.current p') gp).
Proof.
  unfold Chaos.updateParameter, shape.
  destruct (t >=? ChaosParam.nextChange p); unfold random; entry_simpl.
  - match goal with
    | |- context [t <? ?e] => destruct (t <? e)
    end; entry_simpl; destruct (ChaosParam.isBoolean p); split; reflexivity.
  - destruct (ChaosParam.transitionStart p) as [s | ];
      [destruct (t <? s + ChaosParam.transitionDuration p) | ]; entry_simpl;
      destruct (ChaosParam.isBoolean p); split; reflexivity.
Qed.

Lemma updateEach_mirrors (t : Q) (ps : list ChaosParam.t) (gp : Params.t) (w : World) :
  NoDup (List.map ChaosParam.name ps) ->
  Forall (fun p => ChaosParam.isBoolean p = true
                   <-> ChaosParam.name p = Params.Multiball) ps ->
  let ps' := fst (fst (Chaos.updateEach t ps gp w)) in
  let gp' := snd (fst (Chaos.updateEach t ps gp w)) in
  List.map shape ps' = List.map shape ps /\
  Forall (mirrors gp') ps' /\
  (forall q, ~ In (ChaosParam.name q) (List.map ChaosParam.name ps) ->
             mirrors gp q -> mirrors gp' q).
Proof.
  revert gp w. induction ps as [ | p ps IH]; intros gp w Hnd Hwf.
  - cbn. repeat split; auto.
  - cbn [Chaos.updateEach].
    pose proof (updateParameter_shape t p gp w) as [Hshape Hgp].
    destruct (Chaos.updateParameter t p gp w) as [[p' gp1] w1].
    cbn [fst snd] in Hshape, Hgp.
    inversion Hnd as [ | x l Hnotin Hnd' Heq]; subst x l.
    inversion Hwf as [ | x l Hp Hwf' Heq]; subst x l.
    specialize (IH gp1 w1 Hnd' Hwf').
    destruct (Chaos.updateEach t ps gp1 w1) as [[ps' gp2] w2].
    cbn [fst snd] in *. destruct IH as (IHshape & IHmirror & IHother).
    assert (Hname : ChaosParam.name p' = ChaosParam.name p).
    { unfold shape in Hshape. congruence. }
    assert (Hbool : ChaosParam.isBoolean p' = ChaosParam.isBoolean p).
    { unfold shape in Hshape. congruence. }
    split; [cbn; congruence | ].
    split.
    + constructor; [ | exact IHmirror].
      apply IHother; [rewrite Hname; exact Hnotin | ].
      rewrite Hgp. apply mirrors_self. rewrite Hname, Hbool. exact Hp.
    + intros q Hq Hm. apply IHother.
      * intros Hin. apply Hq. right. exact Hin.
      * apply (mirrors_other gp gp1 p' q Hgp); [ | exact Hm].
        intros Heq. apply Hq. left. congruence.
Qed.

Lemma setColor_get (n : Params.name) (cn : Params.colorName) (s : string) (gp : Params.t) :
  Params.get n (Params.setColor cn s gp) = Params.get n gp.
Proof. destruct n; reflexivity. Qed.

Lemma updateEachColor_get (n : Params.name) (t : Q) (ps : list ColorParam.t)
    (tp gp : Params.t) (w : World) :
  Params.get n (snd (fst (Chaos.updateEachColor t ps tp gp w))) = Params.get n gp.
Proof.
  revert tp gp w. induction ps as [ | p ps IH]; intros tp gp w; [reflexivity | ].
  cbn [Chaos.updateEachColor].
  assert (Hp : Params.get n (snd (fst (Chaos.updateColor t p tp gp w)))
               = Params.get n gp).
  { unfold Chaos.updateColor, Chaos.getRandomColor, random.
    destruct (t >=? ColorParam.nextChange p); cbn [fst snd];
      apply setColor_get. }
  destruct (Chaos.updateColor t p tp gp w) as [[[p' tp1] gp1] w1].
  pose proof (IH tp1 gp1 w1) as Hr.
  destruct (Chaos.updateEachColor t ps tp1 gp1 w1) as [[[ps' tp2] gp2] w2].
  cbn [fst snd] in *. congruence.
Qed.

(** Entries with the bounds of the constructor, within their bounds and
    mirrored by a snapshot, bound the snapshot. *)
Lemma mirrors_snapshotBounded (d : Params.t) (ps : list ChaosParam.t) (gp : Params.t) :
  List.map shape ps = List.map shape (Chaos.chaosParams (Chaos.constructor d)) ->
  Forall inBounds ps -> Forall (mirrors gp) ps ->
  snapshotBounded gp.
Proof.
  intros Hshape Hb Hm.
  cbn [Chaos.constructor Chaos.chaosParams List.map] in Hshape.
  do 10 (destruct ps as [ | ? ps]; [discriminate Hshape | ]).
  destruct ps; [ | discriminate Hshape].
  unfold shape, Chaos.entry in Hshape; entry_simpl.
  injection Hshape as; subst.
  repeat match goal with
         | H : Forall _ (_ :: _) |- _ => inversion H; clear H; subst
         end.
  unfold mirrors, inBounds in *.
  repeat match goal with
         | H : ChaosParam.name ?p = _ |- _ => rewrite H in *; clear H
         | H : ChaosParam.min ?p = _ |- _ => rewrite H in *; clear H
         | H : ChaosParam.max ?p = _ |- _ => rewrite H in *; clear H
         end.
  cbn [Params.get] in *.
  repeat match goal with
         | H : _ /\ _ |- _ => destruct H
         end.
  unfold snapshotBounded.
  repeat match goal with
         | H : _ = ChaosParam.current ?p |- _ => rewrite H; clear H
         end.
  repeat split; assumption.
Qed.

Lemma constructor_wf (d : Params.t) :
  NoDup (List.map ChaosParam.name (Chaos.chaosParams (Chaos.constructor d))) /\
  Forall (fun p => ChaosParam.isBoolean p = true
                   <-> ChaosParam.name p = Params.Multiball)
         (Chaos.chaosParams (Chaos.constructor d)).
Proof.
  cbn [Chaos.constructor Chaos.chaosParams List.map Chaos.entry ChaosParam.name].
  split.
  - repeat (constructor; [cbn; intuition discriminate | ]). constructor.
  - repeat (constructor; [cbn; split; intros H; try reflexivity; discriminate H | ]).
    constructor.
Qed.

Lemma shape_names (ps qs : list ChaosParam.t) :
  List.map shape ps = List.map shape qs ->
  List.map ChaosParam.name ps = List.map ChaosParam.name qs /\
  (forall P : Params.name -> bool -> Prop,
     Forall (fun p => P (ChaosParam.name p) (ChaosParam.isBoolean p)) qs ->
     Forall (fun p => P (ChaosParam.name p) (ChaosParam.isBoolean p)) ps).
Proof.
  revert qs. induction ps as [ | p ps IH]; intros [ | q qs] H; try discriminate H.
  - split; [reflexivity | intros; constructor].
  - cbn [List.map] in H. unfold shape at 1 3 in H.
    injection H as Hname Hmin Hmax Hbool Hrest.
    destruct (IH qs Hrest) as [Hn HP].
    split; [cbn; congruence | ].
    intros P HF. inversion HF; subst. constructor.
    + rewrite Hname, Hbool. assumption.
    + apply HP. assumption.
Qed.

(** The invariant of the controller behind the snapshot bounds. *)
Lemma update_snapshot (d : Params.t) (t0 t : Q) (active : bool) (c : Chaos.t) (w : World) :
  fair w -> t0 <= t ->
  Forall (entryOk t0) (Chaos.chaosParams c) ->
  List.map shape (Chaos.chaosParams c)
  = List.map shape (Chaos.chaosParams (Chaos.constructor d)) ->
  snapshotBounded (Chaos.gameParams c) ->
  let c' := fst (Chaos.update t active c w) in
  List.map shape (Chaos.chaosParams c')
  = List.map shape (Chaos.chaosParams (Chaos.constructor d)) /\
  snapshotBounded (Chaos.gameParams c').
Proof.
  intros Hfair Ht Hok Hshape Hsnap.
  unfold Chaos.update.
  destruct active; cbn [negb]; [ | split; assumption].
  set (c1 := if Chaos.startTime c === 0 then Chaos.set_startTime c t else c).
  assert (Hc1 : Chaos.chaosParams c1 = Chaos.chaosParams c).
  { subst c1. destruct (_ === _); reflexivity. }
  assert (Hg1 : Chaos.gameParams c1 = Chaos.gameParams c).
  { subst c1. destruct (_ === _); reflexivity. }
  destruct (_ <? _); [cbn [fst snd]; rewrite Hc1, Hg1; split; assumption | ].
  unfold Chaos.updateParameters. rewrite Hc1, Hg1.
  pose proof (updateEach_ok t0 t (Chaos.chaosParams c) (Chaos.gameParams c) w
                Hfair Ht Hok) as Hps.
  destruct (constructor_wf d) as [Hnd Hwf].
  destruct (shape_names _ _ Hshape) as [Hnames HP].
  assert (Hnd' : NoDup (List.map ChaosParam.name (Chaos.chaosParams c))).
  { rewrite Hnames. exact Hnd. }
  assert (Hwf' : Forall (fun p => ChaosParam.isBoolean p = true
                                   <-> ChaosParam.name p = Params.Multiball)
                        (Chaos.chaosParams c)).
  { apply (HP (fun n b => b = true <-> n = Params.Multiball)). exact Hwf. }
  pose proof (updateEach_mirrors t (Chaos.chaosParams c) (Chaos.gameParams c) w
                Hnd' Hwf') as (Hsh & Hmir & _).
  destruct (Chaos.updateEach t (Chaos.chaosParams c) (Chaos.gameParams c) w)
    as [[ps' gp'] w1].
  cbn [fst snd] in *.
  assert (Hb : snapshotBounded gp').
  { apply (mirrors_snapshotBounded d ps' gp'); [congruence | | exact Hmir].
    eapply Forall_impl; [ | exact Hps]. intros p Hp. apply Hp. }
  unfold Chaos.updateColors.
  cbn [Chaos.colorParams Chaos.targetParams Chaos.gameParams Chaos.with_params].
  match goal with
  | |- context [Chaos.updateEachColor ?a ?b ?c ?d ?e] =>
      pose proof (fun n => updateEachColor_get n a b c d e) as Hget;
      destruct (Chaos.updateEachColor a b c d e) as [[[cps tp2] gp2] w2]
  end.
  cbn [fst snd] in *.
  assert (Hb2 : snapshotBounded gp2).
  { unfold snapshotBounded in *.
    pose proof (Hget Params.BallSpeed) as H1. pose proof (Hget Params.BallSize) as H2.
    pose proof (Hget Params.PaddleSize) as H3. pose proof (Hget Params.PaddleWidth) as H4.
    pose proof (Hget Params.PaddleSpeed) as H5. pose proof (Hget Params.BallGravityX) as H6.
    pose proof (Hget Params.BallGravityY) as H7. pose proof (Hget Params.FieldWidth) as H8.
    pose proof (Hget Params.FieldHeight) as H9. cbn [Params.get] in *.
    rewrite H1, H2, H3, H4, H5, H6, H7, H8, H9. exact Hb. }
  unfold Chaos.updateInvertedControls.
  destruct (_ >=? _); cbn [fst snd Chaos.chaosParams Chaos.gameParams random];
    (split; [cbn [Chaos.with_params Chaos.chaosParams]; congruence | exact Hb2]).
Qed.

(** X9: the parameters the game reads stay within the bounds of the chaos
    controller.  From a controller built on defaults within the bounds,
    after any calls of [update] with non-decreasing timestamps, ball speed,
    ball size, paddle size, width and speed, both gravities and the field
    fractions of [gameParams] are within the ranges of the constructor
    (for instance 2 <= ballSpeed <= 7), whatever the random draws. *)
Theorem snapshot_within_bounds
    (d : Params.t) (t0 : Q) (calls : list (Q * bool)) (w : World) :
  fair w -> monotone t0 calls -> snapshotBounded d ->
  snapshotBounded
    (Chaos.gameParams (fst (updates calls (Chaos.constructor d) w))).
Proof.
  intros Hfair Hmono Hd.
  assert (Hok : Forall (entryOk t0) (Chaos.chaosParams (Chaos.constructor d))).
  { unfold snapshotBounded in Hd. apply constructor_entryOk; tauto. }
  assert (Hgen : forall calls t0 c w,
             fair w -> monotone t0 calls ->
             Forall (entryOk t0) (Chaos.chaosParams c) ->
             List.map shape (Chaos.chaosParams c)
             = List.map shape (Chaos.chaosParams (Chaos.constructor d)) /\
             snapshotBounded (Chaos.gameParams c) ->
             snapshotBounded (Chaos.gameParams (fst (updates calls c w)))).
  { clear. induction calls as [ | [t active] calls IH];
      intros t0 c w Hfair Hmono Hok [Hsh Hsn].
    - exact Hsn.
    - cbn [updates]. destruct Hmono as [Ht Hmono].
      destruct (update_ok t0 t active c w Hfair Ht Hok) as [Hok' Hfair'].
      pose proof (update_snapshot d t0 t active c w Hfair Ht Hok Hsh Hsn) as Hinv'.
      destruct (Chaos.update t active c w) as [c' w']. cbn [fst snd] in *.
      exact (IH t c' w' Hfair' Hmono Hok' Hinv'). }
  apply (Hgen calls t0 _ w Hfair Hmono Hok).
  split; [reflexivity | exact Hd].
Qed.

Lemma snapshot_within_bounds_witness :
  let calls := [(5000, true); (20000, true); (20016, true); (26000, true)] in
  fair (steadyWorld 0.9) /\ monotone 0 calls /\ snapshotBounded Params.defaultParams /\
  snapshotBounded
    (Chaos.gameParams
       (fst (updates calls (Chaos.constructor Params.defaultParams) (steadyWorld 0.9)))).
Proof.
  intros calls.
  assert (Hfair : fair (steadyWorld 0.9)) by (intros n; cbn; lra).
  assert (Hmono : monotone 0 calls) by (cbn; lra).
  assert (Hd : snapshotBounded Params.defaultParams).
  { unfold snapshotBounded. cbn. lra. }
  split; [exact Hfair | split; [exact Hmono | split; [exact Hd | ]]].
  exact (snapshot_within_bounds Params.defaultParams 0 calls (steadyWorld 0.9)
           Hfair Hmono Hd).
Defined.

(** *** Colours *)

Lemma transitionColor_wellFormed (currentColor targetColor : string) (speed : Q) :
  0 <= speed <= 1 ->
  wellFormed (Utils.transitionColor currentColor targetColor speed).
Proof.
  intros Hs.
  destruct (hexToRgb_channels currentColor) as (Hcr & Hcg & Hcb).
  destruct (hexToRgb_channels targetColor) as (Htr & Htg & Htb).
  unfold Utils.transitionColor.
  pose proof (blend_channel _ _ speed Hcr Htr Hs) as Hr.
  pose proof (blend_channel _ _ speed Hcg Htg Hs) as Hg.
  pose proof (blend_channel _ _ speed Hcb Htb Hs) as Hb.
  rewrite (rgbToHex_rrggbb _ _ _ Hr Hg Hb).
  eexists. eexists. eexists.
  split; [exact Hr | split; [exact Hg | split; [exact Hb | reflexivity]]].
Qed.

Lemma wellFormed_colourString (s : string) : wellFormed s -> colourString s.
Proof.
  intros (r & g & b & Hr & Hg & Hb & ->).
  apply execHex_colourString.
  rewrite (execHex_rrggbb _ _ _ Hr Hg Hb). discriminate.
Qed.

Lemma getColor_setColor (n m : Params.colorName) (s : string) (gp : Params.t) :
  (n = m /\ Params.getColor n (Params.setColor m s gp) = s) \/
  (n <> m /\ Params.getColor n (Params.setColor m s gp) = Params.getColor n gp).
Proof.
  destruct n, m; try (left; split; reflexivity); right; split;
    try reflexivity; discriminate.
Qed.

Lemma updateColor_colours (t : Q) (p : ColorParam.t) (tp gp : Params.t) (w : World)
    (n : Params.colorName) :
  let result := Chaos.updateColor t p tp gp w in
  ColorParam.name (fst (fst (fst result))) = ColorParam.name p /\
  (n = ColorParam.name p \/ wellFormed (Params.getColor n gp) ->
   wellFormed (Params.getColor n (snd (fst result)))).
Proof.
  assert (Hs : 0 <= 0.02 <= 1) by lra.
  unfold Chaos.updateColor, Chaos.getRandomColor, random.
  destruct (t >=? ColorParam.nextChange p); cbn [fst snd ColorParam.name];
    (split; [reflexivity | ]);
    match goal with
    | |- context [Params.getColor n (Params.setColor ?m ?s ?g)] =>
        destruct (getColor_setColor n m s g) as [[_ ->] | [Hne ->]]
    end;
    try (intros _; apply transitionColor_wellFormed, Hs);
    (intros [H | H]; [contradiction | exact H]).
Qed.

Lemma updateEachColor_colours (t : Q) (ps : list ColorParam.t) (tp gp : Params.t)
    (w : World) (n : Params.colorName) :
  let result := Chaos.updateEachColor t ps tp gp w in
  List.map ColorParam.name (fst (fst (fst result))) = List.map ColorParam.name ps /\
  (In n (List.map ColorParam.name ps) \/ wellFormed (Params.getColor n gp) ->
   wellFormed (Params.getColor n (snd (fst result)))).
Proof.
  revert tp gp w. induction ps as [ | p ps IH]; intros tp gp w.
  - cbn. split; [reflexivity | intros [[] | H]; exact H].
  - cbn [Chaos.updateEachColor].
    pose proof (updateColor_colours t p tp gp w n) as [Hname Hp].
    destruct (Chaos.updateColor t p tp gp w) as [[[p' tp1] gp1] w1].
    pose proof (IH tp1 gp1 w1) as [Hnames Hr].
    destruct (Chaos.updateEachColor t ps tp1 gp1 w1) as [[[ps' tp2] gp2] w2].
    cbn [fst snd List.map] in *. split; [congruence | ].
    intros [[Hn | Hin] | Hwf]; apply Hr.
    + right. apply Hp. left. symmetry. exact Hn.
    + left. exact Hin.
    + right. apply Hp. right. exact Hwf.
Qed.

(** X10: once the chaos runs, the colours of the game are well formed.  A
    call of [update] past the start delay leaves [#rrggbb] strings with
    channels between 0 and 255 in the four colours of [gameParams], whatever
    strings were there before and whatever the draws; the colour entries
    keep their names, so the same holds for every later call. *)
Theorem update_colours_well_formed (t : Q) (c : Chaos.t) (w : World) :
  List.map ColorParam.name (Chaos.colorParams c) = colourNames ->
  ~ Chaos.startTime c == 0 ->
  Chaos.chaosStartDelay c <= t - Chaos.startTime c ->
  let c' := fst (Chaos.update t true c w) in
  List.map ColorParam.name (Chaos.colorParams c') = colourNames /\
  forall n, wellFormed (Params.getColor n (Chaos.gameParams c')) /\
            colourString (Params.getColor n (Chaos.gameParams c')).
Proof.
  intros Hnames Hstart Hdelay. unfold Chaos.update. cbn [negb].
  destruct (eq_reflect (Chaos.startTime c) 0) as [H0 | _]; [contradiction | ].
  destruct (lt_reflect (t - Chaos.startTime c) (Chaos.chaosStartDelay c)) as [Hlt | _];
    [exfalso; lra | ].
  unfold Chaos.updateParameters.
  destruct (Chaos.updateEach t (Chaos.chaosParams c) (Chaos.gameParams c) w)
    as [[ps' gp'] w1].
  unfold Chaos.updateColors.
  cbn [Chaos.colorParams Chaos.targetParams Chaos.gameParams Chaos.with_params].
  match goal with
  | |- context [Chaos.updateEachColor ?a ?b ?c ?d ?e] =>
      pose proof (fun n => updateEachColor_colours a b c d e n) as Hcol;
      destruct (Chaos.updateEachColor a b c d e) as [[[cps tp2] gp2] w2]
  end.
  cbn [fst snd] in Hcol.
  assert (Hwf : forall n, wellFormed (Params.getColor n gp2)).
  { intros n. apply (Hcol n). left. rewrite Hnames.
    destruct n; cbn; tauto. }
  unfold Chaos.updateInvertedControls.
  destruct (_ >=? _); cbn [fst snd Chaos.colorParams Chaos.gameParams random];
    (split; [rewrite <- Hnames; apply (Hcol Params.BallColor) | ]);
    intros n; (split; [ | apply wellFormed_colourString]);
    try exact (Hwf n);
    (replace (Params.getColor n (Params.setInvertControls _ gp2))
       with (Params.getColor n gp2) by (destruct n; reflexivity));
    exact (Hwf n).
Qed.

Lemma update_colours_well_formed_witness :
  let c := Chaos.set_startTime (Chaos.constructor Params.defaultParams) 1000 in
  ~ Chaos.startTime c == 0 /\
  forall n,
    colourString
      (Params.getColor n
         (Chaos.gameParams (fst (Chaos.update 12000 true c (steadyWorld 0.3))))).
Proof.
  intros c.
  assert (H0 : ~ Chaos.startTime c == 0) by (intro H; discriminate H).
  split; [exact H0 | ].
  assert (Hn : List.map ColorParam.name (Chaos.colorParams c) = colourNames)
    by reflexivity.
  assert (Hd : Chaos.chaosStartDelay c <= 12000 - Chaos.startTime c)
    by (cbn; lra).
  intros n.
  destruct (update_colours_well_formed 12000 c (steadyWorld 0.3) Hn H0 Hd) as [_ H].
  destruct (H n) as [_ Hc]. exact Hc.
Defined.

(** *** Reset *)

(** X11: a reset starts the delay again.  After [reset], the parameters are
    the defaults of the controller, and they stay so through a first call
    with a non-zero timestamp [t0] and every call that comes less than the
    start delay after [t0]; none of these calls draws a random number.  The
    entries are back at the default values with no change scheduled. *)
Theorem reset_restarts_delay (c : Chaos.t) (t0 : Q) (calls : list (Q * bool)) (w : World) :
  ~ t0 == 0 ->
  0 < Chaos.chaosStartDelay c ->
  (forall t a, In (t, a) calls -> t - t0 < Chaos.chaosStartDelay c) ->
  let result := updates ((t0, true) :: calls) (Chaos.reset c) w in
  Chaos.gameParams (fst result) = Chaos.defaultParams c /\
  snd result = w /\
  Forall (fun p => ChaosParam.nextChange p = 0 /\
                   ChaosParam.target p = ChaosParam.current p /\
                   ChaosParam.current p
                   = Js.orNum (Params.get (ChaosParam.name p) (Chaos.defaultParams c)) 0)
         (Chaos.chaosParams (fst result)).
Proof.
  intros Ht0 Hpos Hall. cbn [updates].
  assert (Hfirst : Chaos.update t0 true (Chaos.reset c) w
                   = (Chaos.set_startTime (Chaos.reset c) t0, w)).
  { unfold Chaos.update. cbn [negb Chaos.startTime Chaos.reset].
    change (0 === 0) with true.
    cbn [Chaos.set_startTime Chaos.startTime Chaos.chaosStartDelay].
    change (Chaos.chaosStartDelay (Chaos.reset c)) with (Chaos.chaosStartDelay c).
    destruct (lt_reflect (t0 - t0) (Chaos.chaosStartDelay c)) as [_ | H];
      [reflexivity | ].
    exfalso. apply H. lra. }
  rewrite Hfirst.
  rewrite updates_within_delay; [ | exact Ht0 | exact Hall].
  cbn [fst snd Chaos.set_startTime Chaos.reset Chaos.gameParams Chaos.chaosParams].
  split; [reflexivity | split; [reflexivity | ]].
  apply Forall_forall. intros p Hin. apply in_map_iff in Hin.
  destruct Hin as (q & <- & _). cbn. repeat split.
Qed.

Lemma reset_restarts_delay_witness :
  let c := fst (updates [(1000, true); (12000, true); (12016, true)]
                  (Chaos.constructor Params.defaultParams) (steadyWorld 0.9)) in
  ~ 50000 == 0 /\
  ~ Chaos.gameParams c = Params.defaultParams /\
  Chaos.gameParams
    (fst (updates [(50000, true); (50016, true); (59999, true)] (Chaos.reset c)
            (steadyWorld 0.9)))
  = Params.defaultParams.
Proof.
  intros c.
  assert (H0 : ~ 50000 == 0) by (intro H; discriminate H).
  split; [exact H0 | ].
  split.
  { intros H. apply (f_equal Params.ballSpeed) in H. revert H.
    vm_compute. discriminate. }
  assert (Hd : 0 < Chaos.chaosStartDelay c) by (vm_compute; reflexivity).
  assert (Hdelay : Chaos.chaosStartDelay c = 10000) by (vm_compute; reflexivity).
  assert (Hdef : Chaos.defaultParams c = Params.defaultParams)
    by (vm_compute; reflexivity).
  rewrite <- Hdef.
  apply (reset_restarts_delay c 50000 [(50016, true); (59999, true)]
           (steadyWorld 0.9) H0 Hd).
  rewrite Hdelay.
  intros t a [H | [H | []]]; injection H as <- <-; lra.
Defined.
(** ** More on the paddle *)

Lemma adopt_keeps {Ref : Type} (updatedParams : option Ref) (p : Paddle.t Ref) :
  Paddle.y (Paddle.adopt updatedParams p) = Paddle.y p /\
  Paddle.height (Paddle.adopt updatedParams p) = Paddle.height p /\
  Paddle.x (Paddle.adopt updatedParams p) = Paddle.x p /\
  Paddle.width (Paddle.adopt updatedParams p) = Paddle.width p /\
  Paddle.isLeft (Paddle.adopt updatedParams p) = Paddle.isLeft p.
Proof. destruct updatedParams; repeat split. Qed.

Lemma clamp_range (lo hi v : Q) :
  lo <= Qmax lo (Qmin hi v) /\ (lo <= hi -> Qmax lo (Qmin hi v) <= hi).
Proof.
  split; [apply Q.le_max_l | ].
  intros H. apply Q.max_lub; [exact H | apply Q.le_min_l].
Qed.

Lemma clamp_inside (lo hi v : Q) :
  lo <= v -> v <= hi -> Qmax lo (Qmin hi v) == v.
Proof.
  intros Hlo Hhi. rewrite (Q.min_r hi v Hhi). apply Q.max_r. exact Hlo.
Qed.

(** X12: the keys of a paddle.  The left paddle reads [w], [W], [s] and [S]
    only, the right one the two arrows only; an up key moves the paddle up
    by [paddleSpeed], a down key down by as much, and both together leave it
    where it is; the result is then clamped, so that it is never above the
    field and, when the paddle fits in the field, never below the range. *)
Theorem update_keys {Ref : Type} (deref : Ref -> Params.t)
    (keys : Keys.t) (canvas : Canvas.t) (updatedParams : option Ref)
    (p : Paddle.t Ref) :
  let params := deref (Paddle.gameParams (Paddle.adopt updatedParams p)) in
  let field := Utils.getFieldOffset canvas params in
  let lo := Field.y field in
  let hi := Field.y field + Field.height field - Paddle.height p in
  let speed := Params.paddleSpeed params in
  let up := if Paddle.isLeft p then Keys.w keys || Keys.W keys
            else Keys.ArrowUp keys in
  let down := if Paddle.isLeft p then Keys.s keys || Keys.S keys
              else Keys.ArrowDown keys in
  let p' := Paddle.update deref keys canvas updatedParams p in
  (exists moved,
      Paddle.y p' = Qmax lo (Qmin hi moved) /\
      (up = true -> down = false -> moved == Paddle.y p - speed) /\
      (up = false -> down = true -> moved == Paddle.y p + speed) /\
      (up = down -> moved == Paddle.y p)) /\
  lo <= Paddle.y p' /\
  (Paddle.height p <= Field.height field -> Paddle.y p' <= hi) /\
  Paddle.x p' = Paddle.x p /\ Paddle.height p' = Paddle.height p.
Proof.
  intros params field lo hi speed up down p'.
  destruct (adopt_keeps updatedParams p) as (Hy & Hh & Hx & _ & Hl).
  set (moved := let y1 := if up then Paddle.y p - speed else Paddle.y p in
                if down then y1 + speed else y1).
  assert (Hp' : Paddle.y p' = Qmax lo (Qmin hi moved)).
  { subst p' moved lo hi up down speed field params. unfold Paddle.update.
    cbn [Paddle.y Paddle.set_y]. rewrite Hy, Hh, Hl.
    destruct (Paddle.isLeft p); reflexivity. }
  split; [exists moved; split; [exact Hp' | ] | ].
  - subst moved. cbv zeta.
    destruct up, down; repeat split; intros; try discriminate; lra.
  - rewrite Hp'. destruct (clamp_range lo hi moved) as [Hlo Hhi].
    split; [exact Hlo | ]. split.
    + intros Hfit. apply Hhi. subst lo hi. lra.
    + subst p'. unfold Paddle.update. cbn [Paddle.x Paddle.height Paddle.set_y].
      split; assumption.
Qed.

(** X13: the AI paddle steps past its target.  Away from the borders of the
    field and with a non-negative paddle speed, [updateAI] changes the
    distance between the centre of the paddle and [targetY] from [d] to
    [| |d| - step |] with [step = paddleSpeed * 0.8]: the paddle comes
    closer by a full step when the target is at least a step away, and
    ends on the other side of the target when it is nearer than a step. *)
Theorem updateAI_distance {Ref : Type} (deref : Ref -> Params.t)
    (targetY : Q) (canvas : Canvas.t) (updatedParams : option Ref)
    (p : Paddle.t Ref) :
  let params := deref (Paddle.gameParams (Paddle.adopt updatedParams p)) in
  let field := Utils.getFieldOffset canvas params in
  let step := Params.paddleSpeed params * 0.8 in
  let p' := Paddle.updateAI deref targetY canvas updatedParams p in
  let d := targetY - (Paddle.y p + Paddle.height p / 2) in
  let d' := targetY - (Paddle.y p' + Paddle.height p' / 2) in
  0 <= Params.paddleSpeed params ->
  Field.y field <= Paddle.y p - step ->
  Paddle.y p + step <= Field.y field + Field.height field - Paddle.height p ->
  (d == 0 -> d' == 0) /\
  (~ d == 0 -> Qabs d' == Qabs (Qabs d - step)) /\
  (step <= Qabs d -> Qabs d' == Qabs d - step) /\
  (0 < Qabs d < step -> d * d' < 0).
Proof.
  intros params field step p' d d' Hspeed Hlo Hhi.
  destruct (adopt_keeps updatedParams p) as (Hy & Hh & _).
  assert (Hstep : 0 <= step) by (subst step; lra).
  assert (Hp' : Paddle.y p' == Paddle.y p + Js.sign d * step /\
                Paddle.height p' = Paddle.height p).
  { subst p' d step field params. unfold Paddle.updateAI.
    cbn [Paddle.y Paddle.height Paddle.set_y]. rewrite Hy, Hh.
    split; [ | reflexivity]. apply clamp_inside.
    - match goal with
      | |- context [Js.sign ?a] =>
          destruct (sign_cases a) as [[_ ->] | [[_ ->] | [_ ->]]]
      end; lra.
    - match goal with
      | |- context [Js.sign ?a] =>
          destruct (sign_cases a) as [[_ ->] | [[_ ->] | [_ ->]]]
      end; lra. }
  destruct Hp' as [Hy' Hh'].
  assert (Hd' : d' == d - Js.sign d * step).
  { subst d' d. rewrite Hh', Hy'. ring. }
  clearbody d d' step. clear Hy' Hh' Hlo Hhi.
  destruct (sign_cases d) as [[Hs Hsign] | [[Hs Hsign] | [Hs Hsign]]];
    rewrite Hsign in Hd'.
  - assert (Ha : Qabs d == d) by (apply Qabs_pos; lra).
    split; [intros H; lra | ].
    split; [intros _; rewrite Ha, Hd'; apply Qabs_wd; ring | ].
    split.
    + intros H. rewrite Ha in *. rewrite Hd'.
      rewrite Qabs_pos by lra. ring.
    + rewrite Ha. intros [_ H]. rewrite Hd'. nra.
  - assert (Ha : Qabs d == - d) by (apply Qabs_neg; lra).
    split; [intros H; lra | ].
    split.
    { intros _. rewrite Ha, Hd'.
      rewrite <- (Qabs_opp (d - -1 * step)). apply Qabs_wd. ring. }
    split.
    + intros H. rewrite Ha in *. rewrite Hd'.
      rewrite Qabs_neg by lra. ring.
    + rewrite Ha. intros [_ H]. rewrite Hd'. nra.
  - split; [intros _; rewrite Hd'; lra | ].
    split; [intros H; contradiction | ].
    assert (Ha : Qabs d == 0) by (rewrite Hs; reflexivity).
    split.
    + intros H. rewrite Ha in *. rewrite Hd', Hs.
      assert (step == 0) by lra.
      assert (E : 0 - 0 * step == 0) by ring. rewrite E. rewrite H0. reflexivity.
    + rewrite Ha. intros [H _]. lra.
Qed.

Lemma updateAI_distance_witness :
  let canvas := {| Canvas.width := 800; Canvas.height := 480 |} in
  let p := {| Paddle.x := 50; Paddle.y := 190; Paddle.width := 15;
              Paddle.height := 100; Paddle.isLeft := true;
              Paddle.gameParams := Params.defaultParams;
              Paddle.color := "#00ffff" |} in
  let p' := Paddle.updateAI (fun r => r) 243 canvas None p in
  0 <= Params.paddleSpeed Params.defaultParams /\
  (243 - (Paddle.y p + Paddle.height p / 2))
  * (243 - (Paddle.y p' + Paddle.height p' / 2)) < 0.
Proof.
  intros canvas p p'.
  assert (Hs : 0 <= Params.paddleSpeed Params.defaultParams) by (cbn; lra).
  split; [exact Hs | ].
  apply (updateAI_distance (fun r => r) 243 canvas None p Hs).
  - cbn. qconst. lra.
  - cbn. qconst. lra.
  - split; vm_compute; reflexivity.
Defined.
(** ** More on the ball *)

Lemma sameExceptMotion_refl (b : Ball.t) : sameExceptMotion b b.
Proof. repeat split. Qed.

Lemma sameExceptMotion_trans (a b c : Ball.t) :
  sameExceptMotion a b -> sameExceptMotion b c -> sameExceptMotion a c.
Proof.
  unfold sameExceptMotion. intros H1 H2.
  repeat match goal with H : _ /\ _ |- _ => destruct H end.
  repeat split; congruence.
Qed.

(** X14: a reset puts the ball at the centre of the canvas, whatever the
    fractions of the field are, with a horizontal speed of 1 at least,
    whatever the host's [cos] and [sin] return; it draws three random
    numbers and changes nothing but the position and the velocity. *)
Theorem reset_centre {host : MathHost} (canvas : Canvas.t) (b : Ball.t) (w : World) :
  let b' := fst (Ball.reset canvas b w) in
  let w' := snd (Ball.reset canvas b w) in
  Ball.x b' == Canvas.width canvas / 2 /\
  Ball.y b' == Canvas.height canvas / 2 /\
  1 <= Qabs (Ball.dx b') /\
  sameExceptMotion b b' /\
  randPos w' = (randPos w + 3)%nat /\ rand w' = rand w.
Proof.
  unfold Ball.reset. cbv zeta. unfold random. ball_simpl.
  match goal with
  | |- context [if Qabs ?v <? 1 then _ else _] =>
      destruct (lt_reflect (Qabs v) 1) as [Hlt | Hge]
  end; ball_simpl; cbn [rand randPos]; unfold Utils.getFieldOffset;
    cbn [Field.x Field.y Field.width Field.height]; qconst.
  - repeat split; try ring; try (f_equal; lia).
    destruct (_ <? 0.5); vm_compute; discriminate.
  - repeat split; try ring; try (f_equal; lia).
    apply Qnot_lt_le in Hge. exact Hge.
Qed.

Lemma Qabs_idem (a : Q) : Qabs (Qabs a) == Qabs a.
Proof. apply Qabs_pos, Qabs_nonneg. Qed.

(** X15: the walls.  [handleWallCollision] reports no collision exactly
    when the ball lies between the top and the bottom of the field, and then
    leaves the ball as it is; in every case it keeps [x], [dx] and the size
    of [dy], and touches nothing but [y] and [dy]. *)
Theorem handleWallCollision_inside (field : Field.t) (r : Q) (b : Ball.t) :
  let b' := fst (Ball.handleWallCollision field r b) in
  let hit := snd (Ball.handleWallCollision field r b) in
  (hit = false <-> insideWalls field r b) /\
  (hit = false -> b' = b) /\
  Ball.x b' = Ball.x b /\ Ball.dx b' = Ball.dx b /\
  Qabs (Ball.dy b') == Qabs (Ball.dy b) /\
  sameExceptMotion b b'.
Proof.
  unfold Ball.handleWallCollision, insideWalls.
  destruct (lt_reflect (Ball.y b - r) (Field.y field)) as [Htop | Htop]; ball_simpl;
    match goal with
    | |- context [?a >? ?c] => destruct (gt_reflect a c) as [Hbot | Hbot]
    end; ball_simpl;
    (split; [split; [intros H; try discriminate H; lra
                    | intros H; try reflexivity; exfalso; lra] | ]);
    (split; [intros H; try discriminate H; reflexivity | ]);
    (split; [reflexivity | split; [reflexivity | ]]);
    (split; [ | repeat split]);
    repeat (rewrite ?Qabs_opp, ?Qabs_idem); reflexivity.
Qed.

(** X16: the paddle.  [handlePaddleCollision] reports a hit exactly when
    the box of the ball meets or touches the paddle, and leaves the ball as
    it is otherwise.  After a hit on a side the ball lies flush against
    that side, at its old height, with a horizontal speed of 2.2 at least;
    after a hit on the top or bottom it lies flush against that face, at its
    old [x]. *)
Theorem handlePaddleCollision_overlap {Ref : Type}
    (paddle : Paddle.t Ref) (r : Q) (b : Ball.t) :
  let b' := fst (Ball.handlePaddleCollision paddle r b) in
  let hit := snd (Ball.handlePaddleCollision paddle r b) in
  (hit = true <-> overlaps paddle r b) /\
  (hit = false -> b' = b) /\
  (hit = true -> horizontalFace paddle r b = true ->
   (Ball.x b' + r == Paddle.x paddle \/
    Ball.x b' - r == Paddle.x paddle + Paddle.width paddle) /\
   Ball.y b' = Ball.y b /\ 2.2 <= Qabs (Ball.dx b')) /\
  (hit = true -> horizontalFace paddle r b = false ->
   (Ball.y b' + r == Paddle.y paddle \/
    Ball.y b' - r == Paddle.y paddle + Paddle.height paddle) /\
   Ball.x b' = Ball.x b) /\
  sameExceptMotion b b'.
Proof.
  unfold Ball.handlePaddleCollision, horizontalFace, overlaps.
  set (oL := Ball.x b + r - Paddle.x paddle).
  set (oR := Paddle.x paddle + Paddle.width paddle - (Ball.x b - r)).
  set (oT := Ball.y b + r - Paddle.y paddle).
  set (oB := Paddle.y paddle + Paddle.height paddle - (Ball.y b - r)).
  set (m := Js.min4 oL oR oT oB).
  destruct (ge_reflect (Ball.x b + r) (Paddle.x paddle)) as [H1 | H1];
    [destruct (le_reflect (Ball.x b - r) (Paddle.x paddle + Paddle.width paddle))
       as [H2 | H2];
     [destruct (ge_reflect (Ball.y b + r) (Paddle.y paddle)) as [H3 | H3];
      [destruct (le_reflect (Ball.y b - r) (Paddle.y paddle + Paddle.height paddle))
         as [H4 | H4] | ] | ] | ];
    cbn [andb fst snd];
    try (split; [split; [intros H; discriminate H | intros H; exfalso; tauto] | ];
         split; [reflexivity | ];
         split; [intros H; discriminate H | ];
         split; [intros H; discriminate H | repeat split]).
  split; [split; [tauto | reflexivity] | ].
  split; [intros H; discriminate H | ].
  split; [ | split].
  - intros _ Hface. rewrite Hface.
    destruct (m === oL); ball_simpl;
      match goal with
      | |- context [Qabs ?v <? 2] => destruct (lt_reflect (Qabs v) 2) as [Hs | Hs]
      end; ball_simpl;
      (split; [try (left; ring); right; ring | split; [reflexivity | ]]);
      rewrite Qabs_Qmult; change (Qabs (1 + 0.1)) with 1.1;
      try (destruct (_ >? 0); cbn; discriminate); lra.
  - intros _ Hface. rewrite Hface.
    destruct (m === oT); ball_simpl;
      (split; [try (left; ring); right; ring | reflexivity]).
  - destruct (_ || _); [destruct (m === oL) | destruct (m === oT)]; ball_simpl;
      try match goal with
      | |- context [Qabs ?v <? 2] => destruct (Qabs v <? 2)
      end; repeat split.
Qed.

(** *** What [update] does to the ball *)

Lemma handleWallCollision_same (field : Field.t) (r : Q) (b : Ball.t) :
  sameExceptMotion b (fst (Ball.handleWallCollision field r b)).
Proof.
  unfold Ball.handleWallCollision.
  destruct (_ <? _); ball_simpl; destruct (_ >? _); ball_simpl; repeat split.
Qed.

Lemma handlePaddleCollision_same {Ref : Type} (paddle : Paddle.t Ref) (r : Q)
    (b : Ball.t) :
  sameExceptMotion b (fst (Ball.handlePaddleCollision paddle r b)).
Proof.
  unfold Ball.handlePaddleCollision.
  destruct (_ && _ && _ && _); ball_simpl; [ | repeat split].
  destruct (_ || _); ball_simpl.
  - destruct (_ === _); ball_simpl; destruct (_ <? _); ball_simpl; repeat split.
  - destruct (_ === _); ball_simpl; repeat split.
Qed.

Lemma reset_same {host : MathHost} (canvas : Canvas.t) (b : Ball.t) (w : World) :
  sameExceptMotion b (fst (Ball.reset canvas b w)).
Proof.
  unfold Ball.reset. cbv zeta. unfold random. ball_simpl.
  match goal with |- context [if ?c then Ball.set_vel _ _ _ else _] => destruct c end;
    ball_simpl; repeat split.
Qed.

Lemma reset_position {host : MathHost} (canvas : Canvas.t) (b : Ball.t) (w : World) :
  Ball.x (fst (Ball.reset canvas b w)) == Canvas.width canvas / 2 /\
  Ball.y (fst (Ball.reset canvas b w)) == Canvas.height canvas / 2.
Proof.
  unfold Ball.reset. cbv zeta. unfold random. ball_simpl.
  match goal with |- context [if ?c then Ball.set_vel _ _ _ else _] => destruct c end;
    ball_simpl; unfold Utils.getFieldOffset;
    cbn [Field.x Field.y Field.width Field.height]; qconst; split; ring.
Qed.

Lemma scored_shape {host : MathHost} {G : Type} (canvas : Canvas.t)
    (updateScore : option (Side.t -> G -> G)) (side : Side.t) (ts : Q)
    (b : Ball.t) (g : G) (w : World) :
  let b' := fst (fst (Ball.scored canvas updateScore side ts b g w)) in
  (Ball.shouldRespawn b = true ->
   sameExceptMotion (Ball.set_lastScoreTime b ts) b' /\
   Ball.x b' == Canvas.width canvas / 2 /\ Ball.y b' == Canvas.height canvas / 2) /\
  (Ball.shouldRespawn b = false -> b' = Ball.set_needsRemoval b true).
Proof.
  unfold Ball.scored. cbv zeta.
  destruct (Ball.shouldRespawn b).
  - pose proof (reset_same canvas (Ball.set_lastScoreTime b ts) w) as Hr.
    pose proof (reset_position canvas (Ball.set_lastScoreTime b ts) w) as Hc.
    destruct (Ball.reset canvas (Ball.set_lastScoreTime b ts) w) as [b' w'].
    split; [intros _; split; [exact Hr | exact Hc] | intros H; discriminate H].
  - split; [intros H; discriminate H | reflexivity].
Qed.

Lemma carried_same (b s s' : Ball.t) :
  carried b s -> sameExceptMotion s s' -> carried b s'.
Proof.
  unfold carried, sameSettings, sameExceptMotion. intros H1 H2.
  repeat match goal with H : _ /\ _ |- _ => destruct H end.
  repeat split; congruence.
Qed.

Ltac ball_fields :=
  cbn [fst snd Ball.x Ball.y Ball.dx Ball.dy Ball.set_vel Ball.set_pos
       Ball.gameParams Ball.size Ball.color Ball.shouldRespawn Ball.lastScoreTime
       Ball.needsRemoval Ball.resetDelay Ball.trail Ball.maxTrailLength
       Ball.set_lastScoreTime Ball.set_needsRemoval Ball.set_trail
       Ball.set_shouldRespawn Ball.set_gameParams] in *.

(** The parts of the ball that [update] handles apart from the motion. *)
Lemma update_shape {host : MathHost} {Ref G : Type} (canvas : Canvas.t)
    (updateScore : option (Side.t -> G -> G)) (ts : Q)
    (paddleLeft paddleRight : Paddle.t Ref) (shake : Q)
    (createMultiball : option (Ball.t -> G -> World -> G * World))
    (b : Ball.t) (g : G) (w : World) :
  let result := Ball.update canvas updateScore ts paddleLeft paddleRight shake
                  createMultiball b g w in
  let b' := fst (fst (fst result)) in
  (waiting ts b -> result = (b, shake, g, w)) /\
  (~ waiting ts b ->
   sameSettings b b' /\
   Ball.trail b' = afterTrail b /\
   (Ball.needsRemoval b' = Ball.needsRemoval b \/
    (Ball.shouldRespawn b = false /\ Ball.needsRemoval b' = true)) /\
   (Ball.lastScoreTime b'
    = (if Ball.lastScoreTime b >? 0 then 0 else Ball.lastScoreTime b) \/
    (Ball.shouldRespawn b = true /\ Ball.lastScoreTime b' = ts /\
     Ball.x b' == Canvas.width canvas / 2 /\
     Ball.y b' == Canvas.height canvas / 2))).
Proof.
  cbv zeta. unfold Ball.update.
  assert (Hw : (Ball.lastScoreTime b >? 0)
               && (ts - Ball.lastScoreTime b <? Ball.resetDelay b) = true
               <-> waiting ts b).
  { unfold waiting.
    destruct (gt_reflect (Ball.lastScoreTime b) 0);
      destruct (lt_reflect (ts - Ball.lastScoreTime b) (Ball.resetDelay b));
      cbn [andb]; split; intros H; try discriminate H; tauto. }
  destruct (_ && _).
  { split; [reflexivity | intros H; exfalso; apply H, Hw; reflexivity]. }
  split; [intros H; apply Hw in H; discriminate H | intros _]. clear Hw.
  cbv zeta.
  match goal with
  | |- context [Ball.handleWallCollision ?f ?r ?x] =>
      assert (Hs1 : carried b (fst (Ball.handleWallCollision f r x)));
      [ apply (carried_same b x); [ | apply handleWallCollision_same];
        unfold carried, sameSettings, afterTrail;
        destruct (Ball.lastScoreTime b >? 0);
        cbn [Ball.gameParams Ball.set_lastScoreTime Ball.trail Ball.x Ball.y
             Ball.size Ball.maxTrailLength];
        destruct (Params.trailEffect (Ball.gameParams b));
        try (cbv zeta; destruct (Nat.ltb _ _)); repeat split
      | destruct (Ball.handleWallCollision f r x) as [s1 wallHit] ]
  end.
  cbn [fst snd] in Hs1.
  match goal with
  | |- context [if Ball.dx s1 <? 0 then ?A else ?B] =>
      assert (Hs2 : carried b (fst (if Ball.dx s1 <? 0 then A else B)));
      [ | destruct (if Ball.dx s1 <? 0 then A else B) as [s2 hitL] ]
  end.
  { destruct (Ball.dx s1 <? 0); [ | exact Hs1].
    match goal with
    | |- context [Ball.handlePaddleCollision ?p ?r ?s] =>
        pose proof (handlePaddleCollision_same p r s) as Hk;
        destruct (Ball.handlePaddleCollision p r s)
    end. cbn [fst snd] in *. exact (carried_same _ _ _ Hs1 Hk). }
  cbn [fst snd] in Hs2. clear Hs1.
  match goal with
  | |- context [if Ball.dx s2 >? 0 then ?A else ?B] =>
      assert (Hs3 : carried b (fst (if Ball.dx s2 >? 0 then A else B)));
      [ | destruct (if Ball.dx s2 >? 0 then A else B) as [s3 hitR] ]
  end.
  { destruct (Ball.dx s2 >? 0); [ | exact Hs2].
    match goal with
    | |- context [Ball.handlePaddleCollision ?p ?r ?s] =>
        pose proof (handlePaddleCollision_same p r s) as Hk;
        destruct (Ball.handlePaddleCollision p r s)
    end. cbn [fst snd] in *. exact (carried_same _ _ _ Hs2 Hk). }
  cbn [fst snd] in Hs3. clear Hs2.
  match goal with
  | |- context [if hitR then ?A else ?B] =>
      destruct (if hitR then A else B) as [[sh g1] w1]
  end.
  destruct Hs3 as ((Hp & Hsz & Hc & Hrd & Hsr & Hmt) & Htr & Hnr & Hls).
  match goal with
  | |- context [if ?c then Ball.scored ?cv ?us ?sd ?tt ?bb ?gg ?ww else ?B] =>
      assert (Hs4 :
        let s := fst (fst (if c then Ball.scored cv us sd tt bb gg ww else B)) in
        sameSettings b s /\ Ball.trail s = afterTrail b /\
        (Ball.needsRemoval s = Ball.needsRemoval b \/
         (Ball.shouldRespawn b = false /\ Ball.needsRemoval s = true)) /\
        (Ball.lastScoreTime s
         = (if Ball.lastScoreTime b >? 0 then 0 else Ball.lastScoreTime b) \/
         (Ball.shouldRespawn b = true /\ Ball.lastScoreTime s = ts /\
          Ball.x s == Canvas.width canvas / 2 /\
          Ball.y s == Canvas.height canvas / 2)));
      [ destruct c;
        [ pose proof (scored_shape cv us sd tt bb gg ww) as [Hy Hn];
          destruct (Ball.scored cv us sd tt bb gg ww) as [[s4 g2] w2];
          cbn [fst snd] in *; unfold sameSettings;
          destruct (Ball.shouldRespawn s3) eqn:E;
          [ destruct (Hy eq_refl) as ((? & ? & ? & ? & ? & ? & ? & ? & ?) & Hcx & Hcy);
            ball_fields;
            split; [repeat split; congruence | ];
            split; [congruence | ];
            split; [left; congruence
                   | right; split; [congruence | split; [congruence | ]];
                     split; assumption]
          | rewrite (Hn eq_refl); ball_fields;
            split; [repeat split; congruence | ];
            split; [congruence | ];
            split; [right; split; congruence | left; congruence] ]
        | cbn [fst snd]; unfold sameSettings;
          split; [repeat split; assumption | ];
          split; [assumption | ];
          split; left; assumption ]
      | destruct (if c then Ball.scored cv us sd tt bb gg ww else B)
          as [[s4 g2] w2] ]
  end.
  cbn [fst snd] in Hs4. clear Hp Hsz Hc Hrd Hsr Hmt Htr Hnr Hls.
  destruct Hs4 as ((Hp & Hsz & Hc & Hrd & Hsr & Hmt) & Htr & Hnr & Hls).
  match goal with
  | |- context [if ?c then Ball.scored ?cv ?us ?sd ?tt ?bb ?gg ?ww else ?B] =>
      destruct c;
      [ pose proof (scored_shape cv us sd tt bb gg ww) as [Hy Hn];
        destruct (Ball.scored cv us sd tt bb gg ww) as [[s5 g3] w3];
        cbn [fst snd] in *; unfold sameSettings;
        destruct (Ball.shouldRespawn s4) eqn:E;
        [ destruct (Hy eq_refl) as ((? & ? & ? & ? & ? & ? & ? & ? & ?) & Hcx & Hcy);
          ball_fields;
          split; [repeat split; congruence | ];
          split; [congruence | ];
          split; [destruct Hnr as [Hnr | [Hnr _]]; [left | exfalso]; congruence
                 | right; split; [congruence | split; [congruence | ]];
                   split; assumption]
        | rewrite (Hn eq_refl); ball_fields;
          split; [repeat split; congruence | ];
          split; [congruence | ];
          split; [right; split; congruence | ];
          destruct Hls as [Hls | [Hls _]]; [left | exfalso]; congruence ]
      | cbn [fst snd]; unfold sameSettings;
        split; [repeat split; assumption | ];
        split; [assumption | ];
        split; assumption ]
  end.
Qed.

(** X17: the pause after a score.  When a call of [update] at a positive
    time [ts] makes the ball score and respawn, the ball is at the centre of
    the canvas, and every call that comes less than [resetDelay] after [ts]
    leaves the ball, the shake, the owner and the random draws as they
    are, whatever the paddles do. *)
Theorem update_pause_after_score {host : MathHost} {Ref G : Type}
    (canvas : Canvas.t) (updateScore : option (Side.t -> G -> G))
    (ts ts' : Q) (paddleLeft paddleRight paddleLeft' paddleRight' : Paddle.t Ref)
    (shake shake' : Q)
    (createMultiball : option (Ball.t -> G -> World -> G * World))
    (b : Ball.t) (g g' : G) (w w' : World) :
  let b' := fst (fst (fst (Ball.update canvas updateScore ts paddleLeft paddleRight
                             shake createMultiball b g w))) in
  0 < ts ->
  Ball.lastScoreTime b <> ts ->
  Ball.lastScoreTime b' = ts ->
  ts' - ts < Ball.resetDelay b ->
  (Ball.x b' == Canvas.width canvas / 2 /\ Ball.y b' == Canvas.height canvas / 2) /\
  Ball.update canvas updateScore ts' paddleLeft' paddleRight' shake'
    createMultiball b' g' w'
  = (b', shake', g', w').
Proof.
  intros b' Hts Hold Hnew Hwin.
  destruct (update_shape canvas updateScore ts paddleLeft paddleRight shake
              createMultiball b g w) as [Hwait Hmove].
  cbv zeta in Hwait, Hmove. fold b' in Hmove.
  assert (Hnot : ~ waiting ts b).
  { intros Hw. apply Hold. specialize (Hwait Hw).
    subst b'. rewrite Hwait in Hnew. exact Hnew. }
  destruct (Hmove Hnot) as ((_ & _ & _ & Hrd & _) & _ & _ & Hls).
  assert (Hc : Ball.x b' == Canvas.width canvas / 2 /\
               Ball.y b' == Canvas.height canvas / 2).
  { destruct Hls as [Hls | (_ & _ & Hc)]; [ | exact Hc].
    exfalso. rewrite Hnew in Hls.
    destruct (gt_reflect (Ball.lastScoreTime b) 0) as [Hp | Hp].
    - rewrite Hls in Hts. apply (Qlt_irrefl 0). exact Hts.
    - rewrite Hls in Hts. contradiction. }
  split; [exact Hc | ].
  apply (update_shape canvas updateScore ts' paddleLeft' paddleRight' shake'
           createMultiball b' g' w').
  unfold waiting. rewrite Hnew, Hrd. split; assumption.
Qed.

Lemma update_pause_after_score_witness :
  let canvas := {| Canvas.width := 800; Canvas.height := 480 |} in
  let b := ballAt 36 240 (-3) 1 in
  let pl := paddleAt 50 100 true in
  let pr := paddleAt 735 190 false in
  let b' := fst (fst (fst (Ball.update (host := taylorHost) (G := nat) canvas None
                             1000 pl pr 0 None b 0%nat (steadyWorld 0.5)))) in
  0 < 1000 /\ Ball.lastScoreTime b' = 1000 /\
  Ball.update (host := taylorHost) (G := nat) canvas None 1400 pl pr 2 None b' 7%nat
    (steadyWorld 0.1)
  = (b', 2, 7%nat, steadyWorld 0.1).
Proof.
  intros canvas b pl pr b'.
  assert (Hts : 0 < 1000) by reflexivity.
  assert (Hold : Ball.lastScoreTime b <> 1000) by discriminate.
  assert (Hnew : Ball.lastScoreTime b' = 1000) by (vm_compute; reflexivity).
  split; [exact Hts | split; [exact Hnew | ]].
  apply (update_pause_after_score (host := taylorHost) canvas None 1000 1400
           pl pr pl pr 0 2 None b 0%nat 7%nat (steadyWorld 0.5) (steadyWorld 0.1)
           Hts Hold Hnew).
  reflexivity.
Defined.

(** X18: the trail stays short.  A call of [update] keeps the trail within
    [maxTrailLength] points when it was so before; a call that moves the
    ball leaves the trail empty when the trail effect is off. *)
Theorem update_trail_bounded {host : MathHost} {Ref G : Type}
    (canvas : Canvas.t) (updateScore : option (Side.t -> G -> G))
    (ts : Q) (paddleLeft paddleRight : Paddle.t Ref) (shake : Q)
    (createMultiball : option (Ball.t -> G -> World -> G * World))
    (b : Ball.t) (g : G) (w : World) :
  let b' := fst (fst (fst (Ball.update canvas updateScore ts paddleLeft paddleRight
                             shake createMultiball b g w))) in
  (List.length (Ball.trail b) <= Ball.maxTrailLength b)%nat ->
  (List.length (Ball.trail b') <= Ball.maxTrailLength b')%nat /\
  (~ waiting ts b -> Params.trailEffect (Ball.gameParams b) = false ->
   Ball.trail b' = []).
Proof.
  intros b' Hlen.
  destruct (update_shape canvas updateScore ts paddleLeft paddleRight shake
              createMultiball b g w) as [Hwait Hmove].
  cbv zeta in Hwait, Hmove. fold b' in Hmove.
  assert (Hdec : waiting ts b \/ ~ waiting ts b).
  { unfold waiting.
    destruct (Qlt_le_dec 0 (Ball.lastScoreTime b));
      destruct (Qlt_le_dec (ts - Ball.lastScoreTime b) (Ball.resetDelay b));
      [left; tauto | right | right | right]; intros [H1 H2]; lra. }
  destruct Hdec as [Hw | Hn].
  - specialize (Hwait Hw). subst b'. rewrite Hwait. cbn [fst].
    split; [exact Hlen | intros H; contradiction].
  - destruct (Hmove Hn) as ((_ & _ & _ & _ & _ & Hmt) & Htr & _).
    rewrite Htr, Hmt. unfold afterTrail. split.
    + destruct (Params.trailEffect _); [ | cbn; lia].
      cbv zeta.
      match goal with
      | |- context [Nat.ltb ?a ?c] => destruct (Nat.ltb_spec a c) as [Hlt | Hge]
      end.
      * rewrite length_app in *. cbn [List.length] in *.
        destruct (Ball.trail b) as [ | pt rest]; cbn [List.tl List.app List.length] in *.
        -- lia.
        -- rewrite length_app. cbn [List.length]. lia.
      * exact Hge.
    + intros _ Hoff. rewrite Hoff. reflexivity.
Qed.

Lemma update_trail_bounded_witness :
  let canvas := {| Canvas.width := 800; Canvas.height := 480 |} in
  let b := ballAt 400 240 (-3) 1 in
  let b' := fst (fst (fst (Ball.update (host := taylorHost) (G := nat) canvas None
                             1000 (paddleAt 50 190 true) (paddleAt 735 190 false)
                             0 None b 0%nat (steadyWorld 0.5)))) in
  (List.length (Ball.trail b) <= Ball.maxTrailLength b)%nat /\
  (List.length (Ball.trail b') <= Ball.maxTrailLength b')%nat.
Proof.
  intros canvas b b'.
  assert (Hlen : (List.length (Ball.trail b) <= Ball.maxTrailLength b)%nat)
    by (cbn; lia).
  split; [exact Hlen | ].
  exact (proj1 (update_trail_bounded (host := taylorHost) (G := nat) canvas None 1000
                  (paddleAt 50 190 true) (paddleAt 735 190 false) 0 None b 0%nat
                  (steadyWorld 0.5) Hlen)).
Defined.

(** X19: what [update] never does to a ball.  It never changes the
    parameters, the size, the colour, the reset delay, the respawn flag or
    the trail limit; it never marks a respawning ball for removal, never
    takes a removal mark back, and never makes a ball that does not respawn
    wait for a reset. *)
Theorem update_keeps_settings {host : MathHost} {Ref G : Type}
    (canvas : Canvas.t) (updateScore : option (Side.t -> G -> G))
    (ts : Q) (paddleLeft paddleRight : Paddle.t Ref) (shake : Q)
    (createMultiball : option (Ball.t -> G -> World -> G * World))
    (b : Ball.t) (g : G) (w : World) :
  let b' := fst (fst (fst (Ball.update canvas updateScore ts paddleLeft paddleRight
                             shake createMultiball b g w))) in
  sameSettings b b' /\
  (Ball.shouldRespawn b = true -> Ball.needsRemoval b' = Ball.needsRemoval b) /\
  (Ball.needsRemoval b = true -> Ball.needsRemoval b' = true) /\
  (Ball.shouldRespawn b = false -> Ball.lastScoreTime b <= 0 ->
   Ball.lastScoreTime b' = Ball.lastScoreTime b).
Proof.
  intros b'.
  destruct (update_shape canvas updateScore ts paddleLeft paddleRight shake
              createMultiball b g w) as [Hwait Hmove].
  cbv zeta in Hwait, Hmove. fold b' in Hmove.
  assert (Hdec : waiting ts b \/ ~ waiting ts b).
  { unfold waiting.
    destruct (Qlt_le_dec 0 (Ball.lastScoreTime b));
      destruct (Qlt_le_dec (ts - Ball.lastScoreTime b) (Ball.resetDelay b));
      [left; tauto | right | right | right]; intros [H1 H2]; lra. }
  destruct Hdec as [Hw | Hn].
  - specialize (Hwait Hw). subst b'. rewrite Hwait. cbn [fst].
    unfold sameSettings. repeat split; intros; try reflexivity; assumption.
  - destruct (Hmove Hn) as (Hset & _ & Hnr & Hls).
    split; [exact Hset | ]. split; [ | split].
    + intros Hr. destruct Hnr as [Hnr | [Hnr _]]; congruence.
    + intros Hr. destruct Hnr as [Hnr | [_ Hnr]]; congruence.
    + intros Hr Hle. destruct Hls as [Hls | [Hls _]]; [ | congruence].
      rewrite Hls. destruct (gt_reflect (Ball.lastScoreTime b) 0) as [Hp | _];
        [exfalso; lra | reflexivity].
Qed.

(** ** More on the game *)

Section GameLoop.
Context {host : MathHost}.

(** A property of the game that the score, the multiball callback and the
    writes of the loop keep is kept by the loop over the balls. *)
Lemma updateBalls_preserves (P : Game.t -> Prop) :
  (forall g bs, P g -> P (Game.set_balls g bs)) ->
  (forall g s, P g -> P (Game.set_shakeAmount g s)) ->
  (forall s g, P g -> P (Game.updateScore s g)) ->
  (forall b g w, P g -> P (fst (Game.createMultiball b g w))) ->
  forall fuel timestamp i g w g' w',
    Game.updateBalls fuel timestamp i g w = Some (g', w') -> P g -> P g'.
Proof.
  intros Hballs Hshake Hscore Hmulti.
  induction fuel as [ | fuel IH]; intros timestamp i g w g' w' Hrun Hg.
  - cbn in Hrun. destruct (List.nth_error (Game.balls g) i); [discriminate | ].
    injection Hrun as <- <-. exact Hg.
  - cbn [Game.updateBalls] in Hrun.
    destruct (List.nth_error (Game.balls g) i) as [ball | ];
      [ | injection Hrun as <- <-; exact Hg].
    cbv zeta in Hrun.
    match type of Hrun with
    | context [Ball.update ?cv ?us ?ts ?pl ?pr ?sh ?cb ?bb ?gg ?ww] =>
        pose proof (update_preserves P cv us ts pl pr sh cb bb gg ww) as Hup;
        destruct (Ball.update cv us ts pl pr sh cb bb gg ww) as [[[ball' sh'] g1] w1]
    end.
    cbn [fst snd] in Hup.
    apply (IH _ _ _ _ _ _ Hrun). apply Hshake, Hballs, Hup.
    + intros f s g0 Hf. injection Hf as <-. apply Hscore.
    + intros callback b0 g0 w0 Hc. injection Hc as <-. apply Hmulti.
    + apply Hballs. exact Hg.
Qed.

(** The loop over the balls ends within the fuel that [gameLoop] gives it,
    in every state. *)
Lemma gameLoop_total (timestamp : Q) (g : Game.t) (w : World) :
  exists g' w', Game.gameLoop timestamp g w = Some (g', w').
Proof.
  unfold Game.gameLoop.
  destruct (Game.shake g w) as [g1 w1].
  destruct (Game.gameActive g1); [ | eauto].
  destruct (Chaos.update _ _ _ _) as [chaos w2].
  set (g2 := Game.movePaddles _). clearbody g2.
  set (m := Game.maxBalls g2).
  set (n := Nat.max (List.length (Game.balls g2)) m).
  assert (H2 : atMost m n g2) by (split; [reflexivity | subst n; lia]).
  destruct (updateBalls_atMost m n (List.length (Game.balls g2) + m) timestamp 0
              g2 w2 ltac:(subst n; lia) H2 ltac:(subst n; lia))
    as (g3 & w3 & -> & _).
  destruct (Game.population g3 w3) as [g4 w4]. eauto.
Qed.

(** A property kept by every stage of a frame is kept by the frame. *)
Lemma gameLoop_preserves (P : Game.t -> Prop) :
  (forall g w, P g -> P (fst (Game.shake g w))) ->
  (forall g chaos, P g ->
     P (Game.updateWarnings
          (Game.set_params (Game.set_chaosController g chaos) ChaosParams))) ->
  (forall field g, P g -> P (Game.syncPaddles field g)) ->
  (forall g, P g -> P (Game.movePaddles g)) ->
  (forall fuel timestamp i g w g' w',
     Game.updateBalls fuel timestamp i g w = Some (g', w') -> P g -> P g') ->
  (forall g w, P g -> P (fst (Game.population g w))) ->
  forall timestamp g w g' w',
    Game.gameLoop timestamp g w = Some (g', w') -> P g -> P g'.
Proof.
  intros Hshake Hchaos Hsync Hmove Hballs Hpop timestamp g w g' w' Hrun Hg.
  unfold Game.gameLoop in Hrun.
  pose proof (Hshake g w Hg) as H1.
  destruct (Game.shake g w) as [g1 w1]. cbn [fst] in H1.
  destruct (Game.gameActive g1); [ | injection Hrun as <- <-; exact H1].
  destruct (Chaos.update _ _ _ _) as [chaos w2].
  match type of Hrun with
  | context [Game.updateBalls ?fuel ?ts ?i ?g2 ?ww] =>
      assert (H2 : P g2) by (apply Hmove, Hsync, Hchaos, H1);
      pose proof (Hballs fuel ts i g2 ww) as H3;
      destruct (Game.updateBalls fuel ts i g2 ww) as [[g3 w3] | ];
      [ | discriminate Hrun]
  end.
  specialize (H3 g3 w3 eq_refl H2).
  injection Hrun as Hrun. pose proof (Hpop g3 w3 H3) as H4.
  rewrite Hrun in H4. exact H4.
Qed.

Lemma createMultiballSequence_preserves (P : Game.t -> Prop) :
  (forall g v, P g -> P (Game.set_intervals g v)) ->
  (forall g v, P g -> P (Game.set_nextInterval g v)) ->
  (forall g v, P g -> P (Game.set_multiballInterval g v)) ->
  forall g, P g -> P (Game.createMultiballSequence g).
Proof.
  intros Hi Hn Hm g Hg. unfold Game.createMultiballSequence. cbv zeta.
  apply Hm, Hn, Hi.
  destruct (Game.multiballInterval g) as [[ | id] | ]; try exact Hg.
  apply Hi. exact Hg.
Qed.

Lemma population_preserves (P : Game.t -> Prop) :
  (forall g bs, P g -> P (Game.set_balls g bs)) ->
  (forall g v, P g -> P (Game.set_multiballActive g v)) ->
  (forall g, P g -> P (Game.createMultiballSequence g)) ->
  forall g w, P g -> P (fst (Game.population g w)).
Proof.
  intros Hb Ha Hseq g w Hg. unfold Game.population.
  set (g4 := Game.set_balls g _).
  assert (H4 : P g4) by (apply Hb; exact Hg). clearbody g4. cbv zeta.
  match goal with
  | |- context [match Game.balls g4 with [] => ?A | _ :: _ => (g4, ?ww) end] =>
      assert (H5 : P (fst (match Game.balls g4 with
                           | [] => A | _ :: _ => (g4, ww) end)));
      [ | destruct (match Game.balls g4 with [] => A | _ :: _ => (g4, ww) end)
            as [g5 w5] ]
  end.
  { destruct (Game.balls g4); [ | exact H4].
    destruct (Ball.constructor _ _ _ _) as [newBall w4]. apply Hb. exact H4. }
  cbn [fst] in *.
  destruct (_ && _ && _); [apply Hseq, Ha; exact H5 | ].
  destruct (negb _); [apply Hb, Ha; exact H5 | exact H5].
Qed.

Lemma createGameObjects_preserves (P : Game.t -> Prop) :
  (forall g bs, P g -> P (Game.set_balls g bs)) ->
  (forall g v, P g -> P (Game.set_paddleLeft g v)) ->
  (forall g v, P g -> P (Game.set_paddleRight g v)) ->
  (forall g c, P g -> P (Game.setPaddleColor c g)) ->
  forall g w, P g -> P (fst (Game.createGameObjects g w)).
Proof.
  intros Hb Hl Hr Hc g w Hg. unfold Game.createGameObjects. cbv zeta.
  destruct (Ball.constructor _ _ _ _) as [mainBall w']. cbn [fst].
  apply Hb, Hr, Hl.
  destruct (Params.paddleColor _); [apply Hc | ]; exact Hg.
Qed.

Lemma createMultiball_preserves (P : Game.t -> Prop) :
  (forall g bs, P g -> P (Game.set_balls g bs)) ->
  (forall g v, P g -> P (Game.set_lastMultiballTime g v)) ->
  (forall g v, P g -> P (Game.set_shakeAmount g v)) ->
  forall b g w, P g -> P (fst (Game.createMultiball b g w)).
Proof.
  intros Hb Hl Hs b g w Hg. unfold Game.createMultiball.
  destruct (Nat.leb _ _); [exact Hg | ].
  destruct (negb _); [exact Hg | ].
  unfold performanceNow. destruct (_ <? _); [exact Hg | ].
  unfold random. destruct (Ball.constructor _ _ _ _) as [newBall w'].
  cbn [fst]. apply Hs, Hl, Hb. exact Hg.
Qed.

Lemma intervalFire_preserves (P : Game.t -> Prop) :
  (forall g bs, P g -> P (Game.set_balls g bs)) ->
  (forall g v, P g -> P (Game.set_intervals g v)) ->
  (forall g v, P g -> P (Game.set_multiballInterval g v)) ->
  (forall g v, P g -> P (Game.set_shakeAmount g v)) ->
  forall id g w, P g -> P (fst (Game.intervalFire id g w)).
Proof.
  intros Hb Hi Hm Hs id g w Hg. unfold Game.intervalFire.
  destruct (List.find _ _) as [[id' captured] | ]; [ | exact Hg].
  unfold Game.multiballCallback.
  assert (Hclear : P (Game.set_multiballInterval
                        (Game.clearInterval (Game.multiballInterval g) g) None)).
  { apply Hm. unfold Game.clearInterval.
    destruct (Game.multiballInterval g); [apply Hi | ]; exact Hg. }
  destruct (_ || _ || _); [exact Hclear | ].
  unfold random. destruct (Ball.constructor _ _ _ _) as [newBall w'].
  cbn [fst]. apply Hs, Hi, Hb. exact Hg.
Qed.

Lemma some_eq {A : Type} (a b : A) : Some a = Some b -> a = b.
Proof. intros H. injection H. auto. Qed.

End GameLoop.

(** X20: every event is handled.  In every state of the game each event
    leads to a next state; in particular the loop of a frame over the balls
    comes to an end, although the multiball callback lengthens the list of
    balls while the loop runs over it. *)
Theorem step_total {host : MathHost} (e : event) (g : Game.t) (w : World) :
  exists g' w', Game.step e g w = Some (g', w').
Proof.
  destruct e; cbn [Game.step]; try exact (gameLoop_total timestamp g w);
    match goal with
    | |- exists g' w', Some ?x = _ => exists (fst x), (snd x); destruct x; reflexivity
    end.
Qed.

(** The stages of a frame and the other handlers keep a property that does
    not read what they write. *)
Ltac branches :=
  repeat match goal with
         | |- context [if ?c then _ else _] => destruct c
         | |- context [match ?o with Some _ => _ | None => _ end] => destruct o
         | |- context [match ?l with [] => _ | _ :: _ => _ end] => destruct l
         | |- context [let (_, _) := ?p in _] => destruct p
         end.

Ltac frame_untouched P :=
  apply (gameLoop_preserves P);
  [ intros g0 w0 H0; unfold Game.shake, random; branches; exact H0
  | intros g0 chaos H0; exact H0
  | intros field g0 H0; exact H0
  | intros g0 H0; unfold Game.movePaddles; branches; exact H0
  | apply (updateBalls_preserves P);
    [ intros g0 bs H0; exact H0
    | intros g0 s H0; exact H0
    | intros s g0 H0; destruct s; exact H0
    | intros b g0 w0 H0; unfold Game.createMultiball, performanceNow, random;
      branches; exact H0 ]
  | apply (population_preserves P);
    [ intros g0 bs H0; exact H0
    | intros g0 v H0; exact H0
    | apply (createMultiballSequence_preserves P); intros g0 v H0; exact H0 ] ].

Section Flags.
Context {host : MathHost}.

Lemma gameLoop_ai (timestamp : Q) (g : Game.t) (w : World) (g' : Game.t) (w' : World) :
  Game.gameLoop timestamp g w = Some (g', w') ->
  Game.leftPaddleAI g' = Game.leftPaddleAI g /\
  Game.rightPaddleAI g' = Game.rightPaddleAI g /\
  Game.keys g' = Game.keys g /\ Game.canvas g' = Game.canvas g /\
  Game.maxBalls g' = Game.maxBalls g /\ Game.gameActive g' = Game.gameActive g.
Proof.
  intros Hrun.
  set (P := fun g0 => Game.leftPaddleAI g0 = Game.leftPaddleAI g /\
                      Game.rightPaddleAI g0 = Game.rightPaddleAI g /\
                      Game.keys g0 = Game.keys g /\
                      Game.canvas g0 = Game.canvas g /\
                      Game.maxBalls g0 = Game.maxBalls g /\
                      Game.gameActive g0 = Game.gameActive g).
  assert (Hgen : forall timestamp g w g' w',
             Game.gameLoop timestamp g w = Some (g', w') -> P g -> P g').
  { frame_untouched P. }
  apply (Hgen timestamp g w g' w' Hrun). repeat split.
Qed.

End Flags.

Section Scores.
Context {host : MathHost}.

Lemma gameLoop_scores (timestamp : Q) (g : Game.t) (w : World) (g' : Game.t) (w' : World) :
  Game.gameLoop timestamp g w = Some (g', w') ->
  (Game.leftScore g <= Game.leftScore g')%nat /\
  (Game.rightScore g <= Game.rightScore g')%nat.
Proof.
  intros Hrun.
  set (P := fun g0 => (Game.leftScore g <= Game.leftScore g0)%nat /\
                      (Game.rightScore g <= Game.rightScore g0)%nat).
  assert (Hgen : forall timestamp g w g' w',
             Game.gameLoop timestamp g w = Some (g', w') -> P g -> P g').
  { apply (gameLoop_preserves P).
    - intros g0 w0 H0; unfold Game.shake, random; branches; exact H0.
    - intros g0 chaos H0; exact H0.
    - intros field g0 H0; exact H0.
    - intros g0 H0; unfold Game.movePaddles; branches; exact H0.
    - apply (updateBalls_preserves P).
      + intros g0 bs H0; exact H0.
      + intros g0 s H0; exact H0.
      + intros s g0 [H1 H2]. destruct s; split; cbn; lia.
      + intros b g0 w0 H0; unfold Game.createMultiball, performanceNow, random;
          branches; exact H0.
    - apply (population_preserves P).
      + intros g0 bs H0; exact H0.
      + intros g0 v H0; exact H0.
      + apply (createMultiballSequence_preserves P); intros g0 v H0; exact H0. }
  apply (Hgen timestamp g w g' w' Hrun). split; apply Nat.le_refl.
Qed.

End Scores.

(** X21: the scores.  A reset puts both scores at 0; no other event lowers
    a score, and only a frame changes one. *)
Theorem scores_never_decrease {host : MathHost}
    (e : event) (g : Game.t) (w : World) (g' : Game.t) (w' : World) :
  Game.step e g w = Some (g', w') ->
  (e = ResetGame -> Game.leftScore g' = 0%nat /\ Game.rightScore g' = 0%nat) /\
  (e <> ResetGame ->
   (Game.leftScore g <= Game.leftScore g')%nat /\
   (Game.rightScore g <= Game.rightScore g')%nat) /\
  (e <> ResetGame -> (forall timestamp, e <> Frame timestamp) ->
   Game.leftScore g' = Game.leftScore g /\ Game.rightScore g' = Game.rightScore g).
Proof.
  intros Hstep.
  set (P := fun a b g0 => Game.leftScore g0 = a /\ Game.rightScore g0 = b).
  assert (Hother : (forall timestamp, e <> Frame timestamp) -> e <> ResetGame ->
                   P (Game.leftScore g) (Game.rightScore g) g').
  { intros Hf Hr.
    assert (Hg : P (Game.leftScore g) (Game.rightScore g) g) by (split; reflexivity).
    revert Hg. generalize (Game.leftScore g) (Game.rightScore g). intros a b Hg.
    destruct e; cbn [Game.step] in Hstep;
      try (exfalso; apply (Hf timestamp); reflexivity);
      try (exfalso; apply Hr; reflexivity);
      apply some_eq in Hstep.
    - replace g' with (fst (Game.intervalFire id g w)) by (rewrite Hstep; reflexivity).
      apply (intervalFire_preserves (P a b)); try (intros g0 v H0; exact H0). exact Hg.
    - apply (f_equal fst) in Hstep. cbn [fst] in Hstep. subst g'.
      unfold Game.handleKeyDown. cbv zeta. branches; exact Hg.
    - apply (f_equal fst) in Hstep. cbn [fst] in Hstep. subst g'. exact Hg.
    - apply (f_equal fst) in Hstep. cbn [fst] in Hstep. subst g'.
      unfold Game.handleTouchStart. branches; exact Hg.
    - apply (f_equal fst) in Hstep. cbn [fst] in Hstep. subst g'. exact Hg.
    - apply (f_equal fst) in Hstep. cbn [fst] in Hstep. subst g'. exact Hg.
    - apply (f_equal fst) in Hstep. cbn [fst] in Hstep. subst g'. exact Hg.
    - apply (f_equal fst) in Hstep. cbn [fst] in Hstep. subst g'. exact Hg.
    - replace g' with (fst (Game.createMultiball sourceBall g w))
        by (rewrite Hstep; reflexivity).
      apply (createMultiball_preserves (P a b)); try (intros g0 v H0; exact H0).
      exact Hg. }
  split; [ | split].
  - intros ->. cbn [Game.step] in Hstep. apply some_eq in Hstep.
    replace g' with (fst (Game.reset g w)) by (rewrite Hstep; reflexivity).
    unfold Game.reset. cbv zeta.
    match goal with
    | |- context [Game.createGameObjects ?g0 ?w0] =>
        pose proof (createGameObjects_preserves (P 0%nat 0%nat)) as Hc;
        specialize (Hc (fun g1 v H1 => H1) (fun g1 v H1 => H1) (fun g1 v H1 => H1));
        assert (Hcol : forall g1 c, P 0%nat 0%nat g1 ->
                                    P 0%nat 0%nat (Game.setPaddleColor c g1))
          by (intros g1 c H1; unfold Game.setPaddleColor;
              destruct (Game.params g1); exact H1);
        specialize (Hc Hcol g0 w0 ltac:(split; reflexivity));
        destruct (Game.createGameObjects g0 w0) as [g1 w1]
    end.
    exact Hc.
  - intros Hr.
    assert (Hframe : (exists timestamp, e = Frame timestamp) \/
                     (forall timestamp, e <> Frame timestamp)).
    { destruct e; try (right; intros ts; discriminate). left. eauto. }
    destruct Hframe as [[timestamp ->] | Hf].
    + exact (gameLoop_scores timestamp g w g' w' Hstep).
    + destruct (Hother Hf Hr) as [-> ->]. split; apply Nat.le_refl.
  - intros Hr Hf. apply Hother; assumption.
Qed.

Lemma scores_never_decrease_witness :
  let w := steadyWorld 0.5 in
  let g := fst (Game.init (host := taylorHost) 1000 600 w) in
  exists g' w',
    Game.step (host := taylorHost) (Frame 16) g w = Some (g', w') /\
    (Game.leftScore g <= Game.leftScore g')%nat.
Proof.
  intros w g.
  destruct (gameLoop_total (host := taylorHost) 16 g w) as (g' & w' & Hstep).
  exists g', w'. split; [exact Hstep | ].
  destruct (scores_never_decrease (host := taylorHost) (Frame 16) g w g' w' Hstep)
    as (_ & Hmono & _).
  apply Hmono. discriminate.
Defined.

(** X22: a player who takes a paddle keeps it.  A key of the left paddle
    ([w] or [s], in either case) hands the left paddle to the player and an
    arrow key the right one; once a paddle is the player's, no event gives
    it back to the AI, except a reset, which gives both back. *)
Theorem manual_control_sticks {host : MathHost}
    (e : event) (g : Game.t) (w : World) (g' : Game.t) (w' : World) :
  Game.step e g w = Some (g', w') ->
  (e = ResetGame ->
   Game.leftPaddleAI g' = true /\ Game.rightPaddleAI g' = true) /\
  (e <> ResetGame ->
   (Game.leftPaddleAI g = false -> Game.leftPaddleAI g' = false) /\
   (Game.rightPaddleAI g = false -> Game.rightPaddleAI g' = false)) /\
  (forall key, e = KeyDown key ->
     (Game.isW key || Game.isS key = true -> Game.leftPaddleAI g' = false) /\
     (Game.isKey key "ArrowUp" || Game.isKey key "ArrowDown" = true ->
      Game.rightPaddleAI g' = false)).
Proof.
  intros Hstep. split; [ | split].
  - intros ->. cbn [Game.step] in Hstep. apply some_eq in Hstep.
    replace g' with (fst (Game.reset g w)) by (rewrite Hstep; reflexivity).
    unfold Game.reset. cbv zeta.
    set (P := fun g0 => Game.leftPaddleAI g0 = true /\ Game.rightPaddleAI g0 = true).
    match goal with
    | |- context [Game.createGameObjects ?g0 ?w0] =>
        pose proof (createGameObjects_preserves P) as Hc;
        specialize (Hc (fun g1 v H1 => H1) (fun g1 v H1 => H1) (fun g1 v H1 => H1));
        assert (Hcol : forall g1 c, P g1 -> P (Game.setPaddleColor c g1))
          by (intros g1 c H1; unfold Game.setPaddleColor;
              destruct (Game.params g1); exact H1);
        specialize (Hc Hcol g0 w0 ltac:(split; reflexivity));
        destruct (Game.createGameObjects g0 w0) as [g1 w1]
    end.
    exact Hc.
  - intros Hr.
    set (P := fun g0 => (Game.leftPaddleAI g = false -> Game.leftPaddleAI g0 = false) /\
                        (Game.rightPaddleAI g = false -> Game.rightPaddleAI g0 = false)).
    assert (Hg : P g) by (split; intros H; exact H).
    destruct e; cbn [Game.step] in Hstep;
      try (exfalso; apply Hr; reflexivity).
    + destruct (gameLoop_ai timestamp g w g' w' Hstep) as (-> & -> & _).
      exact Hg.
    + apply some_eq in Hstep.
      replace g' with (fst (Game.intervalFire id g w)) by (rewrite Hstep; reflexivity).
      apply (intervalFire_preserves P); try (intros g0 v H0; exact H0). exact Hg.
    + apply some_eq, (f_equal fst) in Hstep. cbn [fst] in Hstep. subst g'.
      unfold Game.handleKeyDown. cbv zeta.
      destruct (Game.isW key || Game.isS key);
        destruct (Game.isKey key "ArrowUp" || Game.isKey key "ArrowDown");
        split; intros H; try reflexivity; exact H.
    + apply some_eq, (f_equal fst) in Hstep. cbn [fst] in Hstep. subst g'. exact Hg.
    + apply some_eq, (f_equal fst) in Hstep. cbn [fst] in Hstep. subst g'.
      unfold Game.handleTouchStart.
      destruct (_ <? _); split; intros H; try reflexivity; exact H.
    + apply some_eq, (f_equal fst) in Hstep. cbn [fst] in Hstep. subst g'. exact Hg.
    + apply some_eq, (f_equal fst) in Hstep. cbn [fst] in Hstep. subst g'. exact Hg.
    + apply some_eq, (f_equal fst) in Hstep. cbn [fst] in Hstep. subst g'. exact Hg.
    + apply some_eq, (f_equal fst) in Hstep. cbn [fst] in Hstep. subst g'. exact Hg.
    + apply some_eq in Hstep.
      replace g' with (fst (Game.createMultiball sourceBall g w))
        by (rewrite Hstep; reflexivity).
      apply (createMultiball_preserves P); try (intros g0 v H0; exact H0). exact Hg.
  - intros key ->. cbn [Game.step] in Hstep.
    apply some_eq, (f_equal fst) in Hstep. cbn [fst] in Hstep. subst g'.
    unfold Game.handleKeyDown. cbv zeta.
    destruct (Game.isW key || Game.isS key);
      destruct (Game.isKey key "ArrowUp" || Game.isKey key "ArrowDown");
      split; intros H; try reflexivity; discriminate H.
Qed.

Lemma manual_control_sticks_witness :
  let w := steadyWorld 0.5 in
  let g := fst (Game.init (host := taylorHost) 1000 600 w) in
  let g1 := Game.handleKeyDown "w" g in
  exists g' w',
    Game.step (host := taylorHost) (Frame 16) g1 w = Some (g', w') /\
    Game.leftPaddleAI g = true /\ Game.leftPaddleAI g' = false.
Proof.
  intros w g g1.
  destruct (gameLoop_total (host := taylorHost) 16 g1 w) as (g' & w' & Hstep).
  exists g', w'. split; [exact Hstep | ].
  split; [vm_compute; reflexivity | ].
  destruct (manual_control_sticks (host := taylorHost) (Frame 16) g1 w g' w' Hstep)
    as (_ & Hkeep & _).
  apply Hkeep; [discriminate | vm_compute; reflexivity].
Defined.

(** *** The spawn sequence *)

Section Sequences.
Context {host : MathHost}.

Lemma oneSequence_empty (g : Game.t) :
  oneSequence g ->
  (forall id, Game.multiballInterval g <> Some (S id)) ->
  Game.intervals g = [].
Proof.
  intros (Hall & _ & _) Hno.
  destruct (Game.intervals g) as [ | entry rest]; [reflexivity | ].
  destruct (Hall entry (or_introl eq_refl)) as [Heq Hpos].
  exfalso. apply (Hno (pred (fst entry))). rewrite Heq. f_equal. lia.
Qed.

Lemma oneSequence_cleared (g : Game.t) :
  oneSequence g ->
  Game.intervals (Game.clearInterval (Game.multiballInterval g) g) = [].
Proof.
  intros Hg. pose proof (oneSequence_empty g Hg) as Hempty.
  destruct Hg as (Hall & _ & _).
  destruct (Game.multiballInterval g) as [[ | id] | ] eqn:E;
    cbn [Game.clearInterval].
  - cbn [Game.intervals Game.set_intervals].
    rewrite Hempty by (intros id; discriminate). reflexivity.
  - cbn [Game.intervals Game.set_intervals].
    clear Hempty. revert Hall.
    induction (Game.intervals g) as [ | entry rest IH]; intros Hall; [reflexivity | ].
    cbn [List.filter].
    destruct (Hall entry (or_introl eq_refl)) as [Heq _].
    injection Heq as Heq. rewrite <- Heq, Nat.eqb_refl. cbn [negb].
    apply IH. intros e He. apply Hall. right. exact He.
  - apply Hempty. intros id; discriminate.
Qed.

Lemma createMultiballSequence_oneSequence (g : Game.t) :
  oneSequence g -> oneSequence (Game.createMultiballSequence g).
Proof.
  intros Hg. pose proof (oneSequence_cleared g Hg) as Hclear.
  pose proof (oneSequence_empty g Hg) as Hempty.
  destruct Hg as (_ & _ & Hnext).
  unfold Game.createMultiballSequence. cbv zeta.
  destruct (Game.multiballInterval g) as [[ | id] | ] eqn:E;
    unfold oneSequence;
    cbn [Game.intervals Game.multiballInterval Game.nextInterval
         Game.set_intervals Game.set_nextInterval Game.set_multiballInterval
         Game.clearInterval] in *;
    rewrite ?Hclear; rewrite ?Hempty by (intros id'; discriminate);
    cbn [List.app List.map fst];
    (split; [intros entry [<- | []]; cbn [fst]; split; [reflexivity | lia]
            | split; [constructor; [intros [] | constructor] | lia]]).
Qed.

Lemma intervalFire_oneSequence (id : nat) (g : Game.t) (w : World) :
  oneSequence g -> oneSequence (fst (Game.intervalFire id g w)).
Proof.
  intros Hg. unfold Game.intervalFire.
  destruct (List.find _ _) as [[id' captured] | ] eqn:Efind; [ | exact Hg].
  unfold Game.multiballCallback.
  destruct (_ || _ || _).
  - cbn [fst].
    pose proof (oneSequence_cleared g Hg) as Hnone.
    destruct Hg as (_ & _ & Hnext). unfold oneSequence.
    cbn [Game.intervals Game.multiballInterval Game.nextInterval
         Game.set_multiballInterval].
    rewrite Hnone.
    split; [intros entry [] | split; [constructor | ]].
    destruct (Game.multiballInterval g); exact Hnext.
  - unfold random. destruct (Ball.constructor _ _ _ _) as [newBall w'].
    cbn [fst]. destruct Hg as (Hall & Hnd & Hnext). unfold oneSequence.
    cbn [Game.intervals Game.multiballInterval Game.nextInterval
         Game.set_intervals Game.set_shakeAmount Game.set_balls].
    assert (Hfst : List.map fst
                     (List.map
                        (fun entry : nat * Sequence.t =>
                           if Nat.eqb (fst entry) id
                           then (id, {| Sequence.ballsToCreate :=
                                          Sequence.ballsToCreate captured;
                                        Sequence.ballsCreated :=
                                          (Sequence.ballsCreated captured + 1)%Z |})
                           else entry)
                        (Game.intervals g))
                   = List.map fst (Game.intervals g)).
    { rewrite List.map_map. apply List.map_ext. intros entry.
      destruct (Nat.eqb_spec (fst entry) id) as [-> | _]; reflexivity. }
    split; [ | split; [rewrite Hfst; exact Hnd | exact Hnext]].
    intros entry Hin. apply List.in_map_iff in Hin.
    destruct Hin as (entry0 & Heq & Hin0).
    destruct (Hall entry0 Hin0) as [Hm Hr].
    destruct (Nat.eqb_spec (fst entry0) id) as [Hid | _]; subst entry;
      cbn [fst]; [rewrite <- Hid | ]; split; assumption.
Qed.

Lemma gameLoop_oneSequence (timestamp : Q) (g : Game.t) (w : World)
    (g' : Game.t) (w' : World) :
  Game.gameLoop timestamp g w = Some (g', w') -> oneSequence g -> oneSequence g'.
Proof.
  revert timestamp g w g' w'. apply (gameLoop_preserves oneSequence).
  - intros g0 w0 H0; unfold Game.shake, random; branches; exact H0.
  - intros g0 chaos H0; exact H0.
  - intros field g0 H0; exact H0.
  - intros g0 H0; unfold Game.movePaddles; branches; exact H0.
  - apply (updateBalls_preserves oneSequence).
    + intros g0 bs H0; exact H0.
    + intros g0 s H0; exact H0.
    + intros s g0 H0; destruct s; exact H0.
    + apply (createMultiball_preserves oneSequence); intros g0 v H0; exact H0.
  - apply (population_preserves oneSequence).
    + intros g0 bs H0; exact H0.
    + intros g0 v H0; exact H0.
    + apply createMultiballSequence_oneSequence.
Qed.

Lemma step_oneSequence (e : event) (g : Game.t) (w : World) (g' : Game.t) (w' : World) :
  Game.step e g w = Some (g', w') -> oneSequence g -> oneSequence g'.
Proof.
  intros Hstep Hg. destruct e; cbn [Game.step] in Hstep;
    try (apply some_eq, (f_equal fst) in Hstep; cbn [fst] in Hstep; subst g').
  - exact (gameLoop_oneSequence timestamp g w g' w' Hstep Hg).
  - apply intervalFire_oneSequence. exact Hg.
  - unfold Game.handleKeyDown. cbv zeta. branches; exact Hg.
  - exact Hg.
  - unfold Game.handleTouchStart. branches; exact Hg.
  - exact Hg.
  - exact Hg.
  - exact Hg.
  - unfold Game.reset. cbv zeta.
    match goal with
    | |- context [Game.createGameObjects ?g0 ?w0] =>
        pose proof (createGameObjects_preserves oneSequence) as Hc;
        specialize (Hc (fun g1 v H1 => H1) (fun g1 v H1 => H1) (fun g1 v H1 => H1));
        assert (Hcol : forall g1 c, oneSequence g1 ->
                                    oneSequence (Game.setPaddleColor c g1))
          by (intros g1 c H1; unfold Game.setPaddleColor;
              destruct (Game.params g1); exact H1);
        specialize (Hc Hcol g0 w0 Hg);
        destruct (Game.createGameObjects g0 w0) as [g1 w1]
    end.
    exact Hc.
  - exact Hg.
  - apply (createMultiball_preserves oneSequence); try (intros g0 v H0; exact H0).
    exact Hg.
Qed.

Lemma reachable_oneSequence (g : Game.t) : reachable g -> oneSequence g.
Proof.
  induction 1 as [iw ih w | e g g' w w' Hr IH Hstep].
  - unfold Game.init. cbv zeta.
    match goal with
    | |- context [Game.createGameObjects ?g0 ?w0] =>
        pose proof (createGameObjects_preserves oneSequence) as Hc;
        specialize (Hc (fun g1 v H1 => H1) (fun g1 v H1 => H1) (fun g1 v H1 => H1));
        assert (Hcol : forall g1 c, oneSequence g1 ->
                                    oneSequence (Game.setPaddleColor c g1))
          by (intros g1 c H1; unfold Game.setPaddleColor;
              destruct (Game.params g1); exact H1);
        assert (H0 : oneSequence g0)
          by (split; [intros entry [] | split; [constructor | cbn; lia]]);
        specialize (Hc Hcol g0 w0 H0);
        destruct (Game.createGameObjects g0 w0) as [g1 w1]
    end.
    exact Hc.
  - exact (step_oneSequence e g w g' w' Hstep IH).
Qed.

End Sequences.

(** X23: one spawn sequence at a time.  In every state that the host can
    bring about, at most one interval of [createMultiballSequence] runs, and
    it is the one whose identifier the game holds in [multiballInterval]: a
    new sequence always cancels the one before, and a finished sequence
    cancels itself. *)
Theorem one_sequence_at_a_time {host : MathHost} (g : Game.t) :
  reachable g ->
  (List.length (Game.intervals g) <= 1)%nat /\
  (forall entry, In entry (Game.intervals g) ->
                 Game.multiballInterval g = Some (fst entry)).
Proof.
  intros Hr. destruct (reachable_oneSequence g Hr) as (Hall & Hnd & _).
  split; [ | intros entry Hin; apply Hall; exact Hin].
  destruct (Game.intervals g) as [ | e1 [ | e2 rest]]; cbn [List.length]; try lia.
  exfalso.
  destruct (Hall e1 (or_introl eq_refl)) as [H1 _].
  destruct (Hall e2 (or_intror (or_introl eq_refl))) as [H2 _].
  cbn [List.map] in Hnd. inversion Hnd as [ | x l Hnotin _ Heq]; subst.
  apply Hnotin. left. congruence.
Qed.

Lemma one_sequence_at_a_time_witness :
  let g := fst (Game.init (host := taylorHost) 1000 600 (steadyWorld 0.5)) in
  reachable (host := taylorHost) g /\
  (List.length (Game.intervals g) <= 1)%nat.
Proof.
  intros g.
  assert (Hr : reachable (host := taylorHost) g) by apply reachable_init.
  split; [exact Hr | ].
  exact (proj1 (one_sequence_at_a_time (host := taylorHost) g Hr)).
Defined.

(** *** The main ball *)

Section MainBall.
Context {host : MathHost}.











End MainBall.



(** *** The paddles in a frame *)

Section PaddlesInField.
Context {host : MathHost}.

Lemma movePaddle_inside (g g1 : Game.t) (ai : bool) (target : Q)
    (p : Paddle.t ParamsRef) :
  Game.canvas g1 = Game.canvas g ->
  Game.params g1 = Game.params g ->
  Game.deref g1 = Game.deref g ->
  let p' := if negb ai
            then Paddle.update (Game.deref g1) (Game.keys g1) (Game.canvas g1)
                   (Some (Game.params g1)) p
            else Paddle.updateAI (Game.deref g1) target (Game.canvas g1)
                   (Some (Game.params g1)) p in
  notAbove g p' /\
  (Paddle.height p'
   <= Field.height (Utils.getFieldOffset (Game.canvas g) (Game.currentParams g)) ->
   notBelow g p') /\
  Paddle.gameParams p' = Game.params g.
Proof.
  intros Hc Hp Hd. cbv zeta. unfold notAbove, notBelow, Game.currentParams.
  cbv zeta. rewrite <- Hc, <- Hp, <- Hd.
  set (field := Utils.getFieldOffset (Game.canvas g1)
                  (Game.deref g1 (Game.params g1))).
  destruct (negb ai); unfold Paddle.update, Paddle.updateAI;
    cbn [Paddle.y Paddle.height Paddle.set_y Paddle.adopt
         Paddle.set_gameParams Paddle.gameParams Paddle.isLeft];
    fold field;
    match goal with
    | |- context [Qmax ?lo (Qmin ?hi ?v)] =>
        destruct (clamp_range lo hi v) as [Hlo Hhi]
    end;
    (split; [exact Hlo | split; [ | reflexivity]]);
    intros Hfit;
    match type of Hhi with
    | ?A -> _ => assert (HA : A) by lra; specialize (Hhi HA)
    end; lra.
Qed.

Lemma movePaddles_inside (g : Game.t) :
  let g' := Game.movePaddles g in
  let fieldHeight :=
    Field.height (Utils.getFieldOffset (Game.canvas g) (Game.currentParams g)) in
  (Game.canvas g' = Game.canvas g /\ Game.params g' = Game.params g /\
   Game.chaosController g' = Game.chaosController g /\
   Game.ownParams g' = Game.ownParams g) /\
  (notAbove g (Game.paddleLeft g') /\
   (Paddle.height (Game.paddleLeft g') <= fieldHeight ->
    notBelow g (Game.paddleLeft g')) /\
   Paddle.gameParams (Game.paddleLeft g') = Game.params g) /\
  (notAbove g (Game.paddleRight g') /\
   (Paddle.height (Game.paddleRight g') <= fieldHeight ->
    notBelow g (Game.paddleRight g')) /\
   Paddle.gameParams (Game.paddleRight g') = Game.params g).
Proof.
  cbv zeta. unfold Game.movePaddles.
  pose proof (movePaddle_inside g g (Game.leftPaddleAI g)
                (snd (Game.findClosestBall (Game.paddleLeft g) g))
                (Game.paddleLeft g) eq_refl eq_refl eq_refl) as HL.
  cbv zeta in HL.
  set (g1 := if negb (Game.leftPaddleAI g) then _ else _).
  assert (H1 : (Game.canvas g1 = Game.canvas g /\ Game.params g1 = Game.params g /\
                Game.chaosController g1 = Game.chaosController g /\
                Game.ownParams g1 = Game.ownParams g) /\
               Game.paddleLeft g1
               = (if negb (Game.leftPaddleAI g)
                  then Paddle.update (Game.deref g) (Game.keys g) (Game.canvas g)
                         (Some (Game.params g)) (Game.paddleLeft g)
                  else Paddle.updateAI (Game.deref g)
                         (snd (Game.findClosestBall (Game.paddleLeft g) g))
                         (Game.canvas g) (Some (Game.params g)) (Game.paddleLeft g))).
  { subst g1. destruct (negb (Game.leftPaddleAI g)); repeat split. }
  destruct H1 as ((Hc & Hp & Hch & Ho) & Hpl).
  assert (Hderef : Game.deref g1 = Game.deref g).
  { unfold Game.deref. rewrite Hch, Ho. reflexivity. }
  pose proof (movePaddle_inside g g1 (Game.rightPaddleAI g1)
                (snd (Game.findClosestBall (Game.paddleRight g1) g1))
                (Game.paddleRight g1) Hc Hp Hderef) as HR.
  cbv zeta in HR.
  clearbody g1.
  destruct (negb (Game.rightPaddleAI g1));
    cbn [Game.canvas Game.params Game.chaosController Game.ownParams
         Game.paddleLeft Game.paddleRight Game.set_paddleRight];
    rewrite Hpl; (split; [repeat split; assumption | ]);
    (split; [exact HL | exact HR]).
Qed.

Lemma shake_gameActive (g : Game.t) (w : World) :
  Game.gameActive (fst (Game.shake g w)) = Game.gameActive g.
Proof. unfold Game.shake, random. branches; reflexivity. Qed.

End PaddlesInField.

(** X25: the paddles after a frame.  After a frame of an active game both
    paddles read the parameters of the chaos controller, and neither is
    above the field of these parameters; a paddle that is no taller than
    this field is not below it either. *)
Theorem frame_keeps_paddles_in_field {host : MathHost}
    (timestamp : Q) (g : Game.t) (w : World) (g' : Game.t) (w' : World) :
  Game.gameLoop timestamp g w = Some (g', w') ->
  Game.gameActive g = true ->
  let fieldHeight :=
    Field.height (Utils.getFieldOffset (Game.canvas g') (Game.currentParams g')) in
  Game.params g' = ChaosParams /\
  (notAbove g' (Game.paddleLeft g') /\
   (Paddle.height (Game.paddleLeft g') <= fieldHeight ->
    notBelow g' (Game.paddleLeft g')) /\
   Paddle.gameParams (Game.paddleLeft g') = ChaosParams) /\
  (notAbove g' (Game.paddleRight g') /\
   (Paddle.height (Game.paddleRight g') <= fieldHeight ->
    notBelow g' (Game.paddleRight g')) /\
   Paddle.gameParams (Game.paddleRight g') = ChaosParams).
Proof.
  intros Hrun Hactive. unfold Game.gameLoop in Hrun.
  pose proof (shake_gameActive g w) as Hsh.
  destruct (Game.shake g w) as [g1 w1]. cbn [fst] in Hsh.
  rewrite Hsh, Hactive in Hrun.
  destruct (Chaos.update _ _ _ _) as [chaos w2].
  match type of Hrun with
  | context [Game.updateBalls ?fuel ?ts ?i (Game.movePaddles ?gg) ?ww] =>
      remember gg as g0 eqn:Eg0;
      assert (Hp0 : Game.params g0 = ChaosParams) by (subst g0; reflexivity);
      clear Eg0;
      pose proof (movePaddles_inside g0) as Hmove;
      set (g2 := Game.movePaddles g0) in *
  end.
  cbv zeta in Hmove.
  destruct Hmove as ((Hc & Hp & Hch & Ho) & HL & HR).
  set (P := fun g3 => Game.canvas g3 = Game.canvas g2 /\
                      Game.params g3 = Game.params g2 /\
                      Game.chaosController g3 = Game.chaosController g2 /\
                      Game.ownParams g3 = Game.ownParams g2 /\
                      Game.paddleLeft g3 = Game.paddleLeft g2 /\
                      Game.paddleRight g3 = Game.paddleRight g2).
  assert (H2 : P g2) by (repeat split).
  match type of Hrun with
  | context [Game.updateBalls ?fuel ?ts ?i g2 ?ww] =>
      pose proof (updateBalls_preserves P) as Hub;
      specialize (Hub (fun g3 v H3 => H3) (fun g3 v H3 => H3));
      assert (Hs : forall s g3, P g3 -> P (Game.updateScore s g3))
        by (intros s g3 H3; destruct s; exact H3);
      assert (Hm : forall b g3 w3, P g3 -> P (fst (Game.createMultiball b g3 w3)))
        by (apply (createMultiball_preserves P); intros g3 v H3; exact H3);
      specialize (Hub Hs Hm fuel ts i g2 ww);
      destruct (Game.updateBalls fuel ts i g2 ww) as [[g3 w3] | ];
      [ | discriminate Hrun]
  end.
  specialize (Hub g3 w3 eq_refl H2).
  apply some_eq in Hrun.
  assert (H4 : P g').
  { replace g' with (fst (Game.population g3 w3)) by (rewrite Hrun; reflexivity).
    apply (population_preserves P); try (intros g4 v H4; exact H4); [ | exact Hub].
    apply (createMultiballSequence_preserves P); intros g4 v H4; exact H4. }
  destruct H4 as (Kc & Kp & Kch & Ko & Kl & Kr).
  assert (Hcur : Game.currentParams g' = Game.currentParams g0).
  { unfold Game.currentParams, Game.deref. rewrite Kp, Kch, Ko, Hp, Hch, Ho.
    reflexivity. }
  unfold notAbove, notBelow in *. cbv zeta.
  rewrite Kc, Kp, Kl, Kr, Hcur, Hc, Hp, Hp0.
  rewrite Hp0 in HL, HR.
  split; [reflexivity | split; [exact HL | exact HR]].
Qed.

Lemma frame_keeps_paddles_in_field_witness :
  let w := steadyWorld 0.5 in
  let g := fst (Game.init (host := taylorHost) 1000 600 w) in
  exists g' w',
    Game.gameLoop (host := taylorHost) 16 g w = Some (g', w') /\
    Game.gameActive g = true /\
    notAbove g' (Game.paddleLeft g') /\ notAbove g' (Game.paddleRight g').
Proof.
  intros w g.
  destruct (gameLoop_total (host := taylorHost) 16 g w) as (g' & w' & Hrun).
  assert (Ha : Game.gameActive g = true) by (vm_compute; reflexivity).
  exists g', w'. split; [exact Hrun | split; [exact Ha | ]].
  destruct (frame_keeps_paddles_in_field (host := taylorHost) 16 g w g' w' Hrun Ha)
    as (_ & (HL & _) & (HR & _)).
  split; [exact HL | exact HR].
Defined.

(** *** Spawning a ball *)

(** X26: a spawned ball.  [createMultiball] either leaves the game as it
    is or appends one ball: then the game had fewer than [maxBalls] balls
    and the multiball mode on, at least 500 ms have passed since the last
    spawn, and the new ball moves horizontally against the source ball,
    each component of its velocity being between 0.8 and 1.2 times that of
    the source.  After a spawn, a call whose clock reading is less than
    500 ms later spawns nothing. *)
Theorem createMultiball_spawn {host : MathHost}
    (sourceBall : Ball.t) (g : Game.t) (w : World) :
  fair w ->
  let g1 := fst (Game.createMultiball sourceBall g w) in
  let now := clock w (clockPos w) in
  (g1 = g \/
   exists newBall,
     Game.balls g1 = (Game.balls g ++ [newBall])%list /\
     (List.length (Game.balls g) < Game.maxBalls g)%nat /\
     Params.multiball (Game.currentParams g) = true /\
     500 <= now - Game.lastMultiballTime g /\
     Game.lastMultiballTime g1 = now /\
     Ball.dx newBall * Ball.dx sourceBall <= 0 /\
     (0.8 * Qabs (Ball.dx sourceBall) <= Qabs (Ball.dx newBall) /\
      Qabs (Ball.dx newBall) <= 1.2 * Qabs (Ball.dx sourceBall)) /\
     (0.8 * Qabs (Ball.dy sourceBall) <= Qabs (Ball.dy newBall) /\
      Qabs (Ball.dy newBall) <= 1.2 * Qabs (Ball.dy sourceBall))) /\
  (g1 <> g ->
   forall otherBall w2,
     clock w2 (clockPos w2) - now < 500 ->
     fst (Game.createMultiball otherBall g1 w2) = g1).
Proof.
  intros Hfair. cbv zeta.
  remember (Game.createMultiball sourceBall g w) as res eqn:Eres.
  unfold Game.createMultiball in Eres.
  destruct (Nat.leb_spec (Game.maxBalls g) (List.length (Game.balls g))) as [Hmax | Hmax];
    [subst res; split; [left; reflexivity | intros H; exfalso; apply H; reflexivity] | ].
  destruct (Params.multiball (Game.currentParams g)) eqn:Hmulti; cbn [negb] in Eres;
    [ | subst res; split; [left; reflexivity
                          | intros H; exfalso; apply H; reflexivity]].
  unfold performanceNow in Eres.
  destruct (lt_reflect (clock w (clockPos w) - Game.lastMultiballTime g) 500)
    as [Hsoon | Hlate];
    [subst res; split; [left; reflexivity | intros H; exfalso; apply H; reflexivity] | ].
  unfold random in Eres.
  cbn [rand randPos clock clockPos] in Eres.
  destruct (Hfair (randPos w)) as [Ha0 Ha1].
  destruct (Hfair (S (S (randPos w)))) as [Hc0 Hc1].
  set (r1 := rand w (randPos w)) in *.
  set (r2 := rand w (S (randPos w))) in *.
  set (r3 := rand w (S (S (randPos w)))) in *.
  unfold Ball.constructor in Eres.
  cbn [Options.dx Options.dy Options.x Options.y fst snd] in Eres.
  subst res. cbn [fst].
  split.
  - right. eexists. cbn [Game.balls Game.set_balls Game.set_lastMultiballTime
                         Game.set_shakeAmount Game.lastMultiballTime].
    split; [reflexivity | ].
    split; [exact Hmax | ]. split; [reflexivity | ].
    split; [lra | ]. split; [reflexivity | ].
    cbn [Ball.dx Ball.dy Ball.set_vel Ball.set_pos].
    assert (Hf1 : 0.8 <= 0.8 + r1 * 0.4 /\ 0.8 + r1 * 0.4 <= 1.2) by (split; lra).
    assert (Hf3 : 0.8 <= 0.8 + r3 * 0.4 /\ 0.8 + r3 * 0.4 <= 1.2) by (split; lra).
    set (f1 := 0.8 + r1 * 0.4) in *. set (f3 := 0.8 + r3 * 0.4) in *.
    pose proof (Qabs_nonneg (Ball.dx sourceBall)) as Hdx.
    pose proof (Qabs_nonneg (Ball.dy sourceBall)) as Hdy.
    split; [ | split].
    + assert (H : - Ball.dx sourceBall * f1 * Ball.dx sourceBall
                  == - (f1 * (Ball.dx sourceBall * Ball.dx sourceBall))) by ring.
      rewrite H. clear H.
      assert (0 <= Ball.dx sourceBall * Ball.dx sourceBall) by nra.
      nra.
    + rewrite Qabs_Qmult, Qabs_opp, (Qabs_pos f1) by lra. split; nra.
    + rewrite !Qabs_Qmult, (Qabs_pos f3) by lra.
      assert (Hsign : Qabs (if r2 <? 0.5 then 1 else -1) == 1)
        by (destruct (r2 <? 0.5); reflexivity).
      rewrite Hsign. split; nra.
  - intros _ otherBall w2 Hsoon2.
    unfold Game.createMultiball.
    cbn [Game.balls Game.set_balls Game.set_lastMultiballTime Game.set_shakeAmount
         Game.lastMultiballTime Game.maxBalls Game.currentParams].
    destruct (Nat.leb _ _); [reflexivity | ].
    destruct (negb _); [reflexivity | ].
    unfold performanceNow.
    match goal with
    | |- context [?a <? 500] => destruct (lt_reflect a 500) as [_ | Hno]
    end; [reflexivity | ].
    exfalso. apply Hno. exact Hsoon2.
Qed.

Lemma createMultiball_spawn_witness :
  let w := steadyWorld 0.5 in
  let g := fst (Game.init (host := taylorHost) 1000 600 w) in
  fair w /\
  fst (Game.createMultiball (host := taylorHost) (ballAt 400 240 3 1) g w) = g.
Proof.
  intros w g.
  assert (Hfair : fair w) by (intros n; cbn; lra).
  split; [exact Hfair | ].
  destruct (createMultiball_spawn (host := taylorHost) (ballAt 400 240 3 1) g w Hfair)
    as [[Hsame | (newBall & Hb & _ & Hmulti & _)] _].
  - exact Hsame.
  - exfalso. revert Hmulti. vm_compute. discriminate.
Defined.

(** *** The ball the AI follows *)

Section Closest.
Variable paddle : Paddle.t ParamsRef.

Lemma closer_searched (sel : Ball.t -> bool) (seen : list Ball.t)
    (best : Ball.t * option Q) (ball : Ball.t) :
  searched paddle sel seen best ->
  searched paddle sel (seen ++ [ball])
    (if sel ball
     then Game.closer (Paddle.y paddle + Paddle.height paddle / 2) best ball
     else best).
Proof.
  unfold searched, Game.closer. intros Hbest.
  destruct (sel ball) eqn:Esel.
  - destruct best as [rb [d | ]]; cbn [fst snd] in *.
    + destruct Hbest as (Hin & Hsel & Hd & Hmin).
      fold (distance paddle ball).
      destruct (lt_reflect (distance paddle ball) d) as [Hlt | Hge]; cbn [fst snd].
      * split; [apply in_or_app; right; left; reflexivity | ].
        split; [exact Esel | split; [reflexivity | ]].
        intros a Ha Hs. apply in_app_or in Ha. destruct Ha as [Ha | [<- | []]].
        -- specialize (Hmin a Ha Hs). lra.
        -- lra.
      * split; [apply in_or_app; left; exact Hin | ].
        split; [exact Hsel | split; [exact Hd | ]].
        intros a Ha Hs. apply in_app_or in Ha. destruct Ha as [Ha | [<- | []]].
        -- exact (Hmin a Ha Hs).
        -- lra.
    + split; [apply in_or_app; right; left; reflexivity | ].
      split; [exact Esel | split; [reflexivity | ]].
      intros a Ha Hs. apply in_app_or in Ha. destruct Ha as [Ha | [<- | []]].
      * rewrite (Hbest a Ha) in Hs. discriminate Hs.
      * apply Qle_refl.
  - destruct best as [rb [d | ]]; cbn [fst snd] in *.
    + destruct Hbest as (Hin & Hsel & Hd & Hmin).
      split; [apply in_or_app; left; exact Hin | ].
      split; [exact Hsel | split; [exact Hd | ]].
      intros a Ha Hs. apply in_app_or in Ha. destruct Ha as [Ha | [<- | []]].
      * exact (Hmin a Ha Hs).
      * rewrite Esel in Hs. discriminate Hs.
    + intros a Ha. apply in_app_or in Ha. destruct Ha as [Ha | [<- | []]].
      * exact (Hbest a Ha).
      * exact Esel.
Qed.

Lemma fold_searched (sel : Ball.t -> bool)
    (f : Ball.t * option Q -> Ball.t -> Ball.t * option Q) :
  (forall best ball,
      f best ball
      = if sel ball
        then Game.closer (Paddle.y paddle + Paddle.height paddle / 2) best ball
        else best) ->
  forall l seen best,
    searched paddle sel seen best ->
    searched paddle sel (seen ++ l) (List.fold_left f l best) /\
    (snd (List.fold_left f l best) = None -> List.fold_left f l best = best).
Proof.
  intros Hf. induction l as [ | ball l IH]; intros seen best Hbest.
  - cbn [List.fold_left]. rewrite app_nil_r. split; [exact Hbest | reflexivity].
  - cbn [List.fold_left].
    pose proof (closer_searched sel seen best ball Hbest) as Hnext.
    rewrite <- Hf in Hnext.
    destruct (IH (seen ++ [ball])%list (f best ball) Hnext) as [Hres Hnone].
    rewrite <- app_assoc in Hres. split; [exact Hres | ].
    intros Hn. rewrite (Hnone Hn). rewrite (Hnone Hn) in Hn.
    rewrite Hf in *. unfold Game.closer in *.
    destruct (sel ball); [ | reflexivity].
    destruct (snd best); [destruct (_ <? _) | ]; cbn [snd] in Hn;
      try discriminate Hn; reflexivity.
Qed.

End Closest.

Lemma approaches_reflect (paddle : Paddle.t ParamsRef) (ball : Ball.t) :
  reflect (approaches paddle ball)
    ((Ball.dx ball <? 0) && Paddle.isLeft paddle
     || (Ball.dx ball >? 0) && negb (Paddle.isLeft paddle)).
Proof.
  unfold approaches.
  destruct (lt_reflect (Ball.dx ball) 0) as [Hn | Hn];
    destruct (gt_reflect (Ball.dx ball) 0) as [Hp | Hp];
    destruct (Paddle.isLeft paddle); cbn; constructor;
    try (left; split; [assumption | reflexivity]);
    try (right; split; [assumption | reflexivity]);
    intros [[H1 H2] | [H1 H2]]; try discriminate; contradiction.
Qed.

Lemma approaches_true (paddle : Paddle.t ParamsRef) (ball : Ball.t) :
  (Ball.dx ball <? 0) && Paddle.isLeft paddle
  || (Ball.dx ball >? 0) && negb (Paddle.isLeft paddle) = true
  <-> approaches paddle ball.
Proof.
  destruct (approaches_reflect paddle ball) as [H | H]; split; intros H';
    try assumption; try reflexivity; try discriminate H'; contradiction.
Qed.

(** X27: the ball the AI follows.  With no ball, [findClosestBall] answers
    the centre of the canvas.  Otherwise it answers the position of a ball
    of the game: when some ball moves towards the paddle, one of these, at
    the least vertical distance from the centre of the paddle among them;
    when none does, a ball at the least vertical distance among all. *)
Theorem findClosestBall_closest (paddle : Paddle.t ParamsRef) (g : Game.t) :
  (Game.balls g = [] ->
   Game.findClosestBall paddle g
   = (Canvas.width (Game.canvas g) / 2, Canvas.height (Game.canvas g) / 2)) /\
  (Game.balls g <> [] ->
   exists ball,
     In ball (Game.balls g) /\
     Game.findClosestBall paddle g = (Ball.x ball, Ball.y ball) /\
     ((exists a, In a (Game.balls g) /\ approaches paddle a) ->
      approaches paddle ball /\
      forall a, In a (Game.balls g) -> approaches paddle a ->
                distance paddle ball <= distance paddle a) /\
     ((forall a, In a (Game.balls g) -> ~ approaches paddle a) ->
      forall a, In a (Game.balls g) -> distance paddle ball <= distance paddle a)).
Proof.
  unfold Game.findClosestBall.
  destruct (Game.balls g) as [ | first rest] eqn:Eb.
  - split; [reflexivity | intros H; contradiction].
  - split; [intros H; discriminate H | intros _]. cbv zeta.
    set (sel := fun ball : Ball.t =>
                  (Ball.dx ball <? 0) && Paddle.isLeft paddle
                  || (Ball.dx ball >? 0) && negb (Paddle.isLeft paddle)).
    set (l := first :: rest) in *.
    match goal with
    | |- context [List.fold_left ?f l (first, None)] =>
        destruct (fold_searched paddle sel f (fun best ball => eq_refl) l []
                    (first, None)) as [H1 H1none];
        [intros a [] | ];
        set (best1 := List.fold_left f l (first, None)) in *
    end.
    cbn [List.app] in H1. unfold searched in H1.
    destruct (snd best1) as [d | ] eqn:E1.
    + destruct H1 as (Hin & Hsel & Hd & Hmin).
      exists (fst best1). split; [exact Hin | split; [reflexivity | ]].
      apply approaches_true in Hsel.
      split.
      * intros _. split; [exact Hsel | ].
        intros a Ha Happ. rewrite <- Hd. apply Hmin; [exact Ha | ].
        apply approaches_true. exact Happ.
      * intros Hnone a Ha. exfalso. exact (Hnone (fst best1) Hin Hsel).
    + rewrite (H1none eq_refl).
      destruct (fold_searched paddle (fun _ => true)
                  (Game.closer (Paddle.y paddle + Paddle.height paddle / 2))
                  (fun best ball => eq_refl) l [] (first, None)) as [H2 _];
        [intros a [] | ].
      cbn [List.app] in H2.
      match type of H2 with
      | searched _ _ _ ?b => set (best2 := b) in *
      end.
      unfold searched in H2.
      destruct (snd best2) as [d | ] eqn:E2.
      * destruct H2 as (Hin & _ & Hd & Hmin).
        exists (fst best2). split; [exact Hin | split; [reflexivity | ]].
        split.
        -- intros (a & Ha & Happ). exfalso.
           specialize (H1 a Ha). apply approaches_true in Happ.
           unfold sel in H1. rewrite H1 in Happ. discriminate Happ.
        -- intros _ a Ha. rewrite <- Hd. apply Hmin; [exact Ha | reflexivity].
      * exfalso. specialize (H2 first (or_introl eq_refl)). discriminate H2.
Qed.

Lemma findClosestBall_closest_witness :
  let g := fst (Game.init (host := taylorHost) 1000 600 (steadyWorld 0.5)) in
  Game.balls g <> [] /\
  exists ball,
    In ball (Game.balls g) /\
    Game.findClosestBall (Game.paddleLeft g) g = (Ball.x ball, Ball.y ball).
Proof.
  intros g.
  assert (Hb : Game.balls g <> []) by (vm_compute; discriminate).
  split; [exact Hb | ].
  destruct (proj2 (findClosestBall_closest (Game.paddleLeft g) g) Hb)
    as (ball & Hin & Heq & _).
  exists ball. split; [exact Hin | exact Heq].
Defined.

(** *** Inverted controls *)

Lemma isKey_eq (key name : string) : Game.isKey key name = true -> key = name.
Proof. unfold Game.isKey. apply String.eqb_eq. Qed.

Ltac key_cases :=
  repeat match goal with
         | H : Game.isW _ = true |- _ =>
             unfold Game.isW in H; apply orb_true_iff in H;
             destruct H as [H | H]; apply isKey_eq in H; subst
         | H : Game.isS _ = true |- _ =>
             unfold Game.isS in H; apply orb_true_iff in H;
             destruct H as [H | H]; apply isKey_eq in H; subst
         | H : Game.isKey _ _ = true |- _ => apply isKey_eq in H; subst
         end.

Ltac keys_compute :=
  cbv [Game.isW Game.isS Game.isKey String.eqb Ascii.eqb Bool.eqb orb andb negb
       released Keys.w Keys.W Keys.s Keys.S Keys.ArrowUp Keys.ArrowDown].

(** X28: inverted controls.  From released keys, pressing a key of a paddle
    moves this paddle in the direction of the key when the controls are not
    inverted and in the opposite direction when they are, by [paddleSpeed]
    before the clamp; releasing the key afterwards leaves all keys
    released. *)
Theorem inverted_controls_swap (key : string) (g : Game.t) :
  Game.keys g = released ->
  Paddle.isLeft (Game.paddleLeft g) = true ->
  Paddle.isLeft (Game.paddleRight g) = false ->
  let speed := Params.paddleSpeed (Game.currentParams g) in
  let turn := if Params.invertControls (Game.currentParams g) then -1 else 1 in
  let g1 := Game.handleKeyDown key g in
  (Game.isW key = true ->
   movesTo g1 (Game.paddleLeft g1) (Paddle.y (Game.paddleLeft g) - turn * speed)) /\
  (Game.isS key = true ->
   movesTo g1 (Game.paddleLeft g1) (Paddle.y (Game.paddleLeft g) + turn * speed)) /\
  (Game.isKey key "ArrowUp" = true ->
   movesTo g1 (Game.paddleRight g1) (Paddle.y (Game.paddleRight g) - turn * speed)) /\
  (Game.isKey key "ArrowDown" = true ->
   movesTo g1 (Game.paddleRight g1) (Paddle.y (Game.paddleRight g) + turn * speed)) /\
  Game.keys (Game.handleKeyUp key g1) = released.
Proof.
  intros Hkeys Hleft Hright. cbv zeta.
  assert (Hmove : forall key0,
             Game.isW key0 = true \/ Game.isS key0 = true \/
             Game.isKey key0 "ArrowUp" = true \/ Game.isKey key0 "ArrowDown" = true ->
             key0 = key ->
             (Game.isW key = true ->
              movesTo (Game.handleKeyDown key g)
                (Game.paddleLeft (Game.handleKeyDown key g))
                (Paddle.y (Game.paddleLeft g)
                 - (if Params.invertControls (Game.currentParams g) then -1 else 1)
                   * Params.paddleSpeed (Game.currentParams g))) /\
             (Game.isS key = true ->
              movesTo (Game.handleKeyDown key g)
                (Game.paddleLeft (Game.handleKeyDown key g))
                (Paddle.y (Game.paddleLeft g)
                 + (if Params.invertControls (Game.currentParams g) then -1 else 1)
                   * Params.paddleSpeed (Game.currentParams g))) /\
             (Game.isKey key "ArrowUp" = true ->
              movesTo (Game.handleKeyDown key g)
                (Game.paddleRight (Game.handleKeyDown key g))
                (Paddle.y (Game.paddleRight g)
                 - (if Params.invertControls (Game.currentParams g) then -1 else 1)
                   * Params.paddleSpeed (Game.currentParams g))) /\
             (Game.isKey key "ArrowDown" = true ->
              movesTo (Game.handleKeyDown key g)
                (Game.paddleRight (Game.handleKeyDown key g))
                (Paddle.y (Game.paddleRight g)
                 + (if Params.invertControls (Game.currentParams g) then -1 else 1)
                   * Params.paddleSpeed (Game.currentParams g)))).
  { intros key0 Hcase <-.
    destruct Hcase as [Hc | [Hc | [Hc | Hc]]]; key_cases;
      (split; [ | split; [ | split]]); intros Hk; try discriminate Hk;
      unfold movesTo, Game.handleKeyDown, Paddle.update, Game.currentParams,
        Game.deref; cbv zeta; rewrite Hkeys; keys_compute;
      cbn [Game.params Game.canvas Game.keys Game.paddleLeft Game.paddleRight
           Game.ownParams Game.chaosController
           Game.set_keys Game.set_leftPaddleAI Game.set_leftManualControl
           Game.set_rightPaddleAI Paddle.adopt Paddle.set_gameParams
           Paddle.gameParams Paddle.isLeft Paddle.y Paddle.height Paddle.set_y];
      rewrite ?Hleft, ?Hright;
      match goal with
      | |- context [Params.invertControls ?p] =>
          set (current := p); destruct (Params.invertControls current)
      end; keys_compute; eexists; (split; [ | reflexivity]); ring. }
  assert (Hdec : (Game.isW key = true \/ Game.isS key = true \/
                  Game.isKey key "ArrowUp" = true \/
                  Game.isKey key "ArrowDown" = true) \/
                 (Game.isW key = false /\ Game.isS key = false /\
                  Game.isKey key "ArrowUp" = false /\
                  Game.isKey key "ArrowDown" = false)).
  { destruct (Game.isW key), (Game.isS key), (Game.isKey key "ArrowUp"),
      (Game.isKey key "ArrowDown"); tauto. }
  assert (Hup : Game.keys (Game.handleKeyUp key (Game.handleKeyDown key g)) = released).
  { destruct Hdec as [[Hc | [Hc | [Hc | Hc]]] | (H1 & H2 & H3 & H4)]; key_cases;
      unfold Game.handleKeyUp, Game.handleKeyDown, Game.currentParams, Game.deref;
      cbv zeta; rewrite Hkeys; rewrite ?H1, ?H2, ?H3, ?H4; keys_compute;
      cbn [Game.params Game.keys Game.ownParams Game.chaosController Game.set_keys
           Game.set_leftPaddleAI Game.set_leftManualControl Game.set_rightPaddleAI];
      destruct (Game.params g);
      repeat match goal with
             | |- context [Params.invertControls ?p] =>
                 destruct (Params.invertControls p); keys_compute
             end; reflexivity. }
  destruct Hdec as [Hcase | (H1 & H2 & H3 & H4)].
  - destruct (Hmove key Hcase eq_refl) as (M1 & M2 & M3 & M4).
    repeat split; assumption.
  - rewrite H1, H2, H3, H4.
    split; [intros H; discriminate H | ].
    split; [intros H; discriminate H | ].
    split; [intros H; discriminate H | ].
    split; [intros H; discriminate H | exact Hup].
Qed.

Lemma inverted_controls_swap_witness :
  let g := fst (Game.init (host := taylorHost) 1000 600 (steadyWorld 0.5)) in
  let g1 := Game.handleKeyDown "w" g in
  Game.keys g = released /\
  movesTo g1 (Game.paddleLeft g1) (Paddle.y (Game.paddleLeft g) - 1 * 8).
Proof.
  intros g g1.
  assert (Hk : Game.keys g = released) by reflexivity.
  assert (Hl : Paddle.isLeft (Game.paddleLeft g) = true) by reflexivity.
  assert (Hr : Paddle.isLeft (Game.paddleRight g) = false) by reflexivity.
  split; [exact Hk | ].
  exact (proj1 (inverted_controls_swap "w" g Hk Hl Hr) eq_refl).
Defined.

(** *** Resizing *)

Lemma reflect_range (default : Z) (v : Q) :
  (0 <= default <= 2147483647)%Z ->
  exists n : Z, Canvas.reflect default v = inject_Z n /\ (0 <= n <= 2147483647)%Z.
Proof.
  intros Hd. unfold Canvas.reflect. cbv zeta.
  pose proof (Z.mod_pos_bound (if Qle_bool 0 v then Qfloor v else Qceiling v)
                4294967296 ltac:(lia)) as Hm.
  fold (Canvas.toUnsignedLong v) in Hm.
  destruct (Z.leb_spec (Canvas.toUnsignedLong v) 2147483647) as [Hle | Hgt];
    eexists; (split; [reflexivity | lia]).
Qed.

Lemma reflect_floor (default : Z) (v : Q) :
  0 <= v -> v < 2147483648 ->
  Canvas.reflect default v = inject_Z (Qfloor v).
Proof.
  intros H0 H1. unfold Canvas.reflect, Canvas.toUnsignedLong. cbv zeta.
  assert (Hb : Qle_bool 0 v = true) by (apply Qle_bool_iff; exact H0).
  rewrite Hb.
  assert (Hlo : (0 <= Qfloor v)%Z) by (apply Qfloor_ge; exact H0).
  assert (Hhi : (Qfloor v < 2147483648)%Z) by (apply Qfloor_lt; exact H1).
  rewrite Z.mod_small by lia.
  destruct (Z.leb_spec (Qfloor v) 2147483647) as [_ | Hgt]; [reflexivity | lia].
Qed.

(** X29: a resize.  [resizeCanvas] gives the canvas whole numbers of
    pixels, between 0 and [2 ^ 31 - 1]: for a window of a usual size (the
    products non-negative and below [2 ^ 31]) the integer parts of 0.9 of
    its width and of 0.8 of its height.  It puts the centre of each paddle
    at half the height of the canvas, whatever the fractions of the field
    are; the left paddle starts 10 after the left edge of the field, and the
    right paddle ends 10 before its right edge when the width of the paddle
    is the [paddleWidth] of the parameters.  The balls, the scores and the
    parameters are left as they are. *)
Theorem resizeCanvas_centres (innerWidth innerHeight : Q) (g : Game.t) :
  let g' := Game.resizeCanvas innerWidth innerHeight g in
  let field := Utils.getFieldOffset (Game.canvas g') (Game.currentParams g') in
  (exists n m : Z,
      Canvas.width (Game.canvas g') = inject_Z n /\
      Canvas.height (Game.canvas g') = inject_Z m /\
      (0 <= n <= 2147483647)%Z /\ (0 <= m <= 2147483647)%Z) /\
  (0 <= innerWidth * 0.9 -> innerWidth * 0.9 < 2147483648 ->
   Canvas.width (Game.canvas g') = inject_Z (Qfloor (innerWidth * 0.9))) /\
  (0 <= innerHeight * 0.8 -> innerHeight * 0.8 < 2147483648 ->
   Canvas.height (Game.canvas g') = inject_Z (Qfloor (innerHeight * 0.8))) /\
  (Paddle.y (Game.paddleLeft g') + Paddle.height (Game.paddleLeft g') / 2
   == Canvas.height (Game.canvas g') / 2 /\
   Paddle.y (Game.paddleRight g') + Paddle.height (Game.paddleRight g') / 2
   == Canvas.height (Game.canvas g') / 2) /\
  Paddle.x (Game.paddleLeft g') == Field.x field + 10 /\
  (Paddle.width (Game.paddleRight g') = Params.paddleWidth (Game.currentParams g') ->
   Paddle.x (Game.paddleRight g') + Paddle.width (Game.paddleRight g')
   == Field.x field + Field.width field - 10) /\
  Game.balls g' = Game.balls g /\
  Game.currentParams g' = Game.currentParams g /\
  Game.leftScore g' = Game.leftScore g /\ Game.rightScore g' = Game.rightScore g.
Proof.
  cbv zeta. unfold Game.resizeCanvas. cbv zeta.
  unfold Game.currentParams, Game.deref.
  cbn [Game.canvas Game.params Game.ownParams Game.chaosController Game.balls
       Game.leftScore Game.rightScore Game.paddleLeft Game.paddleRight
       Game.set_canvas Game.set_paddleLeft Game.set_paddleRight
       Paddle.x Paddle.y Paddle.width Paddle.height Paddle.set_x Paddle.set_y].
  set (params := match Game.params g with
                 | OwnParams => Game.ownParams g
                 | ChaosParams => Chaos.gameParams (Game.chaosController g)
                 end).
  unfold Canvas.resize, Utils.getFieldOffset.
  cbn [Field.x Field.y Field.width Field.height Canvas.width Canvas.height].
  split.
  { destruct (reflect_range 300 (innerWidth * 0.9) ltac:(lia)) as (n & Hn & Hnr).
    destruct (reflect_range 150 (innerHeight * 0.8) ltac:(lia)) as (m & Hm & Hmr).
    exists n, m. repeat split; try assumption; lia. }
  split; [apply reflect_floor | ].
  split; [apply reflect_floor | ].
  set (cw := Canvas.reflect 300 (innerWidth * 0.9)).
  set (ch := Canvas.reflect 150 (innerHeight * 0.8)).
  split; [split; qconst; ring | ].
  split; [reflexivity | ].
  split; [intros ->; qconst; ring | ].
  repeat split.
Qed.

(** A window of 1024 by 768 gives a canvas of 921 by 614. *)
Example resizeCanvas_sample (g : Game.t) :
  Game.canvas (Game.resizeCanvas 1024 768 g)
  = {| Canvas.width := 921; Canvas.height := 614 |}.
Proof. reflexivity. Qed.
